(** * A shallow embedding of the Rubik's cube engine of [rubiks_cube.py]

    The engine keeps the facelets of the cube in one numpy array of shape
    [(len(colors), dim, dim)] and turns a face by rotating that face's
    grid and then walking the table [rc_conf.connexions], moving the edge
    strips of the neighbouring faces along.  Arrays are mutable objects:
    they live in a store, the engine holds a reference into the store, and
    [self.cube[i]] is a view that reads and writes through to it.

    Layout of the file: numpy arrays, the configuration module, the store
    and the exception monad, the two classes; then the vocabulary of the
    statements; then the theory, which ends with the properties of the
    engine. *)

From Stdlib Require Import ZArith Lia List Ascii String Permutation.
From stdpp Require Import base list gmap strings.

(** ** numpy arrays *)

Abbreviation strip := (list Z).
Abbreviation grid := (list (list Z)).

(** An [ndarray] of integers.  The engine only ever computes with arrays
    of rank 3 (the raw cube) and of rank 4 (its one-hot encoding); [ArrN]
    stands for an array of any other rank, of which only the shape matters
    to the code. *)
Inductive ndarray :=
| Arr3 (k r c : nat) (a : list grid)
| Arr4 (k r c h : nat) (a : list (list (list (list Z))))
| ArrN (sh : list nat).

Definition shape (x : ndarray) : list nat :=
  match x with
  | Arr3 k r c _ => [k; r; c]
  | Arr4 k r c h _ => [k; r; c; h]
  | ArrN sh => sh
  end.

(** A two-dimensional array value with its shape. *)
Record matrix := Matrix { nrows : nat; ncols : nat; cells : grid }.

(** [np.flip(m, axis)] and [np.transpose(m)]: [transpose m] has entry
    [m[i][j]] at [(j, i)]. *)
Definition flip (m : matrix) (axis : nat) : matrix :=
  match axis with
  | 0 => Matrix (nrows m) (ncols m) (reverse (cells m))
  | _ => Matrix (nrows m) (ncols m) (reverse <$> cells m)
  end.

Definition transpose (m : matrix) : matrix :=
  Matrix (ncols m) (nrows m)
    ((fun j => (fun row => nth j row 0%Z) <$> cells m) <$> seq 0 (ncols m)).

(** [np.rot90(m, k)] as numpy defines it: [k] is taken modulo 4, one
    quarter turn is [transpose(flip(m, 1))] and three quarter turns are
    [flip(transpose(m), 1)]. *)
Definition rot90 (m : matrix) (k : nat) : matrix :=
  match k mod 4 with
  | 0 => m
  | 1 => transpose (flip m 1)
  | 2 => flip (flip m 0) 1
  | _ => flip (transpose m) 1
  end.

(** The index expressions [np.s_[:, j]] and [np.s_[i, :]]; [j] and [i] may
    be negative, counting from the end. *)
Inductive index2 :=
| s_col (j : Z)
| s_row (i : Z).

Definition norm_index (i : Z) (n : nat) : option nat :=
  if bool_decide (0 <= i < Z.of_nat n)%Z then Some (Z.to_nat i)
  else if bool_decide (- Z.of_nat n <= i < 0)%Z then Some (Z.to_nat (i + Z.of_nat n))
  else None.

Definition read_col (j : nat) (m : grid) : strip := (fun row => nth j row 0%Z) <$> m.
Definition read_row (i : nat) (m : grid) : strip := nth i m [].
Definition write_col (j : nat) (m : grid) (v : strip) : grid :=
  zip_with (fun row x => <[j := x]> row) m v.
Definition write_row (i : nat) (m : grid) (v : strip) : grid := <[i := v]> m.

(** [np.argmax] of a vector: the first position of the largest entry. *)
Fixpoint argmax_from (best : Z) (besti i : nat) (v : list Z) : nat :=
  match v with
  | [] => besti
  | x :: v' =>
      if bool_decide (best < x)%Z then argmax_from x i (S i) v'
      else argmax_from best besti (S i) v'
  end.

Definition argmax (v : list Z) : nat :=
  match v with
  | [] => 0
  | x :: v' => argmax_from x 0 1 v'
  end.

(** [(np.arange(K) == x).astype(int)] for a number [x]: the vector of
    length [K] that has 1 at position [x] and 0 elsewhere; it is all 0
    when [x] is not one of the positions. *)
Definition one_hot (K : nat) (x : Z) : list Z :=
  (fun k => if bool_decide (Z.of_nat k = x) then 1%Z else 0%Z) <$> seq 0 K.

(** [np.all(m == c)] for a matrix [m] and a number [c]. *)
Definition all_equal (m : grid) (c : Z) : bool :=
  forallb (forallb (fun x => bool_decide (x = c))) m.

(** [np.array_equal]: same shape and same entries. *)
Definition array_equal (x y : ndarray) : bool :=
  match x, y with
  | Arr3 k r c a, Arr3 k' r' c' a' =>
      bool_decide ([k; r; c] = [k'; r'; c']) && bool_decide (a = a')
  | Arr4 k r c h a, Arr4 k' r' c' h' a' =>
      bool_decide ([k; r; c; h] = [k'; r'; c'; h']) && bool_decide (a = a')
  | _, _ => false
  end.

(** ** The configuration module [rubiks_cube_config]

    The module is imported as [rc_conf] and is not part of the sources at
    hand, so the development is parametric in it.  Face and direction
    symbols are one-character strings; an edge is one of the letters
    ['r'], ['l'], ['u'], ['d']. *)

Inductive edge := edge_r | edge_l | edge_u | edge_d.

Global Instance edge_eq_dec : EqDecision edge.
Proof. solve_decision. Defined.

Record connexion := Connexion {
  c_sides : list string;
  c_edges : list edge;
  c_inversions : list (edge * edge)
}.

Record Config := {
  colors : list string;
  sides : list string;
  directions : list string;
  connexions : gmap string connexion
}.

(** A Python dict built by a comprehension over [enumerate]: keys keep the
    order of their first insertion, a repeated key keeps its place and
    takes the later value. *)
Fixpoint dict_set {V} (k : string) (v : V) (dct : list (string * V)) : list (string * V) :=
  match dct with
  | [] => [(k, v)]
  | (k', v') :: rest =>
      if bool_decide (k' = k) then (k', v) :: rest else (k', v') :: dict_set k v rest
  end.

Fixpoint dict_get {V} (k : string) (dct : list (string * V)) : option V :=
  match dct with
  | [] => None
  | (k', v) :: rest => if bool_decide (k' = k) then Some v else dict_get k rest
  end.

Definition dict_index (keys : list string) : list (string * nat) :=
  fold_left (fun dct '(i, k) => dict_set k i dct) (imap pair keys) [].

Definition dict_values {V} (dct : list (string * V)) : list V := snd <$> dct.

(** ** The store, exceptions and the monad of a Python computation *)

Definition loc := nat.

Inductive exn :=
| AttributeError | KeyError | IndexError | TypeError | ValueError | AssertionError.

Inductive result (A : Type) :=
| Ok (a : A)
| Raise (e : exn).
Arguments Ok {A} a.
Arguments Raise {A} e.

(** The world: the store of arrays and the random source ([rng] is the
    sequence of numbers the generator will hand out, [drawn] how many of
    them have been used). *)
Record world := World {
  heap : gmap loc ndarray;
  rng : nat -> nat;
  drawn : nat
}.

Definition py (A : Type) : Type := world -> result A * world.

Definition ret {A} (a : A) : py A := fun w => (Ok a, w).
Definition raise {A} (e : exn) : py A := fun w => (Raise e, w).
Definition bind {A B} (m : py A) (f : A -> py B) : py B :=
  fun w => match m w with
           | (Ok a, w') => f a w'
           | (Raise e, w') => (Raise e, w')
           end.

Notation "x <- m ;; k" := (bind m (fun x => k))
  (at level 20, m at level 99, k at level 200, only parsing).
Notation "' p <- m ;; k" := (bind m (fun p => k))
  (at level 20, p pattern, m at level 99, k at level 200, only parsing).

Definition lift {A} (e : exn) (o : option A) : py A :=
  match o with Some a => ret a | None => raise e end.

Definition of_result {A} (x : result A) : py A := fun w => (x, w).

(** Reading the array behind a reference, replacing it, and allocating a
    new array object. *)
Definition load (p : loc) : py ndarray :=
  fun w => match heap w !! p with
           | Some x => (Ok x, w)
           | None => (Raise TypeError, w)
           end.

Definition store (p : loc) (x : ndarray) : py unit :=
  fun w => (Ok tt, World (<[p := x]> (heap w)) (rng w) (drawn w)).

Definition alloc (x : ndarray) : py loc :=
  fun w => let p := fresh (dom (heap w)) in
           (Ok p, World (<[p := x]> (heap w)) (rng w) (drawn w)).

(** [random.choice(seq)]. *)
Definition choice {A} (l : list A) : py A :=
  fun w => match l !! (rng w (drawn w) mod length l) with
           | Some a => (Ok a, World (heap w) (rng w) (S (drawn w)))
           | None => (Raise IndexError, w)
           end.

Fixpoint mapM {A B} (f : A -> py B) (l : list A) : py (list B) :=
  match l with
  | [] => ret []
  | a :: l' => b <- f a ;; bs <- mapM f l' ;; ret (b :: bs)
  end.

Fixpoint foldM {A S} (f : S -> A -> py S) (s : S) (l : list A) : py S :=
  match l with
  | [] => ret s
  | a :: l' => s' <- f s a ;; foldM f s' l'
  end.

(** *** Views

    [cube[i]] is a view of face [i] of the array behind [base]: nothing is
    copied, reads and writes go to the array itself. *)
Record view := View { base : loc; face : nat }.

(** [a[i]]: a view of the [i]-th item along the first axis.  The array an
    engine refers to is always of rank 3 (it comes from [_construct_cube],
    from a copy of an array of the raw shape, or from [argmax] over an
    array of the one-hot shape); the operations on views below are given
    for that rank and answer [TypeError] otherwise. *)
Definition getitem (p : loc) (i : nat) : py view :=
  x <- load p ;;
  match x with
  | Arr3 k _ _ _ => if bool_decide (i < k) then ret (View p i) else raise IndexError
  | Arr4 k _ _ _ _ => if bool_decide (i < k) then ret (View p i) else raise IndexError
  | ArrN sh => match sh with
               | k :: _ => if bool_decide (i < k) then ret (View p i) else raise IndexError
               | [] => raise IndexError
               end
  end.

(** The matrix a view of a rank-3 array shows. *)
Definition view_value (v : view) : py matrix :=
  x <- load (base v) ;;
  match x with
  | Arr3 _ r c a => m <- lift IndexError (a !! face v) ;; ret (Matrix r c m)
  | _ => raise TypeError
  end.

(** [a[i] = g] for a matrix [g], which must have the shape of a face
    (the engine assigns the quarter turn of the face itself, a matrix of
    shape [(c, r)], so no broadcasting of axes of length one is involved
    unless the face is 1 x 1). *)
Definition setitem (p : loc) (i : nat) (g : matrix) : py unit :=
  x <- load p ;;
  match x with
  | Arr3 k r c a =>
      if bool_decide (i < k) then
        if bool_decide (nrows g = r /\ ncols g = c)
        then store p (Arr3 k r c (<[i := cells g]> a))
        else raise ValueError
      else raise IndexError
  | _ => raise TypeError
  end.

(** [m[s]] for a view [m] and an index expression [s]: a strip of the
    face.  An index outside the face raises [IndexError]. *)
Definition view_getitem (v : view) (s : index2) : py strip :=
  x <- load (base v) ;;
  match x with
  | Arr3 _ r c a =>
      m <- lift IndexError (a !! face v) ;;
      match s with
      | s_col j => j' <- lift IndexError (norm_index j c) ;; ret (read_col j' m)
      | s_row i => i' <- lift IndexError (norm_index i r) ;; ret (read_row i' m)
      end
  | _ => raise TypeError
  end.

(** [m[s] = x]: the strip [x] is written into the face; numpy broadcasts
    a strip of length one and refuses any other length mismatch. *)
Definition broadcast_to (n : nat) (x : strip) : option strip :=
  if bool_decide (length x = n) then Some x
  else match x with
       | [z] => Some (replicate n z)
       | _ => None
       end.

Definition view_setitem (v : view) (s : index2) (x : strip) : py unit :=
  y <- load (base v) ;;
  match y with
  | Arr3 k r c a =>
      m <- lift IndexError (a !! face v) ;;
      match s with
      | s_col j =>
          j' <- lift IndexError (norm_index j c) ;;
          x' <- lift ValueError (broadcast_to r x) ;;
          store (base v) (Arr3 k r c (<[face v := write_col j' m x']> a))
      | s_row i =>
          i' <- lift IndexError (norm_index i r) ;;
          x' <- lift ValueError (broadcast_to c x) ;;
          store (base v) (Arr3 k r c (<[face v := write_row i' m x']> a))
      end
  | _ => raise TypeError
  end.

(** [isinstance(x, np.ndarray)]: a reference that does not lead to an
    array in the store stands for a Python value of another type. *)
Definition isinstance_ndarray (p : loc) : py bool :=
  fun w => (Ok (bool_decide (is_Some (heap w !! p))), w).

Definition char (a : ascii) : string := String a EmptyString.

(** ** class RubiksAction *)

Module RubiksAction.

(** [collections.namedtuple('Action', 'side direction')] *)
Record Action := { side : string; direction : string }.

(** The object: its field [action] holds an [Action] or [None]. *)
Record t := { action : option Action }.

(** [__eq__] compares the fields of two actions. *)
Global Instance Action_eq_dec : EqDecision Action.
Proof. solve_decision. Defined.
Global Instance t_eq_dec : EqDecision t.
Proof. solve_decision. Defined.

(** [__str__]: the two fields of the action, joined.  On an object whose
    [action] is [None] the attribute [side] does not exist. *)
Definition __str__ (self : t) : result string :=
  match action self with
  | Some a => Ok (String.append (side a) (direction a))
  | None => Raise AttributeError
  end.

Section WithConfig.
Variable rc_conf : Config.

(** [_load_action]: on a code it does not know the method prints a
    message and returns [None]. *)
Definition _load_action (code : string) : option Action :=
  match code with
  | String a (String b EmptyString) =>
      if bool_decide (char a ∈ sides rc_conf)
         && bool_decide (char b ∈ directions rc_conf)
      then Some {| side := char a; direction := char b |}
      else None
  | _ => None
  end.

(** [_random_action]: the two symbols are drawn, concatenated and the
    resulting string is unpacked into the two fields. *)
Definition _random_action : py Action :=
  s <- choice (sides rc_conf) ;;
  d <- choice (directions rc_conf) ;;
  match String.append s d with
  | String a (String b EmptyString) => ret {| side := char a; direction := char b |}
  | _ => raise TypeError
  end.

Definition __init__ (code : option string) : py t :=
  match code with
  | Some c => ret {| action := _load_action c |}
  | None => a <- _random_action ;; ret {| action := Some a |}
  end.

Definition get_inverse_action (self : t) : py t :=
  a <- lift AttributeError (action self) ;;
  let inverse_side := side a in
  let inverse_direction :=
    if bool_decide (direction a = "i") then "d" else "i" in
  __init__ (Some (String.append inverse_side inverse_direction)).

End WithConfig.
End RubiksAction.

(** ** class RubiksCube *)

Module RubiksCube.
Import RubiksAction.

(** The fields of an engine that change or differ between engines; the
    tables copied from the configuration are read from [rc_conf].
    [cube] is [None] as long as the attribute has not been set. *)
Record t := { dim : nat; verbose : bool; counter : nat; cube : option loc }.

(** What [__eq__] may return: a Python [bool] or an array of them. *)
Inductive pyval :=
| PyBool (b : bool)
| PyBoolArray (k r c : nat) (a : list (list (list bool))).

(** A Python object an engine may be compared with. *)
Inductive pyobj :=
| ObjCube (o : t)
| ObjAction (o : RubiksAction.t)
| ObjOther.

Section WithConfig.
Variable rc_conf : Config.

Definition actions : list string :=
  flat_map (fun s => (fun d => String.append s d) <$> directions rc_conf)
           (sides rc_conf).
Definition index_colors : list (string * nat) := dict_index (colors rc_conf).
Definition index_sides : list (string * nat) := dict_index (sides rc_conf).
Definition index_actions : list (string * nat) := dict_index actions.

(** [from_one_hot_cube]: [np.argmax(cube, axis=-1)]. *)
Definition from_one_hot_cube (x : ndarray) : result ndarray :=
  match x with
  | Arr4 k r c h a =>
      if bool_decide (h = 0) then Raise ValueError
      else Ok (Arr3 k r c
                (fmap (M := list) (fmap (M := list) (fmap (M := list)
                   (fun v => Z.of_nat (argmax v)))) a))
  | Arr3 k r c _ => if bool_decide (c = 0) then Raise ValueError else Ok (ArrN [k; r])
  | ArrN sh =>
      match reverse sh with
      | [] => Ok (ArrN [])
      | h :: rest => if bool_decide (h = 0) then Raise ValueError
                     else Ok (ArrN (reverse rest))
      end
  end.

(** [to_one_hot_cube]:
    [(np.arange(len(rc_conf.colors)) == cube[..., None]).astype(int)],
    an array with one more axis, along which each cell is spelt out as
    its [one_hot] vector. *)
Definition to_one_hot_cube (x : ndarray) : ndarray :=
  let K := length (colors rc_conf) in
  match x with
  | Arr3 k r c a =>
      Arr4 k r c K (fmap (M := list) (fmap (M := list) (fmap (M := list) (one_hot K))) a)
  | _ => ArrN (shape x ++ [K])
  end.

(** The properties [state] and [state_one_hot]: the first hands out the
    engine's own array, the second a new array. *)
Definition state (self : t) : py loc := lift AttributeError (cube self).

Definition state_one_hot (self : t) : py loc :=
  p <- lift AttributeError (cube self) ;;
  x <- load p ;;
  alloc (to_one_hot_cube x).

(** [_construct_cube]: [np.empty] followed by one assignment
    [cube[index, :, :] = index] per value of [index_colors].  The
    content [np.empty] leaves in a face that is never assigned is
    unspecified; it is taken to be 0. *)
Definition _construct_cube (self : t) : py loc :=
  let empty := replicate (length (colors rc_conf))
                 (replicate (dim self) (replicate (dim self) 0%Z)) in
  let filled :=
    fold_left
      (fun a index =>
         <[index := replicate (dim self) (replicate (dim self) (Z.of_nat index))]> a)
      (dict_values index_colors) empty in
  alloc (Arr3 (length (colors rc_conf)) (dim self) (dim self) filled).

Definition _rotate_helper (m : matrix) (direction : string) : option matrix :=
  if bool_decide (direction = "d") then Some (rot90 m 1)
  else if bool_decide (direction = "i") then Some (rot90 m 3)
  else None.

Definition _edge_to_slice (e : edge) : index2 :=
  match e with
  | edge_r => s_col (-1)
  | edge_l => s_col 0
  | edge_u => s_row 0
  | edge_d => s_row (-1)
  end.

(** [_edge_translation]: the strip of [side_matrix_a] (or the strip
    handed over in [input_array]) is written, possibly reversed, into
    [side_matrix_b], whose previous strip is returned.  Both matrices
    are views; the strip read from [side_matrix_a] is used before
    anything is written. *)
Definition _edge_translation (side : string) (side_matrix_a side_matrix_b : view)
    (edge_a edge_b : edge) (return_array : bool) (input_array : option strip)
    : py (option strip) :=
  edge_array_a <-
    match input_array with
    | None => view_getitem side_matrix_a (_edge_to_slice edge_a)
    | Some x => ret x
    end ;;
  cn <- lift KeyError (connexions rc_conf !! side) ;;
  let edge_array_a :=
    if bool_decide ((edge_a, edge_b) ∈ c_inversions cn)
    then reverse edge_array_a else edge_array_a in
  edge_array_b <- view_getitem side_matrix_b (_edge_to_slice edge_b) ;;
  _ <- view_setitem side_matrix_b (_edge_to_slice edge_b) edge_array_a ;;
  ret (if return_array then Some edge_array_b else None).

(** [_rotate] (the message printed when [verbose] is set is left
    out). *)
Definition _rotate (self : t) (act : Action) : py t :=
  let side := RubiksAction.side act in
  let direction := RubiksAction.direction act in
  p <- lift AttributeError (cube self) ;;
  i <- lift KeyError (dict_get side index_sides) ;;
  side_matrix <- getitem p i ;;
  cn <- lift KeyError (connexions rc_conf !! side) ;;
  let connected_sides := c_sides cn in
  connected_side_matrices <-
    mapM (fun connected_side =>
            j <- lift KeyError (dict_get connected_side index_sides) ;;
            getitem p j)
         connected_sides ;;
  let connected_edges := c_edges cn in
  let connected_side_matrices :=
    if bool_decide (direction = "i") then reverse connected_side_matrices
    else connected_side_matrices in
  let connected_edges :=
    if bool_decide (direction = "i") then reverse connected_edges
    else connected_edges in
  m <- view_value side_matrix ;;
  rotated <- lift TypeError (_rotate_helper m direction) ;;
  _ <- setitem p i rotated ;;
  _ <- foldM
         (fun previous_array idx =>
            a <- lift IndexError (connected_side_matrices !! idx) ;;
            b <- lift IndexError (connected_side_matrices !! (idx + 1)) ;;
            ea <- lift IndexError (connected_edges !! idx) ;;
            eb <- lift IndexError (connected_edges !! (idx + 1)) ;;
            _edge_translation side a b ea eb true previous_array)
         None (seq 0 (length connected_side_matrices - 1)) ;;
  ret {| dim := dim self; verbose := verbose self;
         counter := counter self + 1; cube := cube self |}.

Definition _get_reward (self : t) : py Z :=
  flags <- mapM (fun i =>
                   p <- lift AttributeError (cube self) ;;
                   v <- getitem p i ;;
                   m <- view_value v ;;
                   ret (all_equal (cells m) (Z.of_nat i)))
                (dict_values index_colors) ;;
  let resolved := forallb id flags in
  ret (if resolved then 1%Z else (-1)%Z).

Definition is_resolved (self : t) : py bool :=
  reward <- _get_reward self ;;
  ret (if bool_decide (reward = 1%Z) then true else false).

Definition shuffle_cube (self : t) (n : nat) : py t :=
  foldM (fun self _ =>
           random_action <- RubiksAction.__init__ rc_conf None ;;
           a <- lift AttributeError (action random_action) ;;
           self <- _rotate self a ;;
           ret {| dim := dim self; verbose := verbose self;
                  counter := 0; cube := cube self |})
        self (seq 0 n).

Definition reset (self : t) (shuffle : bool) : py (t * loc) :=
  p <- _construct_cube self ;;
  let self := {| dim := dim self; verbose := verbose self;
                 counter := counter self; cube := Some p |} in
  self <- (if shuffle then shuffle_cube self 100 else ret self) ;;
  state <- lift AttributeError (cube self) ;;
  ret (self, state).

Definition step (self : t) (a : RubiksAction.t) : py (t * (loc * Z * bool)) :=
  act <- lift AssertionError (action a) ;;
  self <- _rotate self act ;;
  state <- lift AttributeError (cube self) ;;
  reward <- _get_reward self ;;
  done <- is_resolved self ;;
  ret (self, (state, reward, done)).

(** [__init__(dim, cube, verbose, shuffle)].  When [cube] is given
    and has neither of the two expected shapes, a message is printed
    and the attribute [cube] is not set. *)
Definition __init__ (dim : nat) (cube_arg : option loc) (verbose shuffle : bool)
    : py t :=
  let self := {| dim := dim; verbose := verbose; counter := 0; cube := None |} in
  let with_cube p := {| dim := dim; verbose := verbose; counter := 0;
                        cube := Some p |} in
  let K := length (colors rc_conf) in
  self <-
    match cube_arg with
    | None => p <- _construct_cube self ;; ret (with_cube p)
    | Some q =>
        is_array <- isinstance_ndarray q ;;
        if is_array then
          x <- load q ;;
          if bool_decide (shape x = [K; dim; dim]) then
            p <- alloc x ;; ret (with_cube p)
          else if bool_decide (shape x = [K; dim; dim; K]) then
            y <- of_result (from_one_hot_cube x) ;;
            p <- alloc y ;; ret (with_cube p)
          else ret self
        else ret self
    end ;;
  if shuffle then shuffle_cube self 100 else ret self.

(** [x == y] for two arrays: numpy's element-wise comparison.  Two
axes go together when they have the same length or one of them has
length one, which is then stretched; shapes that do not go together
are refused (numpy before 1.25 answered [False] with a warning
instead).  Engines only ever hold arrays of rank 3. *)
Definition stretch {A} (n : nat) (l : list A) : list A :=
match l with
| [v] => replicate n v
| _ => l
end.

Definition bdim (m n : nat) : nat := if bool_decide (m = 1) then n else m.

Definition compatible (m n : nat) : bool :=
bool_decide (m = n) || bool_decide (m = 1) || bool_decide (n = 1).

Definition bzip {A B C} (f : A -> B -> C) (n : nat) (l : list A) (l' : list B)
: list C :=
zip_with f (stretch n l) (stretch n l').

Definition np_eq (x y : ndarray) : result pyval :=
match x, y with
| Arr3 k r c a, Arr3 k' r' c' a' =>
  if compatible k k' && compatible r r' && compatible c c'
  then Ok (PyBoolArray (bdim k k') (bdim r r') (bdim c c')
             (bzip (bzip (bzip (fun u v => bool_decide (u = v)) (bdim c c'))
                      (bdim r r'))
                (bdim k k') a a'))
  else Raise ValueError
| _, _ => Raise TypeError
end.

Definition __eq__ (self : t) (other : pyobj) : py pyval :=
  match other with
  | ObjCube o =>
      p <- lift AttributeError (cube self) ;;
      q <- lift AttributeError (cube o) ;;
      x <- load p ;;
      y <- load q ;;
      of_result (np_eq x y)
  | _ => ret (PyBool false)
  end.

(** [get_action_from_two_states]; the loop over [rubiks_1.actions]
    returns from inside its body, which the recursion mirrors. *)
Fixpoint probe_actions (rubiks_1 : t) (state_2 : loc) (acts : list string)
    : py (option RubiksAction.t) :=
  match acts with
  | [] => ret None
  | act :: rest =>
      c <- lift AttributeError (cube rubiks_1) ;;
      rubiks_1_copy <- __init__ 3 (Some c) false false ;;
      rubiks_action <- RubiksAction.__init__ rc_conf (Some act) ;;
      r <- step rubiks_1_copy rubiks_action ;;
      let new_state := fst (fst (snd r)) in
      x <- load new_state ;;
      y <- load state_2 ;;
      if array_equal x y then ret (Some rubiks_action)
      else probe_actions rubiks_1 state_2 rest
  end.

Definition get_action_from_two_states (state_1 state_2 : loc)
    : py (option RubiksAction.t) :=
  ok1 <- isinstance_ndarray state_1 ;;
  ok2 <- isinstance_ndarray state_2 ;;
  if negb (ok1 && ok2) then raise AssertionError else
  x1 <- load state_1 ;;
  x2 <- load state_2 ;;
  if negb (bool_decide (length (shape x1) = 3 /\ length (shape x2) = 3))
  then raise AssertionError else
  rubiks_1 <- __init__ (List.last (shape x1) 0) (Some state_1) false false ;;
  probe_actions rubiks_1 state_2 actions.

End WithConfig.
End RubiksCube.

(** * Vocabulary of the theory

    Shapes of grids and cubes, the turn of a face written as a function
    of the faces, the checks a configuration has to pass, and the concrete
    worlds the examples run in. *)

Definition wf_grid (n : nat) (m : grid) : Prop :=
  length m = n /\ Forall (fun row => length row = n) m.

Definition wf_cube (K n : nat) (a : list grid) : Prop :=
  length a = K /\ Forall (wf_grid n) a.

(** The multiset of colours of a cube is its list of cells up to
    permutation. *)
Definition cells_of (a : list grid) : list Z := concat (concat a).

(** A grid given by its entries, and the entry of a grid. *)
Definition tab (n : nat) (f : nat -> nat -> Z) : grid :=
  (fun i => (fun j => f i j) <$> seq 0 n) <$> seq 0 n.

Definition entry (m : grid) (i j : nat) : Z := nth j (nth i m []) 0%Z.

Definition quarter (n k : nat) (m : grid) : grid := cells (rot90 (Matrix n n m) k).

Definition get_edge (e : edge) (n : nat) (m : grid) : strip :=
  match e with
  | edge_r => read_col (n - 1) m
  | edge_l => read_col 0 m
  | edge_u => read_row 0 m
  | edge_d => read_row (n - 1) m
  end.

Definition put_edge (e : edge) (n : nat) (m : grid) (v : strip) : grid :=
  match e with
  | edge_r => write_col (n - 1) m v
  | edge_l => write_col 0 m v
  | edge_u => write_row 0 m v
  | edge_d => write_row (n - 1) m v
  end.

Definition rv (b : bool) (s : strip) : strip := if b then reverse s else s.

Definition inverted (inv : list (edge * edge)) (ea eb : edge) : bool :=
  bool_decide ((ea, eb) ∈ inv).

(** What one call of [_edge_translation] does to the faces. *)
Definition translate (n : nat) (inv : list (edge * edge)) (xa xb : nat * edge)
    (input : option strip) (a : list grid) : list grid * strip :=
  let sa := match input with
            | None => get_edge (snd xa) n (a !!! fst xa)
            | Some x => x
            end in
  (<[fst xb := put_edge (snd xb) n (a !!! fst xb) (rv (inverted inv (snd xa) (snd xb)) sa)]> a,
   get_edge (snd xb) n (a !!! fst xb)).

(** The four calls the loop of [_rotate] makes for a table entry
    [x0, x1, x2, x3, x0]. *)
Definition cycle4 (n : nat) (inv : list (edge * edge)) (x0 x1 x2 x3 : nat * edge)
    (a : list grid) : list grid :=
  let '(a1, s1) := translate n inv x0 x1 None a in
  let '(a2, s2) := translate n inv x1 x2 (Some s1) a1 in
  let '(a3, s3) := translate n inv x2 x3 (Some s2) a2 in
  fst (translate n inv x3 x0 (Some s3) a3).

(** The whole turn: the face [i] makes a quarter turn ([k] is 1 for
    direction ['d'] and 3 for ['i']), then the strips move along the
    table entry, which is walked backwards for direction ['i']. *)
Definition turned (n : nat) (inv : list (edge * edge)) (i : nat) (backwards : bool)
    (x0 x1 x2 x3 : nat * edge) (a : list grid) : list grid :=
  let a0 := <[i := quarter n (if backwards then 3 else 1) (a !!! i)]> a in
  if backwards then cycle4 n inv x0 x3 x2 x1 a0 else cycle4 n inv x0 x1 x2 x3 a0.

Definition wstore (w : world) (p : loc) (x : ndarray) : world :=
  World (<[p := x]> (heap w)) (rng w) (drawn w).

Definition input_ok (n : nat) (input : option strip) : Prop :=
  match input with Some x => length x = n | None => True end.

(** What [_rotate] reads from the configuration for the face [s]: its
    index [i], and the closed cycle of neighbours [x0, x1, x2, x3, x0]
    given as (index of the face, edge). *)
Record table_entry (cfg : Config) (K : nat) (s : string) (i : nat)
    (x0 x1 x2 x3 : nat * edge) (inv : list (edge * edge)) : Prop := {
  te_index : dict_get s (RubiksCube.index_sides cfg) = Some i;
  te_lt : i < K;
  te_conn : exists s0 s1 s2 s3,
      connexions cfg !! s
      = Some (Connexion [s0; s1; s2; s3; s0]
                [snd x0; snd x1; snd x2; snd x3; snd x0] inv)
      /\ dict_get s0 (RubiksCube.index_sides cfg) = Some (fst x0)
      /\ dict_get s1 (RubiksCube.index_sides cfg) = Some (fst x1)
      /\ dict_get s2 (RubiksCube.index_sides cfg) = Some (fst x2)
      /\ dict_get s3 (RubiksCube.index_sides cfg) = Some (fst x3);
  te_bounds : fst x0 < K /\ fst x1 < K /\ fst x2 < K /\ fst x3 < K;
  te_distinct : NoDup [i; fst x0; fst x1; fst x2; fst x3]
}.

Definition bump (self : RubiksCube.t) : RubiksCube.t :=
  {| RubiksCube.dim := RubiksCube.dim self;
     RubiksCube.verbose := RubiksCube.verbose self;
     RubiksCube.counter := RubiksCube.counter self + 1;
     RubiksCube.cube := RubiksCube.cube self |}.

Definition build (K : nat) (F : nat -> grid) : list grid := F <$> seq 0 K.

Definition upd (F : nat -> grid) (j : nat) (g : grid) : nat -> grid :=
  fun j' => if decide (j' = j) then g else F j'.

Definition cycled (n : nat) (inv : list (edge * edge)) (y0 y1 y2 y3 : nat * edge)
    (F : nat -> grid) : nat -> grid :=
  fun j =>
    if decide (j = fst y0) then
      put_edge (snd y0) n (F (fst y0))
        (rv (inverted inv (snd y3) (snd y0)) (get_edge (snd y3) n (F (fst y3))))
    else if decide (j = fst y1) then
      put_edge (snd y1) n (F (fst y1))
        (rv (inverted inv (snd y0) (snd y1)) (get_edge (snd y0) n (F (fst y0))))
    else if decide (j = fst y2) then
      put_edge (snd y2) n (F (fst y2))
        (rv (inverted inv (snd y1) (snd y2)) (get_edge (snd y1) n (F (fst y1))))
    else if decide (j = fst y3) then
      put_edge (snd y3) n (F (fst y3))
        (rv (inverted inv (snd y2) (snd y3)) (get_edge (snd y2) n (F (fst y2))))
    else F j.

(** A cube given by a base cube [A], the grid [rho] of the turning face
    [i] and the four strips that sit on the edges of its neighbours. *)
Definition dressed (n i : nat) (x0 x1 x2 x3 : nat * edge)
    (A : nat -> grid) (rho : grid) (t0 t1 t2 t3 : strip) : nat -> grid :=
  fun j =>
    if decide (j = i) then rho
    else if decide (j = fst x0) then put_edge (snd x0) n (A (fst x0)) t0
    else if decide (j = fst x1) then put_edge (snd x1) n (A (fst x1)) t1
    else if decide (j = fst x2) then put_edge (snd x2) n (A (fst x2)) t2
    else if decide (j = fst x3) then put_edge (snd x3) n (A (fst x3)) t3
    else A j.

(** The reversal flags of a table entry: [sym_flags] says that a pair of
    edges is reversed in one direction exactly when it is in the other,
    [even_flags] that going once around the cycle reverses a strip an
    even number of times, in either direction. *)
Definition sym_flags (inv : list (edge * edge)) (e0 e1 e2 e3 : edge) : bool :=
  bool_decide (inverted inv e0 e1 = inverted inv e1 e0)
  && bool_decide (inverted inv e1 e2 = inverted inv e2 e1)
  && bool_decide (inverted inv e2 e3 = inverted inv e3 e2)
  && bool_decide (inverted inv e3 e0 = inverted inv e0 e3).

Definition even_flags (inv : list (edge * edge)) (e0 e1 e2 e3 : edge) : bool :=
  negb (xorb (xorb (inverted inv e0 e1) (inverted inv e1 e2))
             (xorb (inverted inv e2 e3) (inverted inv e3 e0)))
  && negb (xorb (xorb (inverted inv e1 e0) (inverted inv e2 e1))
                (xorb (inverted inv e3 e2) (inverted inv e0 e3))).

Record circuit := Circuit {
  t_index : nat;
  t_x0 : nat * edge; t_x1 : nat * edge; t_x2 : nat * edge; t_x3 : nat * edge;
  t_inv : list (edge * edge)
}.

(** The table entry of a face, if it is a closed cycle of four
    neighbours: the first neighbour is listed again at the end, as the
    loop of [_rotate] over consecutive pairs needs it to carry the last
    strip back to the first face. *)
Definition circuit_of (cfg : Config) (s : string) : option circuit :=
  match dict_get s (RubiksCube.index_sides cfg), connexions cfg !! s with
  | Some i, Some cn =>
      match c_sides cn, c_edges cn with
      | [s0; s1; s2; s3; s4], [e0; e1; e2; e3; e4] =>
          match dict_get s0 (RubiksCube.index_sides cfg),
                dict_get s1 (RubiksCube.index_sides cfg),
                dict_get s2 (RubiksCube.index_sides cfg),
                dict_get s3 (RubiksCube.index_sides cfg) with
          | Some f0, Some f1, Some f2, Some f3 =>
              if bool_decide (s4 = s0 /\ e4 = e0)
              then Some (Circuit i (f0, e0) (f1, e1) (f2, e2) (f3, e3) (c_inversions cn))
              else None
          | _, _, _, _ => None
          end
      | _, _ => None
      end
  | _, _ => None
  end.

Definition circuit_closed (K : nat) (t : circuit) : bool :=
  bool_decide (t_index t < K /\ fst (t_x0 t) < K /\ fst (t_x1 t) < K
               /\ fst (t_x2 t) < K /\ fst (t_x3 t) < K)
  && bool_decide (NoDup [t_index t; fst (t_x0 t); fst (t_x1 t);
                         fst (t_x2 t); fst (t_x3 t)]).

Definition for_entries (cfg : Config) (check : circuit -> bool) : bool :=
  forallb (fun s => match circuit_of cfg s with
                    | Some t => check t
                    | None => false
                    end) (sides cfg).

(** Every face has an index below the number of colours and a closed
    cycle of four distinct neighbours other than itself; the colours are
    pairwise distinct; the directions are ['d'] and ['i']. *)
Definition config_ok (cfg : Config) : bool :=
  bool_decide (dict_values (RubiksCube.index_colors cfg) = seq 0 (length (colors cfg)))
  && bool_decide ("d" ∈ directions cfg /\ "i" ∈ directions cfg)
  && forallb (fun x => bool_decide (x = "d" \/ x = "i")) (directions cfg)
  && for_entries cfg (circuit_closed (length (colors cfg))).

Definition table_sym (cfg : Config) : bool :=
  for_entries cfg (fun t => sym_flags (t_inv t) (snd (t_x0 t)) (snd (t_x1 t))
                              (snd (t_x2 t)) (snd (t_x3 t))).

Definition table_even (cfg : Config) : bool :=
  for_entries cfg (fun t => even_flags (t_inv t) (snd (t_x0 t)) (snd (t_x1 t))
                              (snd (t_x2 t)) (snd (t_x3 t))).

(** Modelled from the spec: the module [rubiks_cube_config] itself is not
    among the sources.  This is a configuration of the kind section 3 of
    the specification describes (six faces, two directions, six colours,
    and for each face the ordered cycle of its four neighbours with the
    edge concerned and the reversal flags), worked out for the placement
    of the six faces that [render] draws: face 0 in front, 1 at the back,
    2 on top, 3 at the bottom, 4 on the left and 5 on the right. *)
Definition std_conf : Config := {|
  colors := ["red"; "orange"; "white"; "yellow"; "green"; "blue"];
  sides := ["F"; "B"; "U"; "D"; "L"; "R"];
  directions := ["d"; "i"];
  connexions :=
    list_to_map
      [("F", Connexion ["U"; "L"; "D"; "R"; "U"]
               [edge_r; edge_r; edge_r; edge_l; edge_r]
               [(edge_l, edge_r); (edge_r, edge_l)]);
       ("B", Connexion ["U"; "R"; "D"; "L"; "U"]
               [edge_l; edge_r; edge_l; edge_l; edge_l]
               [(edge_l, edge_r); (edge_r, edge_l)]);
       ("U", Connexion ["F"; "R"; "B"; "L"; "F"]
               [edge_u; edge_u; edge_u; edge_u; edge_u] []);
       ("D", Connexion ["F"; "L"; "B"; "R"; "F"]
               [edge_d; edge_d; edge_d; edge_d; edge_d] []);
       ("L", Connexion ["F"; "U"; "B"; "D"; "F"]
               [edge_l; edge_d; edge_r; edge_u; edge_l]
               [(edge_d, edge_r); (edge_l, edge_u); (edge_r, edge_d); (edge_u, edge_l)]);
       ("R", Connexion ["F"; "D"; "B"; "U"; "F"]
               [edge_r; edge_d; edge_l; edge_u; edge_r]
               [(edge_d, edge_r); (edge_l, edge_u); (edge_r, edge_d); (edge_u, edge_l)])]
|}.

Definition face_solved (i : nat) (m : grid) : bool := all_equal m (Z.of_nat i).

Definition solvedb (K : nat) (a : list grid) : bool :=
  forallb (fun i => face_solved i (a !!! i)) (seq 0 K).

Definition reward_of (K : nat) (a : list grid) : Z :=
  if solvedb K a then 1%Z else (-1)%Z.

(** A well-formed engine: its attribute [cube] refers to an array of
    shape [(len(colors), dim, dim)] with a positive [dim], whose faces are
    [a]. *)
Definition engine_at (cfg : Config) (self : RubiksCube.t) (w : world) (p : loc)
    (a : list grid) : Prop :=
  RubiksCube.cube self = Some p
  /\ heap w !! p = Some (Arr3 (length (colors cfg)) (RubiksCube.dim self)
                           (RubiksCube.dim self) a)
  /\ wf_cube (length (colors cfg)) (RubiksCube.dim self) a
  /\ 0 < RubiksCube.dim self.

(** The faces after a move, read off the configuration. *)
Definition apply_move (cfg : Config) (act : RubiksAction.Action) (n : nat)
    (a : list grid) : list grid :=
  match circuit_of cfg (RubiksAction.side act) with
  | Some t =>
      turned n (t_inv t) (t_index t) (bool_decide (RubiksAction.direction act = "i"))
        (t_x0 t) (t_x1 t) (t_x2 t) (t_x3 t) a
  | None => a
  end.

Definition move (act : RubiksAction.Action) : RubiksAction.t :=
  {| RubiksAction.action := Some act |}.

Definition inverse_of (act : RubiksAction.Action) : RubiksAction.Action :=
  {| RubiksAction.side := RubiksAction.side act;
     RubiksAction.direction :=
       if bool_decide (RubiksAction.direction act = "i") then "d" else "i" |}.

(** A cube whose 54 cells are all different, an engine that owns it, and
    the world the two live in. *)
Definition numbered : list grid :=
  (fun f => (fun i => (fun j => Z.of_nat (9 * f + 3 * i + j)) <$> seq 0 3) <$> seq 0 3)
    <$> seq 0 6.

Definition w0 : world := World {[ 7 := Arr3 6 3 3 numbered ]} (fun k => k) 0.

Definition engine0 : RubiksCube.t :=
  {| RubiksCube.dim := 3; RubiksCube.verbose := false;
     RubiksCube.counter := 0; RubiksCube.cube := Some 7 |}.

(** Face [i] entirely of colour [i]. *)
Definition solved_cube (K n : nat) : list grid :=
  build K (fun i => replicate n (replicate n (Z.of_nat i))).

Definition keeps (q : loc) (x : ndarray) {A} (m : py A) (post : A -> Prop) : Prop :=
  forall w, heap w !! q = Some x ->
    heap (snd (m w)) !! q = Some x /\ forall a, fst (m w) = Ok a -> post a.

(** Any number of [step]s in a row. *)
Definition run_steps (cfg : Config) (self : RubiksCube.t) (ms : list RubiksAction.t)
    : py RubiksCube.t :=
  foldM (fun s m => r <- RubiksCube.step cfg s m ;; ret (fst r)) self ms.

(** The solved 2 x 2 cube and the same cube after the move ['Fd'], as two
    arrays a caller holds. *)
Definition w_dim2 : world :=
  World (<[0 := Arr3 6 2 2 (solved_cube 6 2)]>
           (<[1 := Arr3 6 2 2
                     (apply_move std_conf
                        {| RubiksAction.side := "F"; RubiksAction.direction := "d" |}
                        2 (solved_cube 6 2))]> ∅))
        (fun k => k) 0.

(** Whether [get_action_from_two_states] recovers the move [code] from
    the solved cube of [dim] 3 and its successor under that move. *)
Definition infers (code : string) : bool :=
  match RubiksAction._load_action std_conf code with
  | Some act =>
      let w := World (<[0 := Arr3 6 3 3 (solved_cube 6 3)]>
                        (<[1 := Arr3 6 3 3 (apply_move std_conf act 3 (solved_cube 6 3))]> ∅))
                     (fun k => k) 0 in
      match fst (RubiksCube.get_action_from_two_states std_conf 0 1 w) with
      | Ok (Some m) => bool_decide (m = move act)
      | _ => false
      end
  | None => false
  end.

Definition counter_of {A} (r : result (RubiksCube.t * A)) : option nat :=
  match r with
  | Ok (self, _) => Some (RubiksCube.counter self)
  | Raise _ => None
  end.

Definition valid_code (cfg : Config) (code : string) : Prop :=
  exists a b, code = String a (String b EmptyString)
    /\ char a ∈ sides cfg /\ char b ∈ directions cfg.

Definition w_bad : world := World {[ 4 := Arr3 6 2 2 (solved_cube 6 2) ]} (fun k => k) 0.

Definition decode_one_hot (a : list (list (list (list Z)))) : list grid :=
  fmap (M := list) (fmap (M := list) (fmap (M := list)
    (fun v => Z.of_nat (argmax v)))) a.

Definition w_hot : world :=
  World {[ 4 := Arr4 6 1 1 6
                  [[[[1; 0; 0; 0; 0; 0]]]; [[[0; 1; 0; 0; 0; 0]]]; [[[0; 0; 1; 0; 0; 0]]];
                   [[[0; 0; 0; 1; 0; 0]]]; [[[0; 0; 0; 0; 1; 0]]]; [[[0; 0; 0; 0; 0; 1]]]]%Z ]}
        (fun k => k) 0.

(** A sequence of move codes played on the faces of a cube of [dim] 3
    under [std_conf]. *)
Definition play (codes : list string) (a : list grid) : list grid :=
  fold_left (fun a code => match RubiksAction._load_action std_conf code with
                           | Some act => apply_move std_conf act 3 a
                           | None => a
                           end) codes a.

(** ** Vocabulary of the further properties *)

(** The position of the last occurrence of a key in a list of keys. *)
Fixpoint last_index (k : string) (l : list string) : option nat :=
  match l with
  | [] => None
  | x :: l' =>
      match last_index k l' with
      | Some j => Some (S j)
      | None => if bool_decide (x = k) then Some 0 else None
      end
  end.

(** There is a face to draw, and every face symbol is one character
    long, so that a face symbol followed by a direction symbol unpacks
    into the two fields of an [Action]. *)
Definition symbols_ok (cfg : Config) : bool :=
  bool_decide (sides cfg ≠ [])
  && forallb (fun s => bool_decide (String.length s = 1)) (sides cfg).

(** The engine with its counter set back, as [shuffle_cube] leaves it
    after each of its moves. *)
Definition zeroed (self : RubiksCube.t) : RubiksCube.t :=
  {| RubiksCube.dim := RubiksCube.dim self;
     RubiksCube.verbose := RubiksCube.verbose self;
     RubiksCube.counter := 0;
     RubiksCube.cube := RubiksCube.cube self |}.

(** A legal move is one the constructor of [RubiksAction] makes from
    some code. *)
Definition legal (cfg : Config) (act : RubiksAction.Action) : Prop :=
  exists code, RubiksAction._load_action cfg code = Some act.

(** The faces after a sequence of moves. *)
Definition moves_on (cfg : Config) (n : nat) (acts : list RubiksAction.Action)
    (a : list grid) : list grid :=
  fold_left (fun a act => apply_move cfg act n a) acts a.

(** Whether the cell [(r, c)] of a face lies on the edge [e]. *)
Definition on_edge (e : edge) (n r c : nat) : bool :=
  match e with
  | edge_r => bool_decide (c = n - 1)
  | edge_l => bool_decide (c = 0)
  | edge_u => bool_decide (r = 0)
  | edge_d => bool_decide (r = n - 1)
  end.

(** The first of the codes whose move leads from the faces [a1] to the
    array [x2], on cubes of [dim] 3. *)
Fixpoint find_move (cfg : Config) (a1 : list grid) (x2 : ndarray) (codes : list string)
    : option RubiksAction.t :=
  match codes with
  | [] => None
  | code :: rest =>
      match RubiksAction._load_action cfg code with
      | Some act =>
          if array_equal (Arr3 (length (colors cfg)) 3 3 (apply_move cfg act 3 a1)) x2
          then Some (move act)
          else find_move cfg a1 x2 rest
      | None => None
      end
  end.

(** Two arrays a caller holds: the solved cube and the cube with
    numbered cells. *)
Definition w_pair : world :=
  World (<[0 := Arr3 6 3 3 (solved_cube 6 3)]> (<[1 := Arr3 6 3 3 numbered]> ∅))
        (fun k => k) 0.

(** Every cell is a colour index. *)
Definition in_range (K : nat) (a : list grid) : Prop :=
  Forall (Forall (Forall (fun z => (0 <= z < Z.of_nat K)%Z))) a.

(** The world in which [engine0] holds the solved cube. *)
Definition w_solved : world :=
  World {[ 7 := Arr3 6 3 3 (solved_cube 6 3) ]} (fun k => k) 0.

(** [np.all(v)] for the value a comparison returns. *)
Definition np_all (v : RubiksCube.pyval) : bool :=
  match v with
  | RubiksCube.PyBool b => b
  | RubiksCube.PyBoolArray _ _ _ a => forallb (forallb (forallb id)) a
  end.

(** The pairs (from, to) of neighbours along which the strips travel:
    the cycle [x0, x1, x2, x3, x0], walked backwards for direction
    ['i']. *)
Definition hops (backwards : bool) (x0 x1 x2 x3 : nat * edge)
    : list ((nat * edge) * (nat * edge)) :=
  if backwards then [(x0, x3); (x3, x2); (x2, x1); (x1, x0)]
  else [(x0, x1); (x1, x2); (x2, x3); (x3, x0)].

(** * Theory *)
(** ** Square grids *)

Lemma map_nth_seq {A} (d : A) (l : list A) :
  (fun j => nth j l d) <$> seq 0 (length l) = l.
Proof.
  apply list_eq; intros i. rewrite list_lookup_fmap.
  destruct (decide (i < length l)) as [Hi|Hi].
  - rewrite lookup_seq_lt by done. simpl.
    destruct (lookup_lt_is_Some_2 l i Hi) as [x Hx].
    rewrite Hx. f_equal. by apply nth_lookup_Some.
  - rewrite lookup_seq_ge by lia. rewrite lookup_ge_None_2 by lia. done.
Qed.

Lemma tab_entry n m : wf_grid n m -> tab n (entry m) = m.
Proof.
  intros [Hlen Hrows]. unfold tab, entry.
  etrans; [|apply (map_nth_seq [] m)]. rewrite Hlen.
  apply list_fmap_ext; intros k ? Hk.
  apply lookup_seq in Hk as [-> Hk]; simpl.
  assert (length (nth k m []) = n) as Hn.
  { rewrite Forall_forall in Hrows. apply Hrows.
    apply list_elem_of_In, nth_In. lia. }
  rewrite <- Hn at 1. apply map_nth_seq.
Qed.

Lemma tab_ext n f g :
  (forall i j, i < n -> j < n -> f i j = g i j) -> tab n f = tab n g.
Proof.
  intros H. unfold tab. apply list_fmap_ext; intros i ? Hi.
  apply lookup_seq in Hi as [-> Hi]; simpl.
  apply list_fmap_ext; intros j ? Hj.
  apply lookup_seq in Hj as [-> Hj]; simpl. simpl. by apply H.
Qed.

Lemma entry_tab n f i j : i < n -> j < n -> entry (tab n f) i j = f i j.
Proof.
  intros Hi Hj. unfold entry, tab.
  rewrite (nth_lookup_Some _ i [] ((fun j => f i j) <$> seq 0 n)).
  - apply nth_lookup_Some. rewrite list_lookup_fmap, lookup_seq_lt by done. done.
  - rewrite list_lookup_fmap, lookup_seq_lt by done. done.
Qed.

Lemma wf_tab n f : wf_grid n (tab n f).
Proof.
  split.
  - unfold tab. by rewrite length_fmap, length_seq.
  - apply Forall_forall. intros row Hrow. unfold tab in Hrow.
    apply list_elem_of_fmap in Hrow as (i & -> & _).
    by rewrite length_fmap, length_seq.
Qed.

Lemma nth_reverse (l : list Z) i :
  i < length l -> nth i (reverse l) 0%Z = nth (length l - S i) l 0%Z.
Proof. intros Hi. by rewrite !nth_lookup, reverse_lookup. Qed.

Lemma wf_grid_row n m i : wf_grid n m -> i < n -> length (nth i m []) = n.
Proof.
  intros [Hlen Hrows] Hi. rewrite Forall_forall in Hrows. apply Hrows.
  apply list_elem_of_In, nth_In. lia.
Qed.

Lemma rot90_1_tab n m :
  wf_grid n m ->
  cells (rot90 (Matrix n n m) 1) = tab n (fun i j => entry m j (n - 1 - i)).
Proof.
  intros Hwf. change (rot90 (Matrix n n m) 1) with (transpose (flip (Matrix n n m) 1)).
  unfold transpose, flip, tab; simpl.
  apply list_fmap_ext; intros i ? Hi. apply lookup_seq in Hi as [-> Hi]; simpl. simpl.
  rewrite <- list_fmap_compose.
  rewrite <- (map_nth_seq [] m) at 1. rewrite <- list_fmap_compose.
  destruct Hwf as [Hlen Hrows]. rewrite Hlen.
  apply list_fmap_ext; intros j ? Hj. apply lookup_seq in Hj as [-> Hj]; simpl. simpl.
  unfold entry. rewrite nth_reverse.
  - rewrite (wf_grid_row n m j) by (done || by split). f_equal. lia.
  - rewrite (wf_grid_row n m j) by (done || by split). done.
Qed.

Lemma rot90_3_tab n m :
  wf_grid n m ->
  cells (rot90 (Matrix n n m) 3) = tab n (fun i j => entry m (n - 1 - j) i).
Proof.
  intros Hwf. change (rot90 (Matrix n n m) 3) with (flip (transpose (Matrix n n m)) 1).
  unfold transpose, flip, tab; simpl.
  rewrite <- list_fmap_compose.
  apply list_fmap_ext; intros i ? Hi. apply lookup_seq in Hi as [-> Hi]; simpl. simpl.
  destruct Hwf as [Hlen Hrows].
  apply list_eq; intros j. rewrite list_lookup_fmap.
  destruct (decide (j < n)) as [Hj|Hj].
  - rewrite reverse_lookup by (by rewrite length_fmap, Hlen).
    rewrite length_fmap, Hlen, list_lookup_fmap, lookup_seq_lt by done. simpl.
    destruct (lookup_lt_is_Some_2 m (n - S j)) as [row Hrow]; [lia|].
    rewrite Hrow. simpl. f_equal. unfold entry.
    replace (n - 1 - j) with (n - S j) by lia.
    by rewrite (nth_lookup_Some _ _ _ _ Hrow).
  - rewrite lookup_seq_ge by lia. simpl.
    apply lookup_ge_None_2. rewrite length_reverse, length_fmap. lia.
Qed.

Lemma rot90_3_1 n m :
  wf_grid n m -> cells (rot90 (Matrix n n (cells (rot90 (Matrix n n m) 1))) 3) = m.
Proof.
  intros Hwf. rewrite (rot90_1_tab n m Hwf), rot90_3_tab by apply wf_tab.
  etrans; [|apply (tab_entry n m Hwf)]. apply tab_ext; intros i j Hi Hj.
  rewrite entry_tab by lia. f_equal. lia.
Qed.

Lemma rot90_1_3 n m :
  wf_grid n m -> cells (rot90 (Matrix n n (cells (rot90 (Matrix n n m) 3))) 1) = m.
Proof.
  intros Hwf. rewrite (rot90_3_tab n m Hwf), rot90_1_tab by apply wf_tab.
  etrans; [|apply (tab_entry n m Hwf)]. apply tab_ext; intros i j Hi Hj.
  rewrite entry_tab by lia. f_equal. lia.
Qed.

Lemma wf_quarter n k m : wf_grid n m -> (k = 1 \/ k = 3) -> wf_grid n (quarter n k m).
Proof.
  intros Hwf [-> | ->]; unfold quarter.
  - rewrite rot90_1_tab by done. apply wf_tab.
  - rewrite rot90_3_tab by done. apply wf_tab.
Qed.

Lemma quarter_1_tab n f :
  quarter n 1 (tab n f) = tab n (fun i j => f j (n - 1 - i)).
Proof.
  unfold quarter. rewrite rot90_1_tab by apply wf_tab.
  apply tab_ext; intros i j Hi Hj. apply entry_tab; lia.
Qed.

Lemma quarter_3_tab n f :
  quarter n 3 (tab n f) = tab n (fun i j => f (n - 1 - j) i).
Proof.
  unfold quarter. rewrite rot90_3_tab by apply wf_tab.
  apply tab_ext; intros i j Hi Hj. apply entry_tab; lia.
Qed.

Lemma quarter_four n k m :
  wf_grid n m -> (k = 1 \/ k = 3) ->
  quarter n k (quarter n k (quarter n k (quarter n k m))) = m.
Proof.
  intros Hwf Hk. rewrite <- (tab_entry n m Hwf).
  destruct Hk as [-> | ->].
  - rewrite !quarter_1_tab. apply tab_ext; intros i j Hi Hj. f_equal; lia.
  - rewrite !quarter_3_tab. apply tab_ext; intros i j Hi Hj. f_equal; lia.
Qed.

(** Quarter turns only move cells about. *)
Lemma concat_cons_split {A} (f : nat -> A) (g : nat -> list A) (l : list nat) :
  concat ((fun j => f j :: g j) <$> l) ≡ₚ (f <$> l) ++ concat (g <$> l).
Proof.
  induction l as [|x l IH]; simpl; [done|].
  constructor. rewrite IH, !app_assoc.
  apply Permutation_app_tail, Permutation_app_comm.
Qed.

Lemma concat_nil_rows (l : list nat) :
  concat ((fun _ => @nil Z) <$> l) = [].
Proof. induction l; simpl; auto. Qed.

Lemma transpose_perm nc (m : grid) :
  Forall (fun row => length row = nc) m ->
  concat ((fun j => (fun row => nth j row 0%Z) <$> m) <$> seq 0 nc) ≡ₚ concat m.
Proof.
  induction m as [|row m IH]; intros Hrows; simpl.
  - by rewrite concat_nil_rows.
  - apply Forall_cons in Hrows as [Hrow Hrows].
    etrans; [apply (concat_cons_split (fun j => nth j row 0%Z)
               (fun j => (fun row => nth j row 0%Z) <$> m))|].
    rewrite <- Hrow at 1. rewrite map_nth_seq. by rewrite IH.
Qed.

Lemma concat_reverse_rows (m : grid) : concat (reverse <$> m) ≡ₚ concat m.
Proof.
  induction m as [|row m IH]; simpl; [done|].
  by rewrite IH, reverse_Permutation.
Qed.

Lemma quarter_perm n k m :
  wf_grid n m -> (k = 1 \/ k = 3) -> concat (quarter n k m) ≡ₚ concat m.
Proof.
  intros [Hlen Hrows] [-> | ->]; unfold quarter.
  - change (rot90 (Matrix n n m) 1) with (transpose (flip (Matrix n n m) 1)).
    unfold transpose, flip; simpl.
    rewrite transpose_perm.
    + apply concat_reverse_rows.
    + apply Forall_fmap. eapply Forall_impl; [exact Hrows|].
      intros row Hrow; simpl. by rewrite length_reverse.
  - change (rot90 (Matrix n n m) 3) with (flip (transpose (Matrix n n m)) 1).
    unfold transpose, flip; simpl.
    rewrite concat_reverse_rows. by apply transpose_perm.
Qed.

(** ** Edge strips of a grid *)

Section Strips.
Context (n : nat) (m : grid) (Hwf : wf_grid n m).

Lemma length_read_col j : length (read_col j m) = n.
Proof. unfold read_col. rewrite length_fmap. apply Hwf. Qed.

Lemma length_read_row i : i < n -> length (read_row i m) = n.
Proof. intros Hi. unfold read_row. by apply wf_grid_row. Qed.

Lemma wf_write_col j v : length v = n -> wf_grid n (write_col j m v).
Proof.
  destruct Hwf as [Hlen Hrows]. intros Hv. split.
  - unfold write_col. rewrite length_zip_with. lia.
  - apply Forall_forall. intros row Hrow.
    apply list_elem_of_lookup in Hrow as [i Hi].
    unfold write_col in Hi. rewrite lookup_zip_with in Hi.
    destruct (m !! i) as [row0|] eqn:E; [|done]. simpl in Hi.
    destruct (v !! i) as [x|]; [|done]. simpl in Hi.
    injection Hi as <-. rewrite length_insert.
    rewrite Forall_forall in Hrows. apply Hrows.
    apply list_elem_of_lookup. eauto.
Qed.

Lemma wf_write_row i v : length v = n -> wf_grid n (write_row i m v).
Proof.
  destruct Hwf as [Hlen Hrows]. intros Hv. split.
  - unfold write_row. by rewrite length_insert.
  - unfold write_row. apply Forall_insert; done.
Qed.
End Strips.

Lemma read_write_col j (m : grid) (v : strip) :
  length v = length m -> Forall (fun row => j < length row) m ->
  read_col j (write_col j m v) = v.
Proof.
  revert v. induction m as [|row m IH]; intros [|x v] Hlen Hrows; simpl in *; try done.
  apply Forall_cons in Hrows as [Hrow Hrows].
  unfold read_col, write_col in *. simpl. f_equal.
  - apply nth_lookup_Some. by apply list_lookup_insert_eq.
  - apply IH; [lia|done].
Qed.

Lemma write_write_col j (m : grid) (v v' : strip) :
  length v = length m ->
  write_col j (write_col j m v) v' = write_col j m v'.
Proof.
  revert v v'. induction m as [|row m IH]; intros [|x v] [|x' v'] Hlen;
    simpl in *; try done.
  unfold write_col in *. simpl. f_equal.
  - apply list_insert_insert_eq.
  - apply IH. lia.
Qed.

Lemma write_read_col j (m : grid) :
  Forall (fun row => j < length row) m -> write_col j m (read_col j m) = m.
Proof.
  induction m as [|row m IH]; intros Hrows; simpl; [done|].
  apply Forall_cons in Hrows as [Hrow Hrows].
  unfold write_col, read_col in *. simpl. f_equal.
  - apply list_insert_id. rewrite nth_lookup.
    destruct (lookup_lt_is_Some_2 row j Hrow) as [x ->]. done.
  - by apply IH.
Qed.

Lemma insert_swap_perm (row : list Z) j x :
  j < length row -> <[j := x]> row ++ [nth j row 0%Z] ≡ₚ row ++ [x].
Proof.
  revert j. induction row as [|y row IH]; intros [|j] Hj; simpl in *; try lia.
  - apply perm_swap || (rewrite !(Permutation_app_comm _ [_]); simpl; apply perm_swap).
  - constructor. apply IH. lia.
Qed.

Lemma write_col_perm j (m : grid) (v : strip) :
  length v = length m -> Forall (fun row => j < length row) m ->
  concat (write_col j m v) ++ read_col j m ≡ₚ concat m ++ v.
Proof.
  revert v. induction m as [|row m IH]; intros [|x v] Hlen Hrows; simpl in *; try done.
  apply Forall_cons in Hrows as [Hrow Hrows].
  unfold write_col, read_col in *. simpl.
  specialize (IH v ltac:(lia) Hrows).
  etrans.
  { rewrite <- app_assoc. apply Permutation_app_head.
    symmetry. apply Permutation_middle. }
  etrans.
  2:{ rewrite <- app_assoc. apply Permutation_app_head. apply Permutation_middle. }
  change (<[j:=x]> row ++ [nth j row 0%Z]
            ++ (concat (zip_with (fun row x => <[j:=x]> row) m v)
                  ++ ((fun row => nth j row 0%Z) <$> m))
          ≡ₚ row ++ [x] ++ (concat m ++ v)).
  rewrite !(app_assoc _ [_]).
  apply Permutation_app; [by apply insert_swap_perm | exact IH].
Qed.

Lemma write_row_perm i (m : grid) (v : strip) :
  i < length m ->
  concat (write_row i m v) ++ read_row i m ≡ₚ concat m ++ v.
Proof.
  revert i. unfold write_row, read_row.
  induction m as [|row m IH]; intros [|i] Hi; simpl in *; try lia.
  - rewrite (Permutation_app_comm (v ++ concat m) row), <- !app_assoc.
    apply Permutation_app_head, Permutation_app_comm.
  - rewrite <- !app_assoc. apply Permutation_app_head. apply IH. lia.
Qed.

Section Edges.
Context (n : nat) (Hn : 0 < n).

Lemma wf_grid_cols m j : wf_grid n m -> j < n -> Forall (fun row => j < length row) m.
Proof.
  intros [_ Hrows] Hj. eapply Forall_impl; [exact Hrows|].
  intros row Hrow; simpl in *. lia.
Qed.

Lemma length_get_edge e m : wf_grid n m -> length (get_edge e n m) = n.
Proof.
  intros Hwf. destruct e; simpl;
    first [by apply length_read_col | apply length_read_row; [done|lia]].
Qed.

Lemma wf_put_edge e m v : wf_grid n m -> length v = n -> wf_grid n (put_edge e n m v).
Proof.
  intros Hwf Hv. destruct e; simpl;
    first [by apply wf_write_col | by apply wf_write_row].
Qed.

Lemma get_put_edge e m v :
  wf_grid n m -> length v = n -> get_edge e n (put_edge e n m v) = v.
Proof.
  intros Hwf Hv. pose proof Hwf as [Hlen _]. destruct e; simpl.
  - apply read_write_col; [lia | apply wf_grid_cols; [done|lia]].
  - apply read_write_col; [lia | by apply wf_grid_cols].
  - unfold read_row, write_row. apply nth_lookup_Some.
    apply list_lookup_insert_eq. lia.
  - unfold read_row, write_row. apply nth_lookup_Some.
    apply list_lookup_insert_eq. lia.
Qed.

Lemma put_put_edge e m v v' :
  wf_grid n m -> length v = n ->
  put_edge e n (put_edge e n m v) v' = put_edge e n m v'.
Proof.
  intros [Hlen _] Hv. destruct e; simpl.
  - apply write_write_col. lia.
  - apply write_write_col. lia.
  - apply list_insert_insert_eq.
  - apply list_insert_insert_eq.
Qed.

Lemma put_get_edge e m : wf_grid n m -> put_edge e n m (get_edge e n m) = m.
Proof.
  intros Hwf. pose proof Hwf as [Hlen _]. destruct e; simpl.
  - apply write_read_col, wf_grid_cols; [done|lia].
  - by apply write_read_col, wf_grid_cols.
  - unfold write_row, read_row. apply list_insert_id. rewrite nth_lookup.
    destruct (lookup_lt_is_Some_2 m 0) as [x ->]; [lia|done].
  - unfold write_row, read_row. apply list_insert_id. rewrite nth_lookup.
    destruct (lookup_lt_is_Some_2 m (n - 1)) as [x ->]; [lia|done].
Qed.

Lemma put_edge_perm e m v :
  wf_grid n m -> length v = n ->
  concat (put_edge e n m v) ++ get_edge e n m ≡ₚ concat m ++ v.
Proof.
  intros Hwf Hv. pose proof Hwf as [Hlen _]. destruct e; simpl.
  - apply write_col_perm; [lia | apply wf_grid_cols; [done|lia]].
  - apply write_col_perm; [lia | by apply wf_grid_cols].
  - apply write_row_perm. lia.
  - apply write_row_perm. lia.
Qed.
End Edges.

(** ** The turn of a face as a function of the cube *)

Lemma length_rv b s : length (rv b s) = length s.
Proof. destruct b; simpl; [apply length_reverse | done]. Qed.

Lemma rv_rv b1 b2 s : rv b1 (rv b2 s) = rv (xorb b1 b2) s.
Proof. destruct b1, b2; simpl; auto using reverse_involutive. Qed.

Lemma rv_perm b s : rv b s ≡ₚ s.
Proof. destruct b; simpl; [apply reverse_Permutation | done]. Qed.

(** ** Running the primitives *)

Lemma heap_wstore w p x : heap (wstore w p x) !! p = Some x.
Proof. simpl. apply lookup_insert_eq. Qed.

Lemma heap_wstore_ne w p q x : p ≠ q -> heap (wstore w p x) !! q = heap w !! q.
Proof. intros. simpl. by apply lookup_insert_ne. Qed.

Lemma wstore_wstore w p x y : wstore (wstore w p x) p y = wstore w p y.
Proof. unfold wstore; simpl. by rewrite insert_insert_eq. Qed.

Lemma wstore_same w p x : heap w !! p = Some x -> wstore w p x = w.
Proof. intros H. destruct w as [h r d]; unfold wstore; simpl in *. by rewrite insert_id. Qed.

Lemma bind_ok {A B} (m : py A) (f : A -> py B) w a w' :
  m w = (Ok a, w') -> bind m f w = f a w'.
Proof. intros H. unfold bind. by rewrite H. Qed.

Lemma bind_raise {A B} (m : py A) (f : A -> py B) w e w' :
  m w = (Raise e, w') -> bind m f w = (Raise e, w').
Proof. intros H. unfold bind. by rewrite H. Qed.

Lemma bind_ret {A B} (a : A) (f : A -> py B) w : bind (ret a) f w = f a w.
Proof. reflexivity. Qed.

Lemma bind_bind {A B C} (m : py A) (f : A -> py B) (g : B -> py C) w :
  bind (bind m f) g w = bind m (fun x => bind (f x) g) w.
Proof. unfold bind. destruct (m w) as [[x|e] w']; reflexivity. Qed.

Ltac norm_bind := repeat (rewrite bind_bind || rewrite bind_ret).

Lemma load_ok w p x : heap w !! p = Some x -> load p w = (Ok x, w).
Proof. intros H. unfold load. by rewrite H. Qed.

Lemma norm_index_last n : 0 < n -> norm_index (-1) n = Some (n - 1).
Proof.
  intros Hn. unfold norm_index.
  rewrite bool_decide_eq_false_2 by lia. rewrite bool_decide_eq_true_2 by lia.
  f_equal. lia.
Qed.

Lemma norm_index_first n : 0 < n -> norm_index 0 n = Some 0.
Proof. intros Hn. unfold norm_index. by rewrite bool_decide_eq_true_2 by lia. Qed.

Section Primitives.
Context (w : world) (p : loc) (K r c : nat) (a : list grid).
Context (Hp : heap w !! p = Some (Arr3 K r c a)).

Lemma getitem_ok i : i < K -> getitem p i w = (Ok (View p i), w).
Proof.
  intros Hi. unfold getitem. rewrite (bind_ok _ _ _ _ _ (load_ok _ _ _ Hp)).
  by rewrite bool_decide_eq_true_2.
Qed.

Lemma view_value_ok f m :
  a !! f = Some m -> view_value (View p f) w = (Ok (Matrix r c m), w).
Proof.
  intros Hm. unfold view_value; simpl.
  rewrite (bind_ok _ _ _ _ _ (load_ok _ _ _ Hp)). by rewrite Hm.
Qed.

Lemma setitem_ok i g :
  i < K -> nrows g = r -> ncols g = c ->
  setitem p i g w = (Ok tt, wstore w p (Arr3 K r c (<[i := cells g]> a))).
Proof.
  intros Hi Hr Hc. unfold setitem.
  rewrite (bind_ok _ _ _ _ _ (load_ok _ _ _ Hp)).
  rewrite bool_decide_eq_true_2 by done. by rewrite bool_decide_eq_true_2.
Qed.
End Primitives.

Section EdgePrimitives.
Context (w : world) (p : loc) (K n : nat) (a : list grid).
Context (Hp : heap w !! p = Some (Arr3 K n n a)) (Hn : 0 < n).

Lemma view_getitem_edge f m e :
  a !! f = Some m ->
  view_getitem (View p f) (RubiksCube._edge_to_slice e) w = (Ok (get_edge e n m), w).
Proof using Hp Hn.
  intros Hm. unfold view_getitem; simpl.
  rewrite (bind_ok _ _ _ _ _ (load_ok _ _ _ Hp)). unfold bind. rewrite Hm; simpl.
  destruct e; simpl;
    rewrite ?norm_index_last, ?norm_index_first by done; done.
Qed.

Lemma view_setitem_edge f m e x :
  a !! f = Some m -> length x = n ->
  view_setitem (View p f) (RubiksCube._edge_to_slice e) x w
  = (Ok tt, wstore w p (Arr3 K n n (<[f := put_edge e n m x]> a))).
Proof using Hp Hn.
  intros Hm Hx. unfold view_setitem; simpl.
  rewrite (bind_ok _ _ _ _ _ (load_ok _ _ _ Hp)). unfold bind. rewrite Hm; simpl.
  unfold broadcast_to. rewrite bool_decide_eq_true_2 by done.
  destruct e; simpl;
    rewrite ?norm_index_last, ?norm_index_first by done; done.
Qed.
End EdgePrimitives.

Lemma wf_cube_lookup K n (a : list grid) j :
  wf_cube K n a -> j < K ->
  exists m, a !! j = Some m /\ a !!! j = m /\ wf_grid n m.
Proof.
  intros [Hlen Hall] Hj.
  destruct (lookup_lt_is_Some_2 a j) as [m Hm]; [lia|].
  exists m. split; [done|]. split.
  - by apply list_lookup_total_correct.
  - rewrite Forall_forall in Hall. apply Hall. apply list_elem_of_lookup. eauto.
Qed.

Lemma wf_cube_insert K n (a : list grid) j m :
  wf_cube K n a -> wf_grid n m -> wf_cube K n (<[j := m]> a).
Proof.
  intros [Hlen Hall] Hm. split.
  - by rewrite length_insert.
  - by apply Forall_insert.
Qed.

Section Translate.
Context (K n : nat) (Hn : 0 < n) (inv : list (edge * edge)).

Lemma wf_translate xa xb input a :
  wf_cube K n a -> fst xa < K -> fst xb < K -> input_ok n input ->
  wf_cube K n (fst (translate n inv xa xb input a))
  /\ length (snd (translate n inv xa xb input a)) = n.
Proof using Hn.
  intros Hwf Ha Hb Hin. unfold translate; simpl.
  destruct (wf_cube_lookup K n a _ Hwf Ha) as (ma & _ & -> & Hma).
  destruct (wf_cube_lookup K n a _ Hwf Hb) as (mb & _ & -> & Hmb).
  split.
  - apply wf_cube_insert; [done|]. apply wf_put_edge; [done..|].
    rewrite length_rv. destruct input; simpl in *; [done|].
    by apply length_get_edge.
  - by apply length_get_edge.
Qed.

Lemma _edge_translation_ok cfg side cn w p a xa xb input :
  connexions cfg !! side = Some cn -> c_inversions cn = inv ->
  heap w !! p = Some (Arr3 K n n a) -> wf_cube K n a ->
  fst xa < K -> fst xb < K -> input_ok n input ->
  RubiksCube._edge_translation cfg side (View p (fst xa)) (View p (fst xb))
    (snd xa) (snd xb) true input w
  = (Ok (Some (snd (translate n inv xa xb input a))),
     wstore w p (Arr3 K n n (fst (translate n inv xa xb input a)))).
Proof using Hn.
  intros Hcn Hinv Hp Hwf Ha Hb Hin. unfold RubiksCube._edge_translation.
  destruct (wf_cube_lookup K n a _ Hwf Ha) as (ma & Hla & Hta & Hma).
  destruct (wf_cube_lookup K n a _ Hwf Hb) as (mb & Hlb & Htb & Hmb).
  set (sa := match input with
             | None => get_edge (snd xa) n ma
             | Some x => x
             end).
  assert (length sa = n) as Hsa.
  { subst sa. destruct input; simpl in *; [done|]. by apply length_get_edge. }
  rewrite (bind_ok _ _ w sa w).
  2:{ subst sa. destruct input; [done|].
      by apply (view_getitem_edge w p K n a Hp Hn). }
  unfold bind at 1. rewrite Hcn; simpl. rewrite Hinv.
  rewrite (bind_ok _ _ _ _ _ (view_getitem_edge w p K n a Hp Hn _ _ _ Hlb)).
  rewrite (bind_ok _ _ w tt
             (wstore w p (Arr3 K n n
                (<[fst xb := put_edge (snd xb) n mb
                               (rv (inverted inv (snd xa) (snd xb)) sa)]> a)))).
  2:{ apply (view_setitem_edge w p K n a Hp Hn); [done|].
      fold (inverted inv (snd xa) (snd xb)).
      fold (rv (inverted inv (snd xa) (snd xb)) sa). by rewrite length_rv. }
  unfold ret, translate; simpl. rewrite Hta, Htb. subst sa. done.
Qed.
End Translate.

(** ** Running [_rotate] *)

Lemma wf_cycle4 K n inv x0 x1 x2 x3 a :
  0 < n -> wf_cube K n a ->
  fst x0 < K -> fst x1 < K -> fst x2 < K -> fst x3 < K ->
  wf_cube K n (cycle4 n inv x0 x1 x2 x3 a).
Proof.
  intros Hn Hwf H0 H1 H2 H3. unfold cycle4.
  destruct (translate n inv x0 x1 None a) as [a1 s1] eqn:E1.
  destruct (wf_translate K n Hn inv x0 x1 None a Hwf H0 H1 I) as [Hw1 Hs1].
  rewrite E1 in Hw1, Hs1; simpl in Hw1, Hs1.
  destruct (translate n inv x1 x2 (Some s1) a1) as [a2 s2] eqn:E2.
  destruct (wf_translate K n Hn inv x1 x2 (Some s1) a1 Hw1 H1 H2 Hs1) as [Hw2 Hs2].
  rewrite E2 in Hw2, Hs2; simpl in Hw2, Hs2.
  destruct (translate n inv x2 x3 (Some s2) a2) as [a3 s3] eqn:E3.
  destruct (wf_translate K n Hn inv x2 x3 (Some s2) a2 Hw2 H2 H3 Hs2) as [Hw3 Hs3].
  rewrite E3 in Hw3, Hs3; simpl in Hw3, Hs3.
  by apply wf_translate.
Qed.

Lemma cycle4_run cfg side cn K n inv x0 x1 x2 x3 w p a :
  0 < n ->
  connexions cfg !! side = Some cn -> c_inversions cn = inv ->
  heap w !! p = Some (Arr3 K n n a) -> wf_cube K n a ->
  fst x0 < K -> fst x1 < K -> fst x2 < K -> fst x3 < K ->
  let mats := [View p (fst x0); View p (fst x1); View p (fst x2); View p (fst x3);
               View p (fst x0)] in
  let edges := [snd x0; snd x1; snd x2; snd x3; snd x0] in
  exists last,
    foldM
      (fun previous_array idx =>
         a <- lift IndexError (mats !! idx) ;;
         b <- lift IndexError (mats !! (idx + 1)) ;;
         ea <- lift IndexError (edges !! idx) ;;
         eb <- lift IndexError (edges !! (idx + 1)) ;;
         RubiksCube._edge_translation cfg side a b ea eb true previous_array)
      None (seq 0 4) w
    = (Ok last, wstore w p (Arr3 K n n (cycle4 n inv x0 x1 x2 x3 a))).
Proof.
  intros Hn Hcn Hinv Hp Hwf H0 H1 H2 H3 mats edges. subst mats edges.
  unfold cycle4.
  destruct (translate n inv x0 x1 None a) as [a1 s1] eqn:E1.
  destruct (wf_translate K n Hn inv x0 x1 None a Hwf H0 H1 I) as [Hw1 Hs1].
  rewrite E1 in Hw1, Hs1; simpl in Hw1, Hs1.
  destruct (translate n inv x1 x2 (Some s1) a1) as [a2 s2] eqn:E2.
  destruct (wf_translate K n Hn inv x1 x2 (Some s1) a1 Hw1 H1 H2 Hs1) as [Hw2 Hs2].
  rewrite E2 in Hw2, Hs2; simpl in Hw2, Hs2.
  destruct (translate n inv x2 x3 (Some s2) a2) as [a3 s3] eqn:E3.
  destruct (wf_translate K n Hn inv x2 x3 (Some s2) a2 Hw2 H2 H3 Hs2) as [Hw3 Hs3].
  rewrite E3 in Hw3, Hs3; simpl in Hw3, Hs3.
  eexists. cbn [foldM seq lookup list_lookup Nat.add lift]. norm_bind.
  rewrite (bind_ok _ _ _ _ _
             (_edge_translation_ok K n Hn inv cfg side cn w p a x0 x1 None
                Hcn Hinv Hp Hwf H0 H1 I)).
  rewrite E1; simpl fst; simpl snd. norm_bind.
  rewrite (bind_ok _ _ _ _ _
             (_edge_translation_ok K n Hn inv cfg side cn _ p a1 x1 x2 (Some s1)
                Hcn Hinv (heap_wstore _ _ _) Hw1 H1 H2 Hs1)).
  rewrite E2; simpl fst; simpl snd. rewrite wstore_wstore. norm_bind.
  rewrite (bind_ok _ _ _ _ _
             (_edge_translation_ok K n Hn inv cfg side cn _ p a2 x2 x3 (Some s2)
                Hcn Hinv (heap_wstore _ _ _) Hw2 H2 H3 Hs2)).
  rewrite E3; simpl fst; simpl snd. rewrite wstore_wstore. norm_bind.
  rewrite (bind_ok _ _ _ _ _
             (_edge_translation_ok K n Hn inv cfg side cn _ p a3 x3 x0 (Some s3)
                Hcn Hinv (heap_wstore _ _ _) Hw3 H3 H0 Hs3)).
  rewrite wstore_wstore. reflexivity.
Qed.

Lemma _rotate_ok cfg K n self act w p a i x0 x1 x2 x3 inv :
  0 < n ->
  RubiksCube.cube self = Some p ->
  heap w !! p = Some (Arr3 K n n a) -> wf_cube K n a ->
  table_entry cfg K (RubiksAction.side act) i x0 x1 x2 x3 inv ->
  (RubiksAction.direction act = "d" \/ RubiksAction.direction act = "i") ->
  RubiksCube._rotate cfg self act w
  = (Ok (bump self),
     wstore w p (Arr3 K n n
       (turned n inv i (bool_decide (RubiksAction.direction act = "i"))
          x0 x1 x2 x3 a))).
Proof.
  intros Hn Hcube Hp Hwf [Hi HiK (s0 & s1 & s2 & s3 & Hcn & Hs0 & Hs1 & Hs2 & Hs3)
                           (H0 & H1 & H2 & H3) Hnd] Hdir.
  unfold RubiksCube._rotate. rewrite Hcube, Hi, Hcn.
  cbn [lift c_sides c_edges mapM]. norm_bind.
  rewrite (bind_ok _ _ _ _ _ (getitem_ok w p K n n a Hp i HiK)). norm_bind.
  simpl c_sides. simpl c_edges. cbn [mapM]. norm_bind.
  rewrite Hs0, Hs1, Hs2, Hs3. cbn [lift]. norm_bind.
  rewrite (bind_ok _ _ _ _ _ (getitem_ok w p K n n a Hp _ H0)). norm_bind.
  rewrite (bind_ok _ _ _ _ _ (getitem_ok w p K n n a Hp _ H1)). norm_bind.
  rewrite (bind_ok _ _ _ _ _ (getitem_ok w p K n n a Hp _ H2)). norm_bind.
  rewrite (bind_ok _ _ _ _ _ (getitem_ok w p K n n a Hp _ H3)). norm_bind.
  rewrite (bind_ok _ _ _ _ _ (getitem_ok w p K n n a Hp _ H0)). norm_bind.
  destruct (wf_cube_lookup K n a i Hwf HiK) as (m & Hm & Htm & Hwm).
  rewrite (bind_ok _ _ _ _ _ (view_value_ok w p K n n a Hp i m Hm)).
  unfold turned. rewrite Htm.
  destruct Hdir as [Hd | Hd]; rewrite Hd.
  - replace (bool_decide ("d" = "i")) with false by done.
    pose proof (wf_cube_insert K n a i _ Hwf (wf_quarter n 1 m Hwm (or_introl eq_refl)))
      as Hwf0.
    unfold RubiksCube._rotate_helper. simpl lift. norm_bind.
    rewrite (bind_ok _ _ _ _ _
               (setitem_ok w p K n n a Hp i (rot90 (Matrix n n m) 1) HiK eq_refl eq_refl)).
    destruct (cycle4_run cfg (RubiksAction.side act) _ K n inv x0 x1 x2 x3
                (wstore w p (Arr3 K n n (<[i := quarter n 1 m]> a))) p _
                Hn Hcn eq_refl (heap_wstore _ _ _) Hwf0 H0 H1 H2 H3) as [last Hrun].
    etrans; [apply (bind_ok _ _ _ _ _ Hrun)|].
    rewrite wstore_wstore. unfold ret, bump. by rewrite Hcube.
  - replace (bool_decide ("i" = "i")) with true by done.
    pose proof (wf_cube_insert K n a i _ Hwf (wf_quarter n 3 m Hwm (or_intror eq_refl)))
      as Hwf0.
    unfold RubiksCube._rotate_helper. simpl lift. norm_bind.
    rewrite (bind_ok _ _ _ _ _
               (setitem_ok w p K n n a Hp i (rot90 (Matrix n n m) 3) HiK eq_refl eq_refl)).
    destruct (cycle4_run cfg (RubiksAction.side act) _ K n inv x0 x3 x2 x1
                (wstore w p (Arr3 K n n (<[i := quarter n 3 m]> a))) p _
                Hn Hcn eq_refl (heap_wstore _ _ _) Hwf0 H0 H3 H2 H1) as [last Hrun].
    etrans; [apply (bind_ok _ _ _ _ _ Hrun)|].
    rewrite wstore_wstore. unfold ret, bump. by rewrite Hcube.
Qed.

(** ** The turn, face by face *)

Lemma length_build K F : length (build K F) = K.
Proof. unfold build. by rewrite length_fmap, length_seq. Qed.

Lemma build_lookup K F j : j < K -> build K F !!! j = F j.
Proof.
  intros Hj. apply list_lookup_total_correct. unfold build.
  by rewrite list_lookup_fmap, lookup_seq_lt.
Qed.

Lemma build_ext K F G : (forall j, j < K -> F j = G j) -> build K F = build K G.
Proof.
  intros H. unfold build. apply list_fmap_ext; intros j ? Hj.
  apply lookup_seq in Hj as [-> Hj]. by apply H.
Qed.

Lemma build_insert K F j g : <[j := g]> (build K F) = build K (upd F j g).
Proof.
  apply list_eq; intros j'. unfold build, upd.
  rewrite list_lookup_insert, !list_lookup_fmap, length_fmap, length_seq.
  destruct (decide (j' < K)) as [Hj'|Hj'].
  - rewrite lookup_seq_lt by done. simpl.
    repeat case_decide; subst; try done; lia || (exfalso; naive_solver lia).
  - rewrite lookup_seq_ge by lia. simpl. case_decide; [lia|done].
Qed.

Lemma build_self K (a : list grid) : length a = K -> build K (fun j => a !!! j) = a.
Proof.
  intros Hlen. apply list_eq; intros j. unfold build. rewrite list_lookup_fmap.
  destruct (decide (j < K)) as [Hj|Hj].
  - rewrite lookup_seq_lt by done. simpl.
    destruct (lookup_lt_is_Some_2 a j) as [m Hm]; [lia|].
    by rewrite Hm, (list_lookup_total_correct _ _ _ Hm).
  - rewrite lookup_seq_ge by lia. simpl. symmetry. apply lookup_ge_None_2. lia.
Qed.

Lemma NoDup4 (a b c d : nat) :
  NoDup [a; b; c; d] -> a ≠ b /\ a ≠ c /\ a ≠ d /\ b ≠ c /\ b ≠ d /\ c ≠ d.
Proof.
  intros H. rewrite !NoDup_cons, !not_elem_of_cons in H. tauto.
Qed.

Lemma NoDup5 (i a b c d : nat) :
  NoDup [i; a; b; c; d] ->
  (i ≠ a /\ i ≠ b /\ i ≠ c /\ i ≠ d) /\ NoDup [a; b; c; d].
Proof.
  intros H. apply NoDup_cons in H as [H1 H2].
  rewrite !not_elem_of_cons in H1. tauto.
Qed.

Lemma cycle4_build K n inv y0 y1 y2 y3 F :
  fst y0 < K -> fst y1 < K -> fst y2 < K -> fst y3 < K ->
  fst y0 ≠ fst y1 /\ fst y0 ≠ fst y2 /\ fst y0 ≠ fst y3
  /\ fst y1 ≠ fst y2 /\ fst y1 ≠ fst y3 /\ fst y2 ≠ fst y3 ->
  cycle4 n inv y0 y1 y2 y3 (build K F) = build K (cycled n inv y0 y1 y2 y3 F).
Proof.
  intros H0 H1 H2 H3 (? & ? & ? & ? & ? & ?).
  unfold cycle4, translate; simpl.
  rewrite !build_lookup by done. rewrite build_insert, !build_lookup by done.
  rewrite build_insert, !build_lookup by done.
  rewrite build_insert, !build_lookup by done.
  rewrite build_insert.
  apply build_ext; intros j Hj. unfold upd, cycled.
  repeat case_decide; subst; try done; congruence.
Qed.

Section Turn.
Context (K n : nat) (Hn : 0 < n) (inv : list (edge * edge)).
Context (i : nat) (x0 x1 x2 x3 : nat * edge).
Context (Hi : i < K) (H0 : fst x0 < K) (H1 : fst x1 < K)
        (H2 : fst x2 < K) (H3 : fst x3 < K).
Context (Hnd : NoDup [i; fst x0; fst x1; fst x2; fst x3]).

Let fl (xa xb : nat * edge) : bool := inverted inv (snd xa) (snd xb).

Lemma turned_build backwards F :
  turned n inv i backwards x0 x1 x2 x3 (build K F)
  = build K
      (if backwards
       then cycled n inv x0 x3 x2 x1 (upd F i (quarter n 3 (F i)))
       else cycled n inv x0 x1 x2 x3 (upd F i (quarter n 1 (F i)))).
Proof using Hi H0 H1 H2 H3 Hnd.
  apply NoDup5 in Hnd as [_ Hnd']. apply NoDup4 in Hnd' as (? & ? & ? & ? & ? & ?).
  unfold turned. rewrite build_lookup, build_insert by done.
  destruct backwards; apply cycle4_build; try done; repeat split; congruence.
Qed.

Context (A : nat -> grid).
Context (HA0 : wf_grid n (A (fst x0))) (HA1 : wf_grid n (A (fst x1)))
        (HA2 : wf_grid n (A (fst x2))) (HA3 : wf_grid n (A (fst x3))).

Ltac strips :=
  rewrite ?get_put_edge, ?put_put_edge by (done || by rewrite ?length_rv).

Lemma turned_dressed_fwd rho t0 t1 t2 t3 :
  length t0 = n -> length t1 = n -> length t2 = n -> length t3 = n ->
  turned n inv i false x0 x1 x2 x3 (build K (dressed n i x0 x1 x2 x3 A rho t0 t1 t2 t3))
  = build K (dressed n i x0 x1 x2 x3 A (quarter n 1 rho)
               (rv (fl x3 x0) t3) (rv (fl x0 x1) t0)
               (rv (fl x1 x2) t1) (rv (fl x2 x3) t2)).
Proof using All.
  intros L0 L1 L2 L3. rewrite turned_build.
  apply NoDup5 in Hnd as [(? & ? & ? & ?) Hnd'].
  apply NoDup4 in Hnd' as (? & ? & ? & ? & ? & ?).
  apply build_ext; intros j Hj. unfold cycled, upd, dressed, fl.
  repeat case_decide; subst; try done; try congruence; by strips.
Qed.

Lemma turned_dressed_bwd rho t0 t1 t2 t3 :
  length t0 = n -> length t1 = n -> length t2 = n -> length t3 = n ->
  turned n inv i true x0 x1 x2 x3 (build K (dressed n i x0 x1 x2 x3 A rho t0 t1 t2 t3))
  = build K (dressed n i x0 x1 x2 x3 A (quarter n 3 rho)
               (rv (fl x1 x0) t1) (rv (fl x2 x1) t2)
               (rv (fl x3 x2) t3) (rv (fl x0 x3) t0)).
Proof using All.
  intros L0 L1 L2 L3. rewrite turned_build.
  apply NoDup5 in Hnd as [(? & ? & ? & ?) Hnd'].
  apply NoDup4 in Hnd' as (? & ? & ? & ? & ? & ?).
  apply build_ext; intros j Hj. unfold cycled, upd, dressed, fl.
  repeat case_decide; subst; try done; try congruence; by strips.
Qed.
End Turn.

Section TurnLaws.
Context (K n : nat) (Hn : 0 < n) (inv : list (edge * edge)).
Context (i : nat) (x0 x1 x2 x3 : nat * edge).
Context (Hi : i < K) (H0 : fst x0 < K) (H1 : fst x1 < K)
        (H2 : fst x2 < K) (H3 : fst x3 < K).
Context (Hnd : NoDup [i; fst x0; fst x1; fst x2; fst x3]).
Context (a : list grid) (Hwf : wf_cube K n a).

Let A : nat -> grid := fun j => a !!! j.

Lemma wf_face j : j < K -> wf_grid n (A j).
Proof using Hwf.
  intros Hj. destruct (wf_cube_lookup K n a j Hwf Hj) as (m & _ & Hm & Hw).
  unfold A. by rewrite Hm.
Qed.

Lemma dressed_self :
  build K (dressed n i x0 x1 x2 x3 A (A i)
             (get_edge (snd x0) n (A (fst x0))) (get_edge (snd x1) n (A (fst x1)))
             (get_edge (snd x2) n (A (fst x2))) (get_edge (snd x3) n (A (fst x3))))
  = a.
Proof using Hn Hwf H0 H1 H2 H3.
  etrans; [|apply (build_self K a), Hwf].
  apply build_ext; intros j Hj. unfold dressed.
  repeat case_decide; subst; try done;
    by rewrite put_get_edge by (done || by apply wf_face).
Qed.

Lemma wf_turned backwards :
  wf_cube K n (turned n inv i backwards x0 x1 x2 x3 a).
Proof using All.
  unfold turned.
  destruct (wf_cube_lookup K n a i Hwf Hi) as (m & _ & -> & Hm).
  destruct backwards; apply wf_cycle4; try done;
    apply wf_cube_insert; try done; apply wf_quarter; auto.
Qed.

Lemma turned_back_forth :
  sym_flags inv (snd x0) (snd x1) (snd x2) (snd x3) = true ->
  turned n inv i true x0 x1 x2 x3 (turned n inv i false x0 x1 x2 x3 a) = a.
Proof using All.
  unfold sym_flags. rewrite !andb_true_iff, !bool_decide_eq_true.
  intros [[[S01 S12] S23] S30].
  pose proof dressed_self as Hself. set (D := build K _) in Hself.
  rewrite <- Hself at 1. subst D. clear Hself.
  rewrite turned_dressed_fwd; try done;
    try (apply wf_face; done); try (apply length_get_edge; try done; by apply wf_face).
  rewrite turned_dressed_bwd; try done; try (apply wf_face; done);
    try (rewrite length_rv; apply length_get_edge; try done; by apply wf_face).
  rewrite !rv_rv. rewrite <- S01, <- S12, <- S23, S30, !xorb_nilpotent. simpl.
  unfold quarter. rewrite rot90_3_1 by by apply wf_face.
  apply dressed_self.
Qed.

Lemma turned_forth_back :
  sym_flags inv (snd x0) (snd x1) (snd x2) (snd x3) = true ->
  turned n inv i false x0 x1 x2 x3 (turned n inv i true x0 x1 x2 x3 a) = a.
Proof using All.
  unfold sym_flags. rewrite !andb_true_iff, !bool_decide_eq_true.
  intros [[[S01 S12] S23] S30].
  pose proof dressed_self as Hself. set (D := build K _) in Hself.
  rewrite <- Hself at 1. subst D. clear Hself.
  rewrite turned_dressed_bwd; try done;
    try (apply wf_face; done); try (apply length_get_edge; try done; by apply wf_face).
  rewrite turned_dressed_fwd; try done; try (apply wf_face; done);
    try (rewrite length_rv; apply length_get_edge; try done; by apply wf_face).
  rewrite !rv_rv. rewrite S01, S12, S23, <- S30, !xorb_nilpotent. simpl.
  unfold quarter. rewrite rot90_1_3 by by apply wf_face.
  apply dressed_self.
Qed.

Lemma turned_four backwards :
  even_flags inv (snd x0) (snd x1) (snd x2) (snd x3) = true ->
  turned n inv i backwards x0 x1 x2 x3
    (turned n inv i backwards x0 x1 x2 x3
       (turned n inv i backwards x0 x1 x2 x3
          (turned n inv i backwards x0 x1 x2 x3 a))) = a.
Proof using All.
  unfold even_flags. rewrite andb_true_iff, !negb_true_iff.
  intros [Ef Eb].
  pose proof dressed_self as Hself. set (D := build K _) in Hself.
  rewrite <- Hself at 1. subst D. clear Hself.
  assert (forall j, j < K -> length (get_edge (snd x0) n (A j)) = n) as L.
  { intros j Hj. apply length_get_edge; [done|]. by apply wf_face. }
  destruct backwards.
  - rewrite !turned_dressed_bwd; try done; try (apply wf_face; done);
      rewrite ?length_rv; try (apply length_get_edge; try done; by apply wf_face).
    rewrite !rv_rv.
    rewrite quarter_four by (auto || by apply wf_face).
    etrans; [|apply dressed_self].
    f_equal. f_equal;
      match goal with
      | |- rv ?b _ = _ => replace b with false; [done|]
      end;
      revert Eb;
      destruct (inverted inv (snd x1) (snd x0)), (inverted inv (snd x2) (snd x1)),
               (inverted inv (snd x3) (snd x2)), (inverted inv (snd x0) (snd x3));
      simpl; congruence.
  - rewrite !turned_dressed_fwd; try done; try (apply wf_face; done);
      rewrite ?length_rv; try (apply length_get_edge; try done; by apply wf_face).
    rewrite !rv_rv.
    rewrite quarter_four by (auto || by apply wf_face).
    etrans; [|apply dressed_self].
    f_equal. f_equal;
      match goal with
      | |- rv ?b _ = _ => replace b with false; [done|]
      end;
      revert Ef;
      destruct (inverted inv (snd x0) (snd x1)), (inverted inv (snd x1) (snd x2)),
               (inverted inv (snd x2) (snd x3)), (inverted inv (snd x3) (snd x0));
      simpl; congruence.
Qed.
End TurnLaws.

(** ** A turn only relocates cells *)

Lemma cells_of_cons g (a : list grid) : cells_of (g :: a) = concat g ++ cells_of a.
Proof. unfold cells_of. simpl. by rewrite concat_app. Qed.

Lemma cells_insert_perm (a : list grid) j g :
  j < length a ->
  cells_of (<[j := g]> a) ++ concat (a !!! j) ≡ₚ cells_of a ++ concat g.
Proof.
  revert j. induction a as [|g0 a IH]; intros [|j] Hj; simpl in *; try lia.
  - rewrite !cells_of_cons. change ((g0 :: a) !!! 0) with g0.
    rewrite (Permutation_app_comm (concat g ++ cells_of a) (concat g0)), <- !app_assoc.
    apply Permutation_app_head, Permutation_app_comm.
  - rewrite !cells_of_cons. change ((g0 :: a) !!! S j) with (a !!! j).
    rewrite <- !app_assoc. apply Permutation_app_head, IH. lia.
Qed.

Section Conservation.
Context (K n : nat) (Hn : 0 < n) (inv : list (edge * edge)).

Lemma translate_perm xa xb input a :
  wf_cube K n a -> fst xa < K -> fst xb < K -> input_ok n input ->
  cells_of (fst (translate n inv xa xb input a)) ++ snd (translate n inv xa xb input a)
  ≡ₚ cells_of a ++ match input with
                   | None => get_edge (snd xa) n (a !!! fst xa)
                   | Some x => x
                   end.
Proof using Hn.
  intros Hwf Ha Hb Hin. unfold translate; simpl.
  set (sa := match input with
             | None => get_edge (snd xa) n (a !!! fst xa)
             | Some x => x
             end).
  destruct (wf_cube_lookup K n a _ Hwf Ha) as (ma & _ & Hta & Hma).
  destruct (wf_cube_lookup K n a _ Hwf Hb) as (mb & _ & Htb & Hmb).
  assert (length sa = n) as Hsa.
  { subst sa. destruct input; simpl in *; [done|].
    rewrite Hta. by apply length_get_edge. }
  set (v := rv (inverted inv (snd xa) (snd xb)) sa).
  assert (length v = n) as Hv by (subst v; by rewrite length_rv).
  pose proof (cells_insert_perm a (fst xb) (put_edge (snd xb) n mb v)) as P1.
  rewrite Htb in *. specialize (P1 ltac:(destruct Hwf; lia)).
  pose proof (put_edge_perm n Hn (snd xb) mb v Hmb Hv) as P2.
  apply (Permutation_app_inv_l (concat mb)).
  rewrite !app_assoc.
  rewrite (Permutation_app_comm (concat mb) (cells_of (<[_ := _]> a))).
  rewrite P1. rewrite <- !app_assoc, P2.
  rewrite (app_assoc (concat mb)), (Permutation_app_comm (concat mb) (cells_of a)).
  rewrite <- app_assoc. do 2 apply Permutation_app_head.
  subst v. apply rv_perm.
Qed.

Lemma cycle4_perm x0 x1 x2 x3 a :
  wf_cube K n a ->
  fst x0 < K -> fst x1 < K -> fst x2 < K -> fst x3 < K ->
  NoDup [fst x0; fst x1; fst x2; fst x3] ->
  cells_of (cycle4 n inv x0 x1 x2 x3 a) ≡ₚ cells_of a.
Proof using Hn.
  intros Hwf H0 H1 H2 H3 Hnd. apply NoDup4 in Hnd as (? & ? & ? & ? & ? & ?).
  unfold cycle4.
  pose proof (translate_perm x0 x1 None a Hwf H0 H1 I) as P1.
  destruct (wf_translate K n Hn inv x0 x1 None a Hwf H0 H1 I) as [Hw1 Hs1].
  destruct (translate n inv x0 x1 None a) as [a1 s1] eqn:E1; simpl in P1, Hw1, Hs1.
  pose proof (translate_perm x1 x2 (Some s1) a1 Hw1 H1 H2 Hs1) as P2.
  destruct (wf_translate K n Hn inv x1 x2 (Some s1) a1 Hw1 H1 H2 Hs1) as [Hw2 Hs2].
  destruct (translate n inv x1 x2 (Some s1) a1) as [a2 s2] eqn:E2; simpl in P2, Hw2, Hs2.
  pose proof (translate_perm x2 x3 (Some s2) a2 Hw2 H2 H3 Hs2) as P3.
  destruct (wf_translate K n Hn inv x2 x3 (Some s2) a2 Hw2 H2 H3 Hs2) as [Hw3 Hs3].
  destruct (translate n inv x2 x3 (Some s2) a2) as [a3 s3] eqn:E3; simpl in P3, Hw3, Hs3.
  pose proof (translate_perm x3 x0 (Some s3) a3 Hw3 H3 H0 Hs3) as P4.
  assert (a3 !!! fst x0 = a !!! fst x0) as Hsame.
  { unfold translate in E1, E2, E3. simpl in *.
    injection E1 as <- <-. injection E2 as <- <-. injection E3 as <- <-.
    by rewrite !list_lookup_total_insert_ne by done. }
  apply (Permutation_app_inv_r (get_edge (snd x0) n (a !!! fst x0))).
  replace (get_edge (snd x0) n (a !!! fst x0))
    with (snd (translate n inv x3 x0 (Some s3) a3)) at 1
    by (unfold translate; simpl; by rewrite Hsame).
  by rewrite P4, P3, P2, P1.
Qed.

Lemma turned_perm i backwards x0 x1 x2 x3 a :
  wf_cube K n a -> i < K ->
  fst x0 < K -> fst x1 < K -> fst x2 < K -> fst x3 < K ->
  NoDup [fst x0; fst x1; fst x2; fst x3] ->
  cells_of (turned n inv i backwards x0 x1 x2 x3 a) ≡ₚ cells_of a.
Proof using Hn.
  intros Hwf Hi H0 H1 H2 H3 Hnd. unfold turned.
  destruct (wf_cube_lookup K n a i Hwf Hi) as (m & _ & Htm & Hm).
  set (k := if backwards then 3 else 1).
  assert (k = 1 \/ k = 3) as Hk by (subst k; destruct backwards; auto).
  assert (cells_of (<[i := quarter n k (a !!! i)]> a) ≡ₚ cells_of a) as P0.
  { apply (Permutation_app_inv_r (concat (a !!! i))).
    rewrite cells_insert_perm by (destruct Hwf; lia).
    apply Permutation_app_head. rewrite Htm. by apply quarter_perm. }
  assert (wf_cube K n (<[i := quarter n k (a !!! i)]> a)) as Hw0.
  { apply wf_cube_insert; [done|]. rewrite Htm. by apply wf_quarter. }
  destruct backwards; (etrans; [|exact P0]); apply cycle4_perm; try done.
  apply NoDup4 in Hnd as (? & ? & ? & ? & ? & ?).
  rewrite !NoDup_cons, !not_elem_of_cons. repeat split; try done; try congruence.
  all: first [apply not_elem_of_nil | apply NoDup_nil_2].
Qed.
End Conservation.

(** ** What the engine assumes of the configuration

    The checks below are executable, so that a concrete configuration is
    validated by computation. *)

Example std_conf_ok : config_ok std_conf = true.
Proof. vm_compute. reflexivity. Qed.

Example std_conf_sym : table_sym std_conf = true.
Proof. vm_compute. reflexivity. Qed.

Example std_conf_even : table_even std_conf = true.
Proof. vm_compute. reflexivity. Qed.

(** Under [std_conf] the engine behaves as the real puzzle does: the
    commutator of two adjacent faces has order six (and not three), and
    turns of opposite faces commute. *)
Example std_conf_is_a_cube :
  play (concat (replicate 6 ["Rd"; "Ud"; "Ri"; "Ui"])) numbered = numbered
  /\ play (concat (replicate 3 ["Rd"; "Ud"; "Ri"; "Ui"])) numbered ≠ numbered
  /\ play ["Fd"; "Bd"; "Fi"; "Bi"] numbered = numbered.
Proof.
  split; [vm_compute; reflexivity|]. split; [|vm_compute; reflexivity].
  intros H. vm_compute in H. discriminate H.
Qed.

Lemma for_entries_elim cfg check s :
  for_entries cfg check = true -> s ∈ sides cfg ->
  exists t, circuit_of cfg s = Some t /\ check t = true.
Proof.
  unfold for_entries. rewrite forallb_forall. intros H Hs.
  specialize (H s). rewrite <- list_elem_of_In in H. specialize (H Hs).
  destruct (circuit_of cfg s) as [t|]; [eauto | done].
Qed.

Lemma circuit_of_entry cfg K s t :
  circuit_of cfg s = Some t -> circuit_closed K t = true ->
  table_entry cfg K s (t_index t) (t_x0 t) (t_x1 t) (t_x2 t) (t_x3 t) (t_inv t).
Proof.
  unfold circuit_of, circuit_closed. intros Hc Hcl.
  apply andb_true_iff in Hcl as [Hb Hnd].
  apply bool_decide_eq_true in Hb as (? & ? & ? & ? & ?).
  apply bool_decide_eq_true in Hnd.
  destruct (dict_get s (RubiksCube.index_sides cfg)) as [i|] eqn:Ei; [|done].
  destruct (connexions cfg !! s) as [[ss es inv]|] eqn:Ecn; [|done].
  simpl in Hc.
  destruct ss as [|s0 [|s1 [|s2 [|s3 [|s4 [|]]]]]]; try done.
  destruct es as [|e0 [|e1 [|e2 [|e3 [|e4 [|]]]]]]; try done.
  destruct (dict_get s0 _) as [f0|] eqn:E0; [|done].
  destruct (dict_get s1 _) as [f1|] eqn:E1; [|done].
  destruct (dict_get s2 _) as [f2|] eqn:E2; [|done].
  destruct (dict_get s3 _) as [f3|] eqn:E3; [|done].
  case_bool_decide as Heq; [|done]. destruct Heq as [-> ->].
  injection Hc as <-. simpl in *.
  split; simpl; try done. by exists s0, s1, s2, s3.
Qed.

(** A legal move: a code [_load_action] accepts. *)
Lemma _load_action_Some cfg code act :
  RubiksAction._load_action cfg code = Some act ->
  RubiksAction.side act ∈ sides cfg /\ RubiksAction.direction act ∈ directions cfg
  /\ code = String.append (RubiksAction.side act) (RubiksAction.direction act).
Proof.
  unfold RubiksAction._load_action.
  destruct code as [|a [|b [|]]]; try done.
  destruct (bool_decide (char a ∈ sides cfg)) eqn:Ea; [|done].
  destruct (bool_decide (char b ∈ directions cfg)) eqn:Eb; [|done].
  simpl. intros [= <-]. simpl.
  apply bool_decide_eq_true in Ea, Eb. done.
Qed.

Lemma config_ok_direction cfg x :
  config_ok cfg = true -> x ∈ directions cfg -> x = "d" \/ x = "i".
Proof.
  unfold config_ok. rewrite !andb_true_iff. intros [[[_ _] Hd] _] Hx.
  rewrite forallb_forall in Hd. specialize (Hd x).
  rewrite <- list_elem_of_In in Hd. specialize (Hd Hx).
  by apply bool_decide_eq_true in Hd.
Qed.

Lemma config_ok_entry cfg s :
  config_ok cfg = true -> s ∈ sides cfg ->
  exists t, circuit_of cfg s = Some t
    /\ table_entry cfg (length (colors cfg)) s
         (t_index t) (t_x0 t) (t_x1 t) (t_x2 t) (t_x3 t) (t_inv t).
Proof.
  unfold config_ok. rewrite !andb_true_iff. intros [_ Ht] Hs.
  destruct (for_entries_elim cfg _ s Ht Hs) as (t & Hc & Hcl).
  exists t. split; [done|]. by apply circuit_of_entry.
Qed.

(** ** The reward *)

Lemma mapM_ok {A B} (f : A -> py B) (g : A -> B) (l : list A) w :
  (forall x, x ∈ l -> f x w = (Ok (g x), w)) ->
  mapM f l w = (Ok (g <$> l), w).
Proof.
  induction l as [|x l IH]; intros H; simpl; [done|].
  rewrite (bind_ok _ _ _ _ _ (H x ltac:(left))).
  rewrite (bind_ok _ _ _ _ _ (IH (fun y Hy => H y ltac:(by right)))).
  done.
Qed.

Lemma forallb_id_fmap {A} (g : A -> bool) (l : list A) :
  forallb id (g <$> l) = forallb g l.
Proof. induction l as [|x l IH]; [done|]. rewrite fmap_cons. simpl. by rewrite IH. Qed.

Lemma _get_reward_ok cfg self w p K n a :
  dict_values (RubiksCube.index_colors cfg) = seq 0 K ->
  RubiksCube.cube self = Some p ->
  heap w !! p = Some (Arr3 K n n a) -> length a = K ->
  RubiksCube._get_reward cfg self w = (Ok (reward_of K a), w).
Proof.
  intros Hval Hcube Hp Hlen. unfold RubiksCube._get_reward.
  rewrite Hval, Hcube.
  erewrite bind_ok.
  2:{ apply (mapM_ok _ (fun i => face_solved i (a !!! i))).
      intros i Hi. apply elem_of_seq in Hi as [_ Hi]. simpl in Hi.
      cbn [lift]. norm_bind.
      rewrite (bind_ok _ _ _ _ _ (getitem_ok w p K n n a Hp i Hi)).
      destruct (lookup_lt_is_Some_2 a i) as [m Hm]; [lia|].
      rewrite (bind_ok _ _ _ _ _ (view_value_ok w p K n n a Hp i m Hm)).
      unfold ret. simpl. by rewrite (list_lookup_total_correct _ _ _ Hm). }
  unfold ret, reward_of, solvedb. by rewrite forallb_id_fmap.
Qed.

Lemma is_resolved_ok cfg self w p K n a :
  dict_values (RubiksCube.index_colors cfg) = seq 0 K ->
  RubiksCube.cube self = Some p ->
  heap w !! p = Some (Arr3 K n n a) -> length a = K ->
  RubiksCube.is_resolved cfg self w = (Ok (solvedb K a), w).
Proof.
  intros Hval Hcube Hp Hlen. unfold RubiksCube.is_resolved.
  rewrite (bind_ok _ _ _ _ _ (_get_reward_ok cfg self w p K n a Hval Hcube Hp Hlen)).
  unfold ret, reward_of. by destruct (solvedb K a).
Qed.

(** ** Engines and moves *)

Section Moves.
Context (cfg : Config) (Hcfg : config_ok cfg = true).
Let K := length (colors cfg).

Lemma config_ok_palette :
  dict_values (RubiksCube.index_colors cfg) = seq 0 K.
Proof using Hcfg.
  unfold config_ok in Hcfg. rewrite !andb_true_iff in Hcfg.
  destruct Hcfg as [[[Hp _] _] _]. by apply bool_decide_eq_true in Hp.
Qed.

Lemma wf_apply_move act n a code :
  RubiksAction._load_action cfg code = Some act ->
  0 < n -> wf_cube K n a -> wf_cube K n (apply_move cfg act n a).
Proof using Hcfg.
  intros Hact Hn Hwf.
  destruct (_load_action_Some cfg code act Hact) as (Hs & Hd & _).
  destruct (config_ok_entry cfg _ Hcfg Hs) as (t & Ht & He).
  unfold apply_move. rewrite Ht.
  destruct He as [_ ? _ (? & ? & ? & ?) ?]. by apply wf_turned.
Qed.

Lemma step_ok self w p a code act :
  engine_at cfg self w p a ->
  RubiksAction._load_action cfg code = Some act ->
  let a' := apply_move cfg act (RubiksCube.dim self) a in
  let w' := wstore w p (Arr3 K (RubiksCube.dim self) (RubiksCube.dim self) a') in
  RubiksCube.step cfg self (move act) w
  = (Ok (bump self, (p, reward_of K a', solvedb K a')), w')
  /\ engine_at cfg (bump self) w' p a'.
Proof using Hcfg.
  intros (Hcube & Hp & Hwf & Hn) Hact a' w'.
  destruct (_load_action_Some cfg code act Hact) as (Hs & Hd & _).
  destruct (config_ok_entry cfg _ Hcfg Hs) as (t & Ht & He).
  pose proof (config_ok_direction cfg _ Hcfg Hd) as Hdir.
  assert (wf_cube K (RubiksCube.dim self) a') as Hwf'
    by (by apply (wf_apply_move act _ a code)).
  assert (heap w' !! p = Some (Arr3 K (RubiksCube.dim self) (RubiksCube.dim self) a'))
    as Hp' by apply heap_wstore.
  split; [|done].
  unfold RubiksCube.step, move. cbn [RubiksAction.action lift]. norm_bind.
  rewrite (bind_ok _ _ _ _ _
             (_rotate_ok cfg K _ self act w p a _ _ _ _ _ _ Hn Hcube Hp Hwf He Hdir)).
  assert (a' = turned (RubiksCube.dim self) (t_inv t) (t_index t)
                 (bool_decide (RubiksAction.direction act = "i"))
                 (t_x0 t) (t_x1 t) (t_x2 t) (t_x3 t) a) as <-
    by (subst a'; unfold apply_move; by rewrite Ht).
  fold w'. simpl RubiksCube.cube. rewrite Hcube. cbn [lift]. norm_bind.
  rewrite (bind_ok _ _ _ _ _
             (_get_reward_ok cfg (bump self) w' p K _ a' config_ok_palette
                Hcube Hp' (proj1 Hwf'))).
  rewrite (bind_ok _ _ _ _ _
             (is_resolved_ok cfg (bump self) w' p K _ a' config_ok_palette
                Hcube Hp' (proj1 Hwf'))).
  done.
Qed.
End Moves.

Section MoveLaws.
Context (cfg : Config) (Hcfg : config_ok cfg = true).
Let K := length (colors cfg).
Context (code : string) (act : RubiksAction.Action).
Context (Hact : RubiksAction._load_action cfg code = Some act).

Lemma inverse_legal :
  RubiksAction._load_action cfg
    (String.append (RubiksAction.side act) (RubiksAction.direction (inverse_of act)))
  = Some (inverse_of act).
Proof using Hcfg Hact.
  unfold RubiksAction._load_action in Hact.
  destruct code as [|x [|y [|]]]; try done.
  destruct (bool_decide (char x ∈ sides cfg)) eqn:Ex; [|done].
  destruct (bool_decide (char y ∈ directions cfg)) eqn:Ey; [|done].
  simpl in Hact. injection Hact as <-. unfold inverse_of; simpl.
  unfold config_ok in Hcfg. rewrite !andb_true_iff in Hcfg.
  destruct Hcfg as [[[_ Hdi] _] _]. apply bool_decide_eq_true in Hdi as [Hd Hi].
  destruct (bool_decide (char y = "i")); simpl; unfold char in *; rewrite Ex;
    by rewrite bool_decide_eq_true_2.
Qed.

Lemma get_inverse_action_ok w :
  RubiksAction.get_inverse_action cfg (move act) w = (Ok (move (inverse_of act)), w).
Proof using Hcfg Hact.
  unfold RubiksAction.get_inverse_action, move. cbn [RubiksAction.action lift].
  norm_bind. unfold RubiksAction.__init__, ret.
  pose proof inverse_legal as H. unfold inverse_of in H. simpl in H.
  by rewrite H.
Qed.

Context (n : nat) (Hn : 0 < n) (a : list grid) (Hwf : wf_cube K n a).

Lemma apply_move_inverse :
  table_sym cfg = true ->
  apply_move cfg (inverse_of act) n (apply_move cfg act n a) = a.
Proof using All.
  intros Hsym.
  destruct (_load_action_Some cfg code act Hact) as (Hs & Hd & _).
  destruct (config_ok_entry cfg _ Hcfg Hs) as (t & Ht & He).
  destruct (for_entries_elim cfg _ _ Hsym Hs) as (t' & Ht' & Hflags).
  rewrite Ht in Ht'. injection Ht' as <-.
  unfold apply_move. simpl. rewrite Ht.
  destruct He as [_ ? _ (? & ? & ? & ?) ?].
  destruct (config_ok_direction cfg _ Hcfg Hd) as [-> | ->]; simpl.
  - by apply (turned_back_forth K).
  - by apply (turned_forth_back K).
Qed.

Lemma apply_move_four :
  table_even cfg = true ->
  apply_move cfg act n (apply_move cfg act n (apply_move cfg act n (apply_move cfg act n a)))
  = a.
Proof using All.
  intros Heven.
  destruct (_load_action_Some cfg code act Hact) as (Hs & Hd & _).
  destruct (config_ok_entry cfg _ Hcfg Hs) as (t & Ht & He).
  destruct (for_entries_elim cfg _ _ Heven Hs) as (t' & Ht' & Hflags).
  rewrite Ht in Ht'. injection Ht' as <-.
  unfold apply_move. rewrite Ht.
  destruct He as [_ ? _ (? & ? & ? & ?) ?].
  by apply (turned_four K).
Qed.

Lemma apply_move_perm :
  cells_of (apply_move cfg act n a) ≡ₚ cells_of a.
Proof using All.
  destruct (_load_action_Some cfg code act Hact) as (Hs & Hd & _).
  destruct (config_ok_entry cfg _ Hcfg Hs) as (t & Ht & He).
  unfold apply_move. rewrite Ht.
  destruct He as [_ ? _ (? & ? & ? & ?) Hnd].
  apply (turned_perm K); try done. by apply NoDup5 in Hnd as [_ ?].
Qed.
End MoveLaws.

(** ** Moves: round trip, conservation, four-fold turn *)

Lemma engine0_ok : engine_at std_conf engine0 w0 7 numbered.
Proof.
  repeat split; try reflexivity; try (simpl; lia).
  repeat constructor.
Qed.

(** C1. For every legal move (a code [_load_action] accepts) and every
    well-formed engine state, [step] with the move followed by [step] with
    [get_inverse_action] of the move succeeds and leaves the store exactly
    as it was: the cube is restored, for every positive [dim].  The table
    is assumed to list closed cycles of distinct neighbours and to reverse
    a pair of edges in both directions alike. *)
Theorem step_inverse_round_trip cfg self w p a code act :
  config_ok cfg = true -> table_sym cfg = true ->
  engine_at cfg self w p a ->
  RubiksAction._load_action cfg code = Some act ->
  exists self' out,
    (r <- RubiksCube.step cfg self (move act) ;;
     minv <- RubiksAction.get_inverse_action cfg (move act) ;;
     RubiksCube.step cfg (fst r) minv) w
    = (Ok (self', out), w)
    /\ engine_at cfg self' w p a.
Proof.
  intros Hcfg Hsym Heng Hact.
  destruct (step_ok cfg Hcfg self w p a code act Heng Hact) as [Hs1 He1].
  rewrite (bind_ok _ _ _ _ _ Hs1). cbn [fst].
  rewrite (bind_ok _ _ _ _ _ (get_inverse_action_ok cfg Hcfg code act Hact _)).
  destruct (step_ok cfg Hcfg _ _ p _ _ _ He1 (inverse_legal cfg Hcfg code act Hact))
    as [Hs2 He2].
  rewrite Hs2. clear Hs1 Hs2.
  destruct Heng as (Hcube & Hp & Hwf & Hn).
  simpl RubiksCube.dim in *.
  rewrite (apply_move_inverse cfg Hcfg code act Hact _ Hn a Hwf Hsym) in *.
  rewrite wstore_wstore in *. rewrite (wstore_same w p _ Hp) in *.
  eauto.
Qed.

Lemma step_inverse_round_trip_witness :
  exists self' out,
    (r <- RubiksCube.step std_conf engine0
            (move {| RubiksAction.side := "F"; RubiksAction.direction := "d" |}) ;;
     minv <- RubiksAction.get_inverse_action std_conf
               (move {| RubiksAction.side := "F"; RubiksAction.direction := "d" |}) ;;
     RubiksCube.step std_conf (fst r) minv) w0
    = (Ok (self', out), w0)
    /\ engine_at std_conf self' w0 7 numbered.
Proof.
  apply (step_inverse_round_trip std_conf engine0 w0 7 numbered "Fd").
  - vm_compute; reflexivity.
  - vm_compute; reflexivity.
  - repeat split; try reflexivity; try (simpl; lia). repeat constructor.
  - reflexivity.
Defined.

(** C3. A legal move on a well-formed engine state succeeds and leaves
    the cells of the cube a permutation of what they were: the multiset
    of colours over all faces is unchanged. *)
Theorem step_conserves_colours cfg self w p a code act :
  config_ok cfg = true ->
  engine_at cfg self w p a ->
  RubiksAction._load_action cfg code = Some act ->
  exists self' out w' a',
    RubiksCube.step cfg self (move act) w = (Ok (self', out), w')
    /\ engine_at cfg self' w' p a'
    /\ cells_of a' ≡ₚ cells_of a.
Proof.
  intros Hcfg Heng Hact.
  destruct (step_ok cfg Hcfg self w p a code act Heng Hact) as [Hs1 He1].
  do 4 eexists. split; [exact Hs1|]. split; [exact He1|].
  destruct Heng as (Hcube & Hp & Hwf & Hn).
  by apply (apply_move_perm cfg Hcfg code).
Qed.

Lemma step_conserves_colours_witness :
  exists self' out w' a',
    RubiksCube.step std_conf engine0
      (move {| RubiksAction.side := "L"; RubiksAction.direction := "i" |}) w0
    = (Ok (self', out), w')
    /\ engine_at std_conf self' w' 7 a'
    /\ cells_of a' ≡ₚ cells_of numbered.
Proof.
  apply (step_conserves_colours std_conf engine0 w0 7 numbered "Li").
  - vm_compute; reflexivity.
  - repeat split; try reflexivity; try (simpl; lia). repeat constructor.
  - reflexivity.
Defined.

(** C5. Four [step]s with the same legal move on a well-formed engine
    state succeed and leave the store exactly as it was: the turned face
    and all neighbouring strips are back.  The table is assumed to list
    closed cycles of distinct neighbours whose reversal flags are even in
    number around each cycle. *)
Theorem step_four_times_identity cfg self w p a code act :
  config_ok cfg = true -> table_even cfg = true ->
  engine_at cfg self w p a ->
  RubiksAction._load_action cfg code = Some act ->
  exists self' out,
    (r1 <- RubiksCube.step cfg self (move act) ;;
     r2 <- RubiksCube.step cfg (fst r1) (move act) ;;
     r3 <- RubiksCube.step cfg (fst r2) (move act) ;;
     RubiksCube.step cfg (fst r3) (move act)) w
    = (Ok (self', out), w)
    /\ engine_at cfg self' w p a.
Proof.
  intros Hcfg Heven Heng Hact.
  destruct (step_ok cfg Hcfg self w p a code act Heng Hact) as [Hs1 He1].
  rewrite (bind_ok _ _ _ _ _ Hs1). cbn [fst].
  destruct (step_ok cfg Hcfg _ _ p _ code act He1 Hact) as [Hs2 He2].
  rewrite (bind_ok _ _ _ _ _ Hs2). cbn [fst].
  destruct (step_ok cfg Hcfg _ _ p _ code act He2 Hact) as [Hs3 He3].
  rewrite (bind_ok _ _ _ _ _ Hs3). cbn [fst].
  destruct (step_ok cfg Hcfg _ _ p _ code act He3 Hact) as [Hs4 He4].
  rewrite Hs4. clear Hs1 Hs2 Hs3 Hs4 He1 He2 He3.
  destruct Heng as (Hcube & Hp & Hwf & Hn).
  simpl RubiksCube.dim in *.
  rewrite (apply_move_four cfg Hcfg code act Hact _ Hn a Hwf Heven) in *.
  rewrite !wstore_wstore in *. rewrite (wstore_same w p _ Hp) in *.
  eauto.
Qed.

Lemma step_four_times_identity_witness :
  exists self' out,
    (r1 <- RubiksCube.step std_conf engine0
             (move {| RubiksAction.side := "R"; RubiksAction.direction := "d" |}) ;;
     r2 <- RubiksCube.step std_conf (fst r1)
             (move {| RubiksAction.side := "R"; RubiksAction.direction := "d" |}) ;;
     r3 <- RubiksCube.step std_conf (fst r2)
             (move {| RubiksAction.side := "R"; RubiksAction.direction := "d" |}) ;;
     RubiksCube.step std_conf (fst r3)
       (move {| RubiksAction.side := "R"; RubiksAction.direction := "d" |})) w0
    = (Ok (self', out), w0)
    /\ engine_at std_conf self' w0 7 numbered.
Proof.
  apply (step_four_times_identity std_conf engine0 w0 7 numbered "Rd").
  - vm_compute; reflexivity.
  - vm_compute; reflexivity.
  - repeat split; try reflexivity; try (simpl; lia). repeat constructor.
  - reflexivity.
Defined.

(** ** The solved cube *)

Lemma fill_faces K (G : nat -> grid) (base : list grid) :
  length base = K ->
  fold_left (fun a i => <[i := G i]> a) (seq 0 K) base = build K G.
Proof.
  intros Hlen.
  assert (forall k, k <= K ->
            fold_left (fun a i => <[i := G i]> a) (seq 0 k) base
            = (G <$> seq 0 k) ++ drop k base) as H.
  { induction k as [|k IH]; intros Hk; [done|].
    rewrite seq_S, fold_left_app, fmap_app, IH by lia. simpl.
    destruct (lookup_lt_is_Some_2 base k) as [x Hx]; [lia|].
    rewrite (drop_S _ _ _ Hx).
    rewrite insert_app_r_alt by (rewrite length_fmap, length_seq; lia).
    rewrite length_fmap, length_seq, Nat.sub_diag. simpl.
    by rewrite <- app_assoc. }
  rewrite (H K) by lia. rewrite drop_ge by lia. by rewrite app_nil_r.
Qed.

Lemma wf_solved_cube K n : wf_cube K n (solved_cube K n).
Proof.
  split; [apply length_build|].
  apply Forall_forall. intros m Hm. unfold solved_cube, build in Hm.
  apply list_elem_of_fmap in Hm as (i & -> & _). split.
  - apply length_replicate.
  - apply Forall_forall. intros row Hrow.
    apply elem_of_replicate in Hrow as [-> _]. apply length_replicate.
Qed.

Lemma all_equal_replicate n c : all_equal (replicate n (replicate n c)) c = true.
Proof.
  unfold all_equal. apply forallb_forall. intros row Hrow.
  apply list_elem_of_In, elem_of_replicate in Hrow as [-> _].
  apply forallb_forall. intros x Hx.
  apply list_elem_of_In, elem_of_replicate in Hx as [-> _].
  by apply bool_decide_eq_true.
Qed.

Lemma solvedb_solved_cube K n : solvedb K (solved_cube K n) = true.
Proof.
  unfold solvedb. apply forallb_forall. intros i Hi.
  apply list_elem_of_In, elem_of_seq in Hi as [_ Hi]. simpl in Hi.
  unfold solved_cube. rewrite build_lookup by done. apply all_equal_replicate.
Qed.

Lemma all_equal_true (m : grid) c n :
  wf_grid n m -> all_equal m c = true -> m = replicate n (replicate n c).
Proof.
  intros [Hlen Hrows] Hall. unfold all_equal in Hall.
  rewrite forallb_forall in Hall.
  apply list_eq_same_length with n; [by rewrite length_replicate | done |].
  intros i row row' Hi Hrow Hrow'.
  apply lookup_replicate in Hrow' as [-> _].
  assert (row ∈ m) as Hin by (apply list_elem_of_lookup; eauto).
  rewrite Forall_forall in Hrows. pose proof (Hrows row Hin) as Hl.
  specialize (Hall row). rewrite <- list_elem_of_In in Hall. specialize (Hall Hin).
  rewrite forallb_forall in Hall.
  apply list_eq_same_length with n; [by rewrite length_replicate | done |].
  intros j x x' Hj Hx Hx'. apply lookup_replicate in Hx' as [-> _].
  specialize (Hall x). rewrite <- list_elem_of_In in Hall.
  assert (x ∈ row) as Hxin by (apply list_elem_of_lookup; eauto).
  specialize (Hall Hxin). by apply bool_decide_eq_true in Hall.
Qed.

(** The solved predicate says that every cell of face [i] holds [i]. *)
Lemma solvedb_iff K n a :
  wf_cube K n a -> solvedb K a = true <-> a = solved_cube K n.
Proof.
  intros Hwf. split.
  - intros Hs. unfold solvedb in Hs. rewrite forallb_forall in Hs.
    rewrite <- (build_self K a) by apply Hwf. unfold solved_cube.
    apply build_ext; intros i Hi.
    destruct (wf_cube_lookup K n a i Hwf Hi) as (m & _ & Hm & Hwm).
    rewrite Hm in *. apply all_equal_true; [done|].
    specialize (Hs i). rewrite <- list_elem_of_In in Hs.
    rewrite Hm in Hs. apply Hs. apply elem_of_seq. lia.
  - intros ->. apply solvedb_solved_cube.
Qed.

Lemma _construct_cube_ok cfg self w :
  dict_values (RubiksCube.index_colors cfg) = seq 0 (length (colors cfg)) ->
  RubiksCube._construct_cube cfg self w
  = (Ok (fresh (dom (heap w))),
     wstore w (fresh (dom (heap w)))
       (Arr3 (length (colors cfg)) (RubiksCube.dim self) (RubiksCube.dim self)
          (solved_cube (length (colors cfg)) (RubiksCube.dim self)))).
Proof.
  intros Hval. unfold RubiksCube._construct_cube, alloc. rewrite Hval.
  rewrite fill_faces by apply length_replicate. done.
Qed.

Lemma get_edge_uniform e n c :
  0 < n -> get_edge e n (replicate n (replicate n c)) = replicate n c.
Proof.
  intros Hn. destruct e; simpl; unfold read_col, read_row.
  - rewrite fmap_replicate. f_equal. apply nth_lookup_Some.
    apply lookup_replicate_2. lia.
  - rewrite fmap_replicate. f_equal. apply nth_lookup_Some.
    by apply lookup_replicate_2.
  - apply nth_lookup_Some. by apply lookup_replicate_2.
  - apply nth_lookup_Some. apply lookup_replicate_2. lia.
Qed.

Lemma wf_uniform n c : wf_grid n (replicate n (replicate n c)).
Proof.
  split; [apply length_replicate|].
  apply Forall_forall. intros row Hrow.
  apply elem_of_replicate in Hrow as [-> _]. apply length_replicate.
Qed.

Lemma rv_replicate b n (c : Z) : rv b (replicate n c) = replicate n c.
Proof. destruct b; simpl; [apply reverse_replicate | done]. Qed.

Lemma foreign_strip_unsolved e n (f0 f1 : nat) :
  0 < n -> f0 ≠ f1 ->
  face_solved f1
    (put_edge e n (replicate n (replicate n (Z.of_nat f1))) (replicate n (Z.of_nat f0)))
  = false.
Proof.
  intros Hn Hne. apply not_true_is_false. intros Hs.
  apply (all_equal_true _ _ n) in Hs.
  2:{ apply wf_put_edge; [apply wf_uniform | apply length_replicate]. }
  apply (f_equal (get_edge e n)) in Hs.
  rewrite get_put_edge in Hs by (done || apply wf_uniform || apply length_replicate).
  rewrite get_edge_uniform in Hs by done.
  destruct n as [|n]; [lia|]. simpl in Hs. injection Hs as Hs _. lia.
Qed.

Lemma move_unsolves cfg code act n :
  config_ok cfg = true ->
  RubiksAction._load_action cfg code = Some act ->
  0 < n ->
  solvedb (length (colors cfg)) (apply_move cfg act n (solved_cube (length (colors cfg)) n))
  = false.
Proof.
  intros Hcfg Hact Hn. set (K := length (colors cfg)).
  destruct (_load_action_Some cfg code act Hact) as (Hs & Hd & _).
  destruct (config_ok_entry cfg _ Hcfg Hs) as (t & Ht & He).
  unfold apply_move. rewrite Ht.
  destruct He as [_ Hi _ (H0 & H1 & H2 & H3) Hnd]. fold K in Hi, H0, H1, H2, H3.
  unfold solved_cube. rewrite (turned_build K) by done.
  apply NoDup5 in Hnd as [(? & ? & ? & ?) Hnd].
  apply NoDup4 in Hnd as (? & ? & ? & ? & ? & ?).
  apply not_true_is_false. unfold solvedb. rewrite forallb_forall. intros Hall.
  destruct (bool_decide (RubiksAction.direction act = "i")).
  - specialize (Hall (fst (t_x3 t))). rewrite <- list_elem_of_In in Hall.
    rewrite build_lookup in Hall by done.
    unfold cycled, upd in Hall.
    repeat (case_decide; try congruence).
    rewrite get_edge_uniform, rv_replicate, foreign_strip_unsolved in Hall
      by (done || congruence).
    discriminate Hall. apply elem_of_seq. lia.
  - specialize (Hall (fst (t_x1 t))). rewrite <- list_elem_of_In in Hall.
    rewrite build_lookup in Hall by done.
    unfold cycled, upd in Hall.
    repeat (case_decide; try congruence).
    rewrite get_edge_uniform, rv_replicate, foreign_strip_unsolved in Hall
      by (done || congruence).
    discriminate Hall. apply elem_of_seq. lia.
Qed.

Lemma __init___fresh cfg dim w :
  config_ok cfg = true ->
  let p := fresh (dom (heap w)) in
  let self := {| RubiksCube.dim := dim; RubiksCube.verbose := false;
                 RubiksCube.counter := 0; RubiksCube.cube := Some p |} in
  RubiksCube.__init__ cfg dim None false false w
  = (Ok self, wstore w p (Arr3 (length (colors cfg)) dim dim
                            (solved_cube (length (colors cfg)) dim))).
Proof.
  intros Hcfg p self. unfold RubiksCube.__init__. norm_bind.
  rewrite (bind_ok _ _ _ _ _
             (_construct_cube_ok cfg _ w (config_ok_palette cfg Hcfg))).
  reflexivity.
Qed.

Lemma reward_cases cfg self w p a :
  config_ok cfg = true ->
  RubiksCube.cube self = Some p ->
  heap w !! p = Some (Arr3 (length (colors cfg)) (RubiksCube.dim self)
                        (RubiksCube.dim self) a) ->
  wf_cube (length (colors cfg)) (RubiksCube.dim self) a ->
  exists r, RubiksCube._get_reward cfg self w = (Ok r, w)
    /\ ((r = 1%Z /\ a = solved_cube (length (colors cfg)) (RubiksCube.dim self))
        \/ (r = (-1)%Z /\ a ≠ solved_cube (length (colors cfg)) (RubiksCube.dim self))).
Proof.
  intros Hcfg Hcube Hp Hwf.
  exists (reward_of (length (colors cfg)) a). split.
  - apply (_get_reward_ok cfg self w p _ (RubiksCube.dim self));
      [by apply config_ok_palette | done | done | apply Hwf].
  - unfold reward_of.
    destruct (solvedb (length (colors cfg)) a) eqn:E.
    + left. split; [done|]. by apply (solvedb_iff _ _ _ Hwf).
    + right. split; [done|]. intros Heq.
      apply (solvedb_iff _ _ _ Hwf) in Heq. congruence.
Qed.

(** C4. A freshly constructed cube holds colour [i] in every cell of
    face [i] and its reward is +1; for [dim >= 2], one [step] with any
    legal move then yields reward -1 and an unsolved state; and on every
    well-formed engine the reward is +1 exactly when the cube is the
    solved one and -1 otherwise. *)
Theorem fresh_cube_reward cfg dim w :
  config_ok cfg = true ->
  exists self p w',
    RubiksCube.__init__ cfg dim None false false w = (Ok self, w')
    /\ RubiksCube.cube self = Some p
    /\ heap w' !! p = Some (Arr3 (length (colors cfg)) dim dim
                              (solved_cube (length (colors cfg)) dim))
    /\ RubiksCube._get_reward cfg self w' = (Ok 1%Z, w')
    /\ RubiksCube.is_resolved cfg self w' = (Ok true, w')
    /\ (2 <= dim ->
        forall code act,
          RubiksAction._load_action cfg code = Some act ->
          exists self1 w1 a1,
            RubiksCube.step cfg self (move act) w'
            = (Ok (self1, (p, (-1)%Z, false)), w1)
            /\ heap w1 !! p = Some (Arr3 (length (colors cfg)) dim dim a1)
            /\ a1 ≠ solved_cube (length (colors cfg)) dim
            /\ RubiksCube._get_reward cfg self1 w1 = (Ok (-1)%Z, w1))
    /\ (forall self2 w2 p2 a2,
          RubiksCube.cube self2 = Some p2 ->
          heap w2 !! p2 = Some (Arr3 (length (colors cfg)) (RubiksCube.dim self2)
                                  (RubiksCube.dim self2) a2) ->
          wf_cube (length (colors cfg)) (RubiksCube.dim self2) a2 ->
          exists r, RubiksCube._get_reward cfg self2 w2 = (Ok r, w2)
            /\ ((r = 1%Z
                 /\ a2 = solved_cube (length (colors cfg)) (RubiksCube.dim self2))
                \/ (r = (-1)%Z
                    /\ a2 ≠ solved_cube (length (colors cfg)) (RubiksCube.dim self2)))).
Proof.
  intros Hcfg. set (K := length (colors cfg)).
  pose proof (__init___fresh cfg dim w Hcfg) as Hinit. simpl in Hinit.
  set (p := fresh (dom (heap w))) in *.
  set (self := {| RubiksCube.dim := dim; RubiksCube.verbose := false;
                  RubiksCube.counter := 0; RubiksCube.cube := Some p |}) in *.
  set (w' := wstore w p (Arr3 K dim dim (solved_cube K dim))) in *.
  assert (heap w' !! p = Some (Arr3 K dim dim (solved_cube K dim))) as Hp
    by apply heap_wstore.
  pose proof (wf_solved_cube K dim) as Hwf.
  pose proof (config_ok_palette cfg Hcfg) as Hpal.
  exists self, p, w'. split; [exact Hinit|]. split; [done|]. split; [done|].
  split.
  { rewrite (_get_reward_ok cfg self w' p K dim _ Hpal eq_refl Hp (proj1 Hwf)).
    unfold reward_of. by rewrite solvedb_solved_cube. }
  split.
  { rewrite (is_resolved_ok cfg self w' p K dim _ Hpal eq_refl Hp (proj1 Hwf)).
    by rewrite solvedb_solved_cube. }
  split.
  - intros Hdim code act Hact.
    assert (engine_at cfg self w' p (solved_cube K dim)) as Heng
      by (repeat split; try done; try apply Hwf; simpl; lia).
    destruct (step_ok cfg Hcfg self w' p _ code act Heng Hact) as [Hstep Heng'].
    simpl RubiksCube.dim in *.
    pose proof (move_unsolves cfg code act dim Hcfg Hact ltac:(lia)) as Hun.
    fold K in Hun, Hstep, Heng'.
    destruct Heng' as (Hc1 & Hp1 & Hwf1 & _). simpl RubiksCube.dim in *.
    eexists _, _, _. split.
    { rewrite Hstep. unfold reward_of. rewrite Hun. reflexivity. }
    split; [exact Hp1|]. split.
    + intros Heq. apply (solvedb_iff _ _ _ Hwf1) in Heq.
      unfold K in *. rewrite Hun in Heq. discriminate Heq.
    + rewrite (_get_reward_ok cfg _ _ p K dim _ Hpal Hc1 Hp1 (proj1 Hwf1)).
      unfold reward_of. by rewrite Hun.
  - intros self2 w2 p2 a2. by apply reward_cases.
Qed.

Lemma fresh_cube_reward_witness :
  exists self p w',
    RubiksCube.__init__ std_conf 3 None false false w0 = (Ok self, w')
    /\ RubiksCube.cube self = Some p
    /\ heap w' !! p = Some (Arr3 6 3 3 (solved_cube 6 3))
    /\ RubiksCube._get_reward std_conf self w' = (Ok 1%Z, w')
    /\ RubiksCube.is_resolved std_conf self w' = (Ok true, w')
    /\ (2 <= 3 ->
        forall code act,
          RubiksAction._load_action std_conf code = Some act ->
          exists self1 w1 a1,
            RubiksCube.step std_conf self (move act) w'
            = (Ok (self1, (p, (-1)%Z, false)), w1)
            /\ heap w1 !! p = Some (Arr3 6 3 3 a1)
            /\ a1 ≠ solved_cube 6 3
            /\ RubiksCube._get_reward std_conf self1 w1 = (Ok (-1)%Z, w1))
    /\ (forall self2 w2 p2 a2,
          RubiksCube.cube self2 = Some p2 ->
          heap w2 !! p2 = Some (Arr3 6 (RubiksCube.dim self2)
                                  (RubiksCube.dim self2) a2) ->
          wf_cube 6 (RubiksCube.dim self2) a2 ->
          exists r, RubiksCube._get_reward std_conf self2 w2 = (Ok r, w2)
            /\ ((r = 1%Z /\ a2 = solved_cube 6 (RubiksCube.dim self2))
                \/ (r = (-1)%Z /\ a2 ≠ solved_cube 6 (RubiksCube.dim self2)))).
Proof.
  apply (fresh_cube_reward std_conf 3 w0). vm_compute; reflexivity.
Defined.

(** ** Frame: what a computation leaves alone

    [keeps q x m post]: run in any world whose store holds the array [x]
    at [q], the computation [m] leaves [x] at [q], whether it returns or
    raises, and a value it returns satisfies [post]. *)

Section Frame.
Context (q : loc) (x : ndarray).

Lemma keeps_ret {A} (a : A) (post : A -> Prop) : post a -> keeps q x (ret a) post.
Proof. intros H w Hq. split; [done|]. simpl. by intros ? [= <-]. Qed.

Lemma keeps_raise {A} e (post : A -> Prop) : keeps q x (raise e) post.
Proof. intros w Hq. split; [done|]. simpl. by intros ? [=]. Qed.

Lemma keeps_lift {A} e (o : option A) : keeps q x (lift e o) (fun a => o = Some a).
Proof. destruct o; simpl; [by apply keeps_ret | apply keeps_raise]. Qed.

Lemma keeps_of_result {A} (r : result A) : keeps q x (of_result r) (fun a => r = Ok a).
Proof. intros w Hq. split; [done|]. simpl. by intros ? ->. Qed.

Lemma keeps_weaken {A} (m : py A) (P Q : A -> Prop) :
  keeps q x m P -> (forall a, P a -> Q a) -> keeps q x m Q.
Proof. intros Hm HPQ w Hq. destruct (Hm w Hq) as [? ?]. split; auto. Qed.

Lemma keeps_bind {A B} (m : py A) (f : A -> py B) (P : A -> Prop) (Q : B -> Prop) :
  keeps q x m P -> (forall a, P a -> keeps q x (f a) Q) -> keeps q x (bind m f) Q.
Proof.
  intros Hm Hf w Hq. destruct (Hm w Hq) as [Hq' HP]. unfold bind.
  destruct (m w) as [[a|e] w']; simpl in *.
  - apply (Hf a (HP a eq_refl) w' Hq').
  - split; [done|]. by intros ? [=].
Qed.

Lemma keeps_load p : keeps q x (load p) (fun _ => True).
Proof.
  intros w Hq. unfold load. destruct (heap w !! p); simpl; split; done.
Qed.

Lemma keeps_isinstance p : keeps q x (isinstance_ndarray p) (fun _ => True).
Proof. intros w Hq. split; done. Qed.

Lemma keeps_store p y : p ≠ q -> keeps q x (store p y) (fun _ => True).
Proof. intros Hp w Hq. split; [|done]. simpl. by rewrite lookup_insert_ne. Qed.

Lemma keeps_alloc y : keeps q x (alloc y) (fun p => p ≠ q).
Proof.
  intros w Hq. simpl.
  assert (fresh (dom (heap w)) ≠ q) as Hne.
  { intros Heq. pose proof (is_fresh (dom (heap w))) as Hf.
    rewrite Heq in Hf. apply Hf. apply elem_of_dom. eauto. }
  split; [by rewrite lookup_insert_ne | by intros ? [= <-]].
Qed.

Lemma keeps_choice {A} (l : list A) : keeps q x (choice l) (fun _ => True).
Proof.
  intros w Hq. unfold choice.
  destruct (l !! _); simpl; split; done.
Qed.

Lemma keeps_mapM {A B} (f : A -> py B) (P : B -> Prop) (l : list A) :
  (forall a, keeps q x (f a) P) -> keeps q x (mapM f l) (Forall P).
Proof.
  intros Hf. induction l as [|a l IH]; simpl.
  - by apply keeps_ret.
  - eapply keeps_bind; [apply Hf|]. intros b Hb.
    eapply keeps_bind; [apply IH|]. intros bs Hbs.
    apply keeps_ret. by constructor.
Qed.

Lemma keeps_foldM {A S} (f : S -> A -> py S) (Inv : S -> Prop) (l : list A) s :
  Inv s -> (forall s a, Inv s -> keeps q x (f s a) Inv) ->
  keeps q x (foldM f s l) Inv.
Proof.
  intros Hs Hf. revert s Hs. induction l as [|a l IH]; intros s Hs; simpl.
  - by apply keeps_ret.
  - eapply keeps_bind; [by apply Hf|]. intros s' Hs'. by apply IH.
Qed.

(** *** Views write to their base only *)

Lemma keeps_getitem p i : keeps q x (getitem p i) (fun v => base v = p).
Proof.
  unfold getitem. eapply keeps_bind; [apply keeps_load|]. intros y _.
  destruct y as [k r c a|k r c h a|sh].
  - case_bool_decide; [by apply keeps_ret | apply keeps_raise].
  - case_bool_decide; [by apply keeps_ret | apply keeps_raise].
  - destruct sh; [apply keeps_raise|].
    case_bool_decide; [by apply keeps_ret | apply keeps_raise].
Qed.

Lemma keeps_view_value v : keeps q x (view_value v) (fun _ => True).
Proof.
  unfold view_value. eapply keeps_bind; [apply keeps_load|]. intros y _.
  destruct y; try apply keeps_raise.
  eapply keeps_bind; [apply keeps_lift|]. intros m _. by apply keeps_ret.
Qed.

Lemma keeps_view_getitem v s : keeps q x (view_getitem v s) (fun _ => True).
Proof.
  unfold view_getitem. eapply keeps_bind; [apply keeps_load|]. intros y _.
  destruct y; try apply keeps_raise.
  eapply keeps_bind; [apply keeps_lift|]. intros m _.
  destruct s; (eapply keeps_bind; [apply keeps_lift|]); intros; by apply keeps_ret.
Qed.

Lemma keeps_setitem p i g : p ≠ q -> keeps q x (setitem p i g) (fun _ => True).
Proof.
  intros Hp. unfold setitem. eapply keeps_bind; [apply keeps_load|]. intros y _.
  destruct y; try apply keeps_raise.
  repeat case_bool_decide; try apply keeps_raise. by apply keeps_store.
Qed.

Lemma keeps_view_setitem v s y :
  base v ≠ q -> keeps q x (view_setitem v s y) (fun _ => True).
Proof.
  intros Hp. unfold view_setitem. eapply keeps_bind; [apply keeps_load|].
  intros z _. destruct z; try apply keeps_raise.
  eapply keeps_bind; [apply keeps_lift|]. intros m _.
  destruct s; (eapply keeps_bind; [apply keeps_lift|]); intros;
    (eapply keeps_bind; [apply keeps_lift|]); intros; by apply keeps_store.
Qed.
End Frame.

Section FrameEngine.
Context (cfg : Config) (q : loc) (x : ndarray).

Lemma keeps__edge_translation side va vb ea eb ra input :
  base vb ≠ q ->
  keeps q x (RubiksCube._edge_translation cfg side va vb ea eb ra input)
    (fun _ => True).
Proof.
  intros Hb. unfold RubiksCube._edge_translation.
  eapply keeps_bind.
  { instantiate (1 := fun _ => True).
    destruct input; [by apply keeps_ret | apply keeps_view_getitem]. }
  intros sa _. eapply keeps_bind; [apply keeps_lift|]. intros cn _.
  eapply keeps_bind; [apply keeps_view_getitem|]. intros sb _.
  eapply keeps_bind; [by apply keeps_view_setitem|]. intros _ _.
  by apply keeps_ret.
Qed.

Lemma Forall_lookup_base (vs : list view) p idx v :
  Forall (fun v => base v = p) vs -> vs !! idx = Some v -> base v = p.
Proof. intros H Hv. by apply (proj1 (Forall_lookup _ _) H idx v). Qed.

Lemma keeps__rotate self act :
  RubiksCube.cube self ≠ Some q ->
  keeps q x (RubiksCube._rotate cfg self act)
    (fun self' => RubiksCube.cube self' = RubiksCube.cube self).
Proof.
  intros Hq. unfold RubiksCube._rotate.
  eapply keeps_bind; [apply keeps_lift|]. intros p Hp.
  assert (p ≠ q) as Hpq by congruence.
  eapply keeps_bind; [apply keeps_lift|]. intros i _.
  eapply keeps_bind; [apply keeps_getitem|]. intros side_matrix _.
  eapply keeps_bind; [apply keeps_lift|]. intros cn _.
  eapply keeps_bind.
  { apply (keeps_mapM q x _ (fun v => base v = p)). intros s.
    eapply keeps_bind; [apply keeps_lift|]. intros j _. apply keeps_getitem. }
  intros mats Hmats.
  eapply keeps_bind; [apply keeps_view_value|]. intros m _.
  eapply keeps_bind; [apply keeps_lift|]. intros rotated _.
  eapply keeps_bind; [by apply keeps_setitem|]. intros _ _.
  eapply keeps_bind.
  { apply (keeps_foldM q x _ (fun _ => True)); [done|].
    intros prev idx _.
    eapply keeps_bind; [apply keeps_lift|]. intros va _.
    eapply keeps_bind; [apply keeps_lift|]. intros vb Hvb.
    eapply keeps_bind; [apply keeps_lift|]. intros ea _.
    eapply keeps_bind; [apply keeps_lift|]. intros eb _.
    apply keeps__edge_translation.
    assert (base vb = p) as ->; [|done].
    case_bool_decide.
    - eapply Forall_lookup_base; [|exact Hvb]. by apply Forall_reverse.
    - eapply Forall_lookup_base; [|exact Hvb]. done. }
  intros _ _. by apply keeps_ret.
Qed.

Lemma keeps__get_reward self :
  keeps q x (RubiksCube._get_reward cfg self) (fun _ => True).
Proof.
  unfold RubiksCube._get_reward.
  eapply keeps_bind.
  { apply (keeps_mapM q x _ (fun _ => True)). intros i.
    eapply keeps_bind; [apply keeps_lift|]. intros p _.
    eapply keeps_bind; [apply keeps_getitem|]. intros v _.
    eapply keeps_bind; [apply keeps_view_value|]. intros m _.
    by apply keeps_ret. }
  intros flags _. by apply keeps_ret.
Qed.

Lemma keeps_step self a :
  RubiksCube.cube self ≠ Some q ->
  keeps q x (RubiksCube.step cfg self a)
    (fun r => RubiksCube.cube (fst r) = RubiksCube.cube self
              /\ Some (fst (fst (snd r))) = RubiksCube.cube self).
Proof.
  intros Hq. unfold RubiksCube.step.
  eapply keeps_bind; [apply keeps_lift|]. intros act _.
  eapply keeps_bind; [by apply keeps__rotate|]. intros self' Hself'.
  eapply keeps_bind; [apply keeps_lift|]. intros state Hstate.
  eapply keeps_bind; [apply keeps__get_reward|]. intros reward _.
  eapply keeps_bind.
  { unfold RubiksCube.is_resolved.
    eapply keeps_bind; [apply keeps__get_reward|]. intros r _.
    apply (keeps_ret q x _ (fun _ => True)). done. }
  intros done _. apply keeps_ret. simpl. split; congruence.
Qed.

Lemma keeps__random_action :
  keeps q x (RubiksAction._random_action cfg) (fun _ => True).
Proof.
  unfold RubiksAction._random_action.
  eapply keeps_bind; [apply keeps_choice|]. intros s _.
  eapply keeps_bind; [apply keeps_choice|]. intros d _.
  destruct (String.append s d) as [|a [|b [|]]];
    try apply keeps_raise. by apply keeps_ret.
Qed.

Lemma keeps_action_init code :
  keeps q x (RubiksAction.__init__ cfg code) (fun _ => True).
Proof.
  unfold RubiksAction.__init__. destruct code; [by apply keeps_ret|].
  eapply keeps_bind; [apply keeps__random_action|]. intros; by apply keeps_ret.
Qed.

Lemma keeps_shuffle_cube self n :
  RubiksCube.cube self ≠ Some q ->
  keeps q x (RubiksCube.shuffle_cube cfg self n)
    (fun self' => RubiksCube.cube self' = RubiksCube.cube self).
Proof.
  intros Hq. unfold RubiksCube.shuffle_cube.
  apply (keeps_foldM q x _
           (fun s => RubiksCube.cube s = RubiksCube.cube self)); [done|].
  intros s _ Hs.
  eapply keeps_bind; [apply keeps_action_init|]. intros ra _.
  eapply keeps_bind; [apply keeps_lift|]. intros a _.
  eapply keeps_bind; [apply keeps__rotate; congruence|]. intros s' Hs'.
  apply keeps_ret. simpl. congruence.
Qed.

Lemma keeps__construct_cube self :
  keeps q x (RubiksCube._construct_cube cfg self) (fun p => p ≠ q).
Proof. unfold RubiksCube._construct_cube. apply keeps_alloc. Qed.

Lemma keeps_cube_init dim arg verbose shuffle :
  keeps q x (RubiksCube.__init__ cfg dim arg verbose shuffle)
    (fun self => RubiksCube.cube self ≠ Some q).
Proof.
  unfold RubiksCube.__init__.
  eapply keeps_bind.
  { instantiate (1 := fun self => RubiksCube.cube self ≠ Some q).
    destruct arg as [p|].
    - eapply keeps_bind; [apply keeps_isinstance|]. intros [|] _;
        [|by apply keeps_ret].
      eapply keeps_bind; [apply keeps_load|]. intros y _.
      repeat case_bool_decide.
      + eapply keeps_bind; [apply keeps_alloc|]. intros p' Hp'.
        apply keeps_ret. simpl. congruence.
      + eapply keeps_bind; [apply keeps_of_result|]. intros z _.
        eapply keeps_bind; [apply keeps_alloc|]. intros p' Hp'.
        apply keeps_ret. simpl. congruence.
      + by apply keeps_ret.
    - eapply keeps_bind; [apply keeps__construct_cube|]. intros p' Hp'.
      apply keeps_ret. simpl. congruence. }
  intros self Hself. destruct shuffle; [|by apply keeps_ret].
  eapply keeps_weaken; [by apply keeps_shuffle_cube|].
  intros s' Hs'. simpl in Hs'. congruence.
Qed.

Lemma keeps_probe_actions rubiks_1 state_2 acts :
  keeps q x (RubiksCube.probe_actions cfg rubiks_1 state_2 acts) (fun _ => True).
Proof.
  induction acts as [|act rest IH]; cbn [RubiksCube.probe_actions];
    [by apply keeps_ret|].
  eapply keeps_bind; [apply keeps_lift|]. intros c _.
  eapply keeps_bind; [apply keeps_cube_init|]. intros copy Hcopy.
  eapply keeps_bind; [apply keeps_action_init|]. intros ra _.
  eapply keeps_bind; [by apply keeps_step|]. intros r _.
  eapply keeps_bind; [apply keeps_load|]. intros y _.
  eapply keeps_bind; [apply keeps_load|]. intros z _.
  destruct (array_equal y z); [by apply keeps_ret | apply IH].
Qed.

Lemma keeps_get_action_from_two_states state_1 state_2 :
  keeps q x (RubiksCube.get_action_from_two_states cfg state_1 state_2)
    (fun _ => True).
Proof.
  unfold RubiksCube.get_action_from_two_states.
  eapply keeps_bind; [apply keeps_isinstance|]. intros ok1 _.
  eapply keeps_bind; [apply keeps_isinstance|]. intros ok2 _.
  destruct (negb (ok1 && ok2)); [apply keeps_raise|].
  eapply keeps_bind; [apply keeps_load|]. intros x1 _.
  eapply keeps_bind; [apply keeps_load|]. intros x2 _.
  destruct (negb _); [apply keeps_raise|].
  eapply keeps_bind; [apply keeps_cube_init|]. intros r1 _.
  apply keeps_probe_actions.
Qed.
End FrameEngine.

(** ** Ownership of arrays *)

Lemma isinstance_ok w q x :
  heap w !! q = Some x -> isinstance_ndarray q w = (Ok true, w).
Proof.
  intros Hq. unfold isinstance_ndarray. by rewrite bool_decide_eq_true_2 by eauto.
Qed.

Lemma keeps_run_steps cfg q x self ms :
  RubiksCube.cube self ≠ Some q ->
  keeps q x (run_steps cfg self ms) (fun _ => True).
Proof.
  intros Hq. unfold run_steps.
  eapply keeps_weaken.
  - apply (keeps_foldM q x _ (fun s => RubiksCube.cube s ≠ Some q)); [done|].
    intros s m Hs. eapply keeps_bind; [by apply keeps_step|].
    intros r [Hr _]. apply keeps_ret. congruence.
  - done.
Qed.

(** C10. An engine constructed from a caller's array of the raw shape
    holds a copy of it under a reference of its own; whatever is then done
    with the engine (construction with or without shuffle, any sequence of
    [step]s, succeeding or raising) leaves the caller's array as it was;
    and [get_action_from_two_states] leaves both arrays it is given as
    they were. *)
Theorem caller_arrays_unchanged cfg w q x :
  heap w !! q = Some x ->
  (forall dim verbose shuffle ms,
      heap (snd ((self <- RubiksCube.__init__ cfg dim (Some q) verbose shuffle ;;
                  run_steps cfg self ms) w)) !! q = Some x)
  /\ (forall dim verbose,
        shape x = [length (colors cfg); dim; dim] ->
        exists self p w',
          RubiksCube.__init__ cfg dim (Some q) verbose false w = (Ok self, w')
          /\ RubiksCube.cube self = Some p /\ p ≠ q
          /\ heap w' !! p = Some x /\ heap w' !! q = Some x)
  /\ (forall s,
        heap (snd (RubiksCube.get_action_from_two_states cfg q s w)) !! q = Some x
        /\ heap (snd (RubiksCube.get_action_from_two_states cfg s q w)) !! q = Some x).
Proof.
  intros Hq. split; [|split].
  - intros dim verbose shuffle ms.
    assert (keeps q x (self <- RubiksCube.__init__ cfg dim (Some q) verbose shuffle ;;
                       run_steps cfg self ms) (fun _ => True)) as H.
    { eapply keeps_bind; [apply keeps_cube_init|]. intros self Hself.
      by apply keeps_run_steps. }
    apply (H w Hq).
  - intros dim verbose Hshape.
    assert (fresh (dom (heap w)) ≠ q) as Hne.
    { intros Heq. pose proof (is_fresh (dom (heap w))) as Hf.
      rewrite Heq in Hf. apply Hf. apply elem_of_dom. eauto. }
    eexists _, (fresh (dom (heap w))), _. split.
    { unfold RubiksCube.__init__. norm_bind.
      rewrite (bind_ok _ _ _ _ _ (isinstance_ok w q x Hq)). cbv iota. norm_bind.
      rewrite (bind_ok _ _ _ _ _ (load_ok w q x Hq)).
      rewrite bool_decide_eq_true_2 by done. norm_bind.
      unfold alloc, bind, ret. reflexivity. }
    simpl. split; [done|]. split; [done|].
    split; [apply lookup_insert_eq | by rewrite lookup_insert_ne].
  - intros s. split.
    + apply (keeps_get_action_from_two_states cfg q x q s w Hq).
    + apply (keeps_get_action_from_two_states cfg q x s q w Hq).
Qed.

Lemma caller_arrays_unchanged_witness :
  (forall dim verbose shuffle ms,
      heap (snd ((self <- RubiksCube.__init__ std_conf dim (Some 7) verbose shuffle ;;
                  run_steps std_conf self ms) w0)) !! 7
      = Some (Arr3 6 3 3 numbered))
  /\ (forall dim verbose,
        shape (Arr3 6 3 3 numbered) = [length (colors std_conf); dim; dim] ->
        exists self p w',
          RubiksCube.__init__ std_conf dim (Some 7) verbose false w0 = (Ok self, w')
          /\ RubiksCube.cube self = Some p /\ p ≠ 7
          /\ heap w' !! p = Some (Arr3 6 3 3 numbered)
          /\ heap w' !! 7 = Some (Arr3 6 3 3 numbered))
  /\ (forall s,
        heap (snd (RubiksCube.get_action_from_two_states std_conf 7 s w0)) !! 7
        = Some (Arr3 6 3 3 numbered)
        /\ heap (snd (RubiksCube.get_action_from_two_states std_conf s 7 w0)) !! 7
           = Some (Arr3 6 3 3 numbered)).
Proof.
  apply (caller_arrays_unchanged std_conf w0 7 (Arr3 6 3 3 numbered)). reflexivity.
Defined.

(** *** Move inference (C2) *)

(** C2. On the solved cube of [dim] 2 and its successor under the legal
    move ['Fd'], [get_action_from_two_states] raises [AttributeError]: the
    engine it probes with is constructed as [RubiksCube(cube=...)], hence
    with the default [dim] 3, rejects the 2 x 2 faces and has no [cube]
    attribute when [step] runs. *)
Theorem inference_raises_off_dim_3 :
  fst (RubiksCube.get_action_from_two_states std_conf 0 1 w_dim2) = Raise AttributeError.
Proof. vm_compute. reflexivity. Qed.

(** The same for every configuration and every [dim] other than 3, as
    soon as there is a move to try. *)
Lemma inference_raises_in_general cfg w s1 s2 n a1 x2 :
  heap w !! s1 = Some (Arr3 (length (colors cfg)) n n a1) ->
  heap w !! s2 = Some x2 -> length (shape x2) = 3 ->
  n ≠ 3 -> RubiksCube.actions cfg ≠ [] ->
  exists e w', RubiksCube.get_action_from_two_states cfg s1 s2 w = (Raise e, w')
    /\ (e = AttributeError \/ e = AssertionError).
Proof.
  intros H1 H2 Hsh Hn Hacts.
  unfold RubiksCube.get_action_from_two_states.
  rewrite (bind_ok _ _ _ _ _ (isinstance_ok w s1 _ H1)).
  rewrite (bind_ok _ _ _ _ _ (isinstance_ok w s2 _ H2)). cbn [negb andb].
  rewrite (bind_ok _ _ _ _ _ (load_ok w s1 _ H1)).
  rewrite (bind_ok _ _ _ _ _ (load_ok w s2 _ H2)).
  rewrite bool_decide_eq_true_2 by (split; [done|exact Hsh]). cbn [negb].
  simpl List.last.
  unfold RubiksCube.__init__ at 1. norm_bind.
  rewrite (bind_ok _ _ _ _ _ (isinstance_ok w s1 _ H1)). cbv iota. norm_bind.
  rewrite (bind_ok _ _ _ _ _ (load_ok w s1 _ H1)).
  rewrite bool_decide_eq_true_2 by done. norm_bind.
  set (p := fresh (dom (heap w))).
  set (w1 := wstore w p (Arr3 (length (colors cfg)) n n a1)).
  rewrite (bind_ok _ _ w p w1) by reflexivity. norm_bind.
  destruct (RubiksCube.actions cfg) as [|act rest]; [done|].
  cbn [RubiksCube.probe_actions RubiksCube.cube lift]. norm_bind.
  assert (heap w1 !! p = Some (Arr3 (length (colors cfg)) n n a1)) as Hp
    by apply heap_wstore.
  unfold RubiksCube.__init__ at 1. norm_bind.
  rewrite (bind_ok _ _ _ _ _ (isinstance_ok w1 p _ Hp)). cbv iota. norm_bind.
  rewrite (bind_ok _ _ _ _ _ (load_ok w1 p _ Hp)).
  rewrite bool_decide_eq_false_2 by (simpl; congruence).
  rewrite bool_decide_eq_false_2 by (simpl; congruence).
  norm_bind. unfold RubiksAction.__init__ at 1. norm_bind.
  unfold RubiksCube.step. cbn [RubiksAction.action].
  destruct (RubiksAction._load_action cfg act) as [a|]; cbn [lift].
  - norm_bind. unfold RubiksCube._rotate. cbn [RubiksCube.cube lift].
    unfold bind, raise. eauto.
  - unfold bind, raise. eauto.
Qed.

(** On cubes of [dim] 3 the inference is right: the moves are tried face
    by face and, for each face, direction by direction, and each of the
    twelve moves of [std_conf] is recovered from the solved cube and its
    successor. *)
Example inference_on_dim_3 :
  RubiksCube.actions std_conf
  = ["Fd"; "Fi"; "Bd"; "Bi"; "Ud"; "Ui"; "Dd"; "Di"; "Ld"; "Li"; "Rd"; "Ri"]
  /\ forallb infers (RubiksCube.actions std_conf) = true.
Proof. split; vm_compute; reflexivity. Qed.

(** When no move leads from the first state to the second, the answer is
    [None] (on cubes of [dim] 3). *)
Example inference_none_on_dim_3 :
  fst (RubiksCube.get_action_from_two_states std_conf 0 1
         (World (<[0 := Arr3 6 3 3 (solved_cube 6 3)]>
                   (<[1 := Arr3 6 3 3 numbered]> ∅)) (fun k => k) 0))
  = Ok None.
Proof. vm_compute. reflexivity. Qed.

(** The example of the specification: on a solved cube ['Ui'] and then
    ['Ud'] give reward -1 and then +1 again. *)
Example up_and_back :
  exists self p w',
    RubiksCube.__init__ std_conf 3 None false false w0 = (Ok self, w')
    /\ RubiksCube.cube self = Some p
    /\ exists self1 self2 w1 w2,
         RubiksCube.step std_conf self
           (move {| RubiksAction.side := "U"; RubiksAction.direction := "i" |}) w'
         = (Ok (self1, (p, (-1)%Z, false)), w1)
         /\ RubiksCube.step std_conf self1
              (move {| RubiksAction.side := "U"; RubiksAction.direction := "d" |}) w1
            = (Ok (self2, (p, 1%Z, true)), w2)
         /\ heap w2 = heap w'.
Proof.
  eexists _, _, _. split; [vm_compute; reflexivity|]. split; [reflexivity|].
  eexists _, _, _, _. split; [vm_compute; reflexivity|].
  split; vm_compute; reflexivity.
Qed.

(** *** Reset and the move counter (C6) *)

(** C6. After one [step] and then [reset(shuffle=False)] the cube is the
    solved one but the move counter still reads 1: [reset] itself never
    assigns the counter, only [shuffle_cube] does. *)
Theorem reset_without_shuffle_keeps_counter :
  counter_of
    (fst ((r <- RubiksCube.step std_conf engine0
                  (move {| RubiksAction.side := "F"; RubiksAction.direction := "d" |}) ;;
           RubiksCube.reset std_conf (fst r) false) w0))
  = Some 1.
Proof. vm_compute. reflexivity. Qed.

(** In general [reset(shuffle=False)] installs a new solved cube and
    returns a reference to it, and leaves the counter as it finds it. *)
Lemma reset_without_shuffle cfg self w :
  config_ok cfg = true ->
  let p := fresh (dom (heap w)) in
  RubiksCube.reset cfg self false w
  = (Ok ({| RubiksCube.dim := RubiksCube.dim self;
            RubiksCube.verbose := RubiksCube.verbose self;
            RubiksCube.counter := RubiksCube.counter self;
            RubiksCube.cube := Some p |}, p),
     wstore w p (Arr3 (length (colors cfg)) (RubiksCube.dim self) (RubiksCube.dim self)
                   (solved_cube (length (colors cfg)) (RubiksCube.dim self)))).
Proof.
  intros Hcfg p. unfold RubiksCube.reset.
  rewrite (bind_ok _ _ _ _ _
             (_construct_cube_ok cfg self w (config_ok_palette cfg Hcfg))).
  reflexivity.
Qed.

(** With [shuffle] set the counter is 0 afterwards: every shuffle move
    sets it back. *)
Example reset_with_shuffle_zeroes_counter :
  counter_of
    (fst ((r <- RubiksCube.step std_conf engine0
                  (move {| RubiksAction.side := "F"; RubiksAction.direction := "d" |}) ;;
           RubiksCube.reset std_conf (fst r) true) w0))
  = Some 0.
Proof. vm_compute. reflexivity. Qed.

(** *** Move codes (C7) *)

Lemma _load_action_valid cfg code :
  (forall a b, code = String a (String b EmptyString) ->
     char a ∈ sides cfg -> char b ∈ directions cfg ->
     RubiksAction._load_action cfg code
     = Some {| RubiksAction.side := char a; RubiksAction.direction := char b |})
  /\ (~ valid_code cfg code -> RubiksAction._load_action cfg code = None).
Proof.
  split.
  - intros a b -> Ha Hb. unfold RubiksAction._load_action.
    by rewrite !bool_decide_eq_true_2 by done.
  - intros Hnv. unfold RubiksAction._load_action.
    destruct code as [|a [|b [|]]]; try done.
    destruct (bool_decide (char a ∈ sides cfg)) eqn:Ea; [|done].
    destruct (bool_decide (char b ∈ directions cfg)) eqn:Eb; [|done].
    exfalso. apply Hnv. exists a, b.
    apply bool_decide_eq_true in Ea, Eb. done.
Qed.

(** C7, the claim as stated fails: constructing a move from the code
    ['Zz'], whose symbols are not configured, raises nothing; it returns a
    move object whose [action] is [None]. *)
Lemma unknown_code_constructs :
  RubiksAction.__init__ std_conf (Some "Zz") w0
  = (Ok {| RubiksAction.action := None |}, w0)
  /\ ~ valid_code std_conf "Zz".
Proof.
  split; [reflexivity|].
  intros (a & b & [= <- <-] & Ha & _). vm_compute in Ha.
  repeat (apply elem_of_cons in Ha as [Ha | Ha]; [discriminate Ha|]).
  by apply elem_of_nil in Ha.
Qed.

(** C7, amended. Constructing a move from a code never raises.  For a
    two-character code of a configured face symbol and a configured
    direction symbol the move carries that (face, direction) pair; for
    every other code it carries [None], and the failure surfaces only when
    the move is used: [step] then stops with [AssertionError], leaving the
    store as it was. *)
Theorem move_construction cfg code w :
  RubiksAction.__init__ cfg (Some code) w
  = (Ok {| RubiksAction.action := RubiksAction._load_action cfg code |}, w)
  /\ (forall a b, code = String a (String b EmptyString) ->
        char a ∈ sides cfg -> char b ∈ directions cfg ->
        RubiksAction._load_action cfg code
        = Some {| RubiksAction.side := char a; RubiksAction.direction := char b |})
  /\ (~ valid_code cfg code ->
        RubiksAction._load_action cfg code = None
        /\ forall self w',
             RubiksCube.step cfg self {| RubiksAction.action := None |} w'
             = (Raise AssertionError, w')).
Proof.
  split; [reflexivity|]. destruct (_load_action_valid cfg code) as [Hv Hn].
  split; [exact Hv|]. intros Hnv. split; [by apply Hn | reflexivity].
Qed.

(** *** Initial states of an unexpected shape (C8) *)

(** C8, the claim as stated fails: constructing an engine of [dim] 3 from
    an array of shape (6, 2, 2) raises nothing; it returns an engine
    whose [cube] attribute is not set. *)
Lemma bad_shape_constructs :
  RubiksCube.__init__ std_conf 3 (Some 4) false false w_bad
  = (Ok {| RubiksCube.dim := 3; RubiksCube.verbose := false;
           RubiksCube.counter := 0; RubiksCube.cube := None |}, w_bad).
Proof. vm_compute. reflexivity. Qed.

(** C8, amended. Constructing an engine (without shuffle) from an array
    whose shape is neither [(colors, dim, dim)] nor
    [(colors, dim, dim, colors)] raises nothing: the engine is returned
    without a [cube] attribute and the store is as it was.  An array of
    the one-hot shape is decoded, cell by cell, to the position of the
    largest entry, into a new array the engine refers to. *)
Theorem init_from_array cfg dim verbose q x w :
  heap w !! q = Some x ->
  (shape x ≠ [length (colors cfg); dim; dim] ->
   shape x ≠ [length (colors cfg); dim; dim; length (colors cfg)] ->
   RubiksCube.__init__ cfg dim (Some q) verbose false w
   = (Ok {| RubiksCube.dim := dim; RubiksCube.verbose := verbose;
            RubiksCube.counter := 0; RubiksCube.cube := None |}, w))
  /\ (forall a,
        x = Arr4 (length (colors cfg)) dim dim (length (colors cfg)) a ->
        0 < length (colors cfg) ->
        let p := fresh (dom (heap w)) in
        RubiksCube.__init__ cfg dim (Some q) verbose false w
        = (Ok {| RubiksCube.dim := dim; RubiksCube.verbose := verbose;
                 RubiksCube.counter := 0; RubiksCube.cube := Some p |},
           wstore w p (Arr3 (length (colors cfg)) dim dim (decode_one_hot a)))).
Proof.
  intros Hq. split.
  - intros H3 H4. unfold RubiksCube.__init__. norm_bind.
    rewrite (bind_ok _ _ _ _ _ (isinstance_ok w q x Hq)). cbv iota. norm_bind.
    rewrite (bind_ok _ _ _ _ _ (load_ok w q x Hq)).
    rewrite !bool_decide_eq_false_2 by done. reflexivity.
  - intros a -> HK p. unfold RubiksCube.__init__. norm_bind.
    rewrite (bind_ok _ _ _ _ _ (isinstance_ok w q _ Hq)). cbv iota. norm_bind.
    rewrite (bind_ok _ _ _ _ _ (load_ok w q _ Hq)).
    rewrite bool_decide_eq_false_2 by (simpl; congruence).
    rewrite bool_decide_eq_true_2 by done. norm_bind.
    unfold RubiksCube.from_one_hot_cube.
    rewrite bool_decide_eq_false_2 by lia.
    reflexivity.
Qed.

Lemma init_from_array_witness :
  (shape (Arr3 6 2 2 (solved_cube 6 2)) ≠ [length (colors std_conf); 3; 3] ->
   shape (Arr3 6 2 2 (solved_cube 6 2))
   ≠ [length (colors std_conf); 3; 3; length (colors std_conf)] ->
   RubiksCube.__init__ std_conf 3 (Some 4) false false w_bad
   = (Ok {| RubiksCube.dim := 3; RubiksCube.verbose := false;
            RubiksCube.counter := 0; RubiksCube.cube := None |}, w_bad))
  /\ (forall a,
        Arr3 6 2 2 (solved_cube 6 2)
        = Arr4 (length (colors std_conf)) 3 3 (length (colors std_conf)) a ->
        0 < length (colors std_conf) ->
        let p := fresh (dom (heap w_bad)) in
        RubiksCube.__init__ std_conf 3 (Some 4) false false w_bad
        = (Ok {| RubiksCube.dim := 3; RubiksCube.verbose := false;
                 RubiksCube.counter := 0; RubiksCube.cube := Some p |},
           wstore w_bad p (Arr3 (length (colors std_conf)) 3 3 (decode_one_hot a)))).
Proof.
  apply (init_from_array std_conf 3 false 4 (Arr3 6 2 2 (solved_cube 6 2)) w_bad).
  reflexivity.
Defined.

(** A one-hot cube of [dim] 1 decodes to the solved cube. *)
Example one_hot_decodes :
  exists p w',
    RubiksCube.__init__ std_conf 1 (Some 4) false false w_hot
    = (Ok {| RubiksCube.dim := 1; RubiksCube.verbose := false;
             RubiksCube.counter := 0; RubiksCube.cube := Some p |}, w')
    /\ heap w' !! p = Some (Arr3 6 1 1 (solved_cube 6 1)).
Proof. eexists _, _. split; vm_compute; reflexivity. Qed.

(** *** Equality of engines (C9) *)

(** C9. Comparing an engine with an engine whose cube has the same
    content does not yield the boolean [True]: [self.cube == other.cube]
    is numpy's element-wise comparison and [__eq__] returns its array of
    booleans. *)
Theorem eq_returns_an_array :
  fst (RubiksCube.__eq__ engine0 (RubiksCube.ObjCube engine0) w0)
  = Ok (RubiksCube.PyBoolArray 6 3 3 (replicate 6 (replicate 3 (replicate 3 true)))).
Proof. vm_compute. reflexivity. Qed.

(** Whatever the two cubes hold, the comparison of two engines never
    yields a boolean; only the comparison with a value of another type
    does. *)
Lemma eq_never_a_bool self other w b :
  fst (RubiksCube.__eq__ self (RubiksCube.ObjCube other) w) ≠ Ok (RubiksCube.PyBool b).
Proof.
  unfold RubiksCube.__eq__, bind, lift, load, of_result, ret, raise.
  destruct (RubiksCube.cube self); simpl; [|done].
  destruct (RubiksCube.cube other); simpl; [|done].
  destruct (heap w !! l) as [y|]; simpl; [|done].
  destruct (heap w !! l0) as [z|]; simpl; [|done].
  unfold RubiksCube.np_eq. destruct y, z; simpl; try done.
  destruct (_ && _); done.
Qed.

Lemma eq_other_type self w :
  RubiksCube.__eq__ self RubiksCube.ObjOther w = (Ok (RubiksCube.PyBool false), w).
Proof. reflexivity. Qed.

(** * Further properties of the engine *)

(** ** The tables of the engine *)

Lemma dict_get_set {V} k k' (v : V) d :
  dict_get k (dict_set k' v d) = if bool_decide (k' = k) then Some v else dict_get k d.
Proof.
  induction d as [|[k0 v0] d IH]; simpl; [done|].
  repeat case_bool_decide; simplify_eq; simpl;
    repeat case_bool_decide; simplify_eq; try done.
Qed.

Lemma dict_index_from (l : list string) off acc k :
  dict_get k (fold_left (fun dct '(i, k) => dict_set k i dct)
                (imap (fun i x => (off + i, x)) l) acc)
  = match last_index k l with
    | Some j => Some (off + j)
    | None => dict_get k acc
    end.
Proof.
  revert off acc. induction l as [|x l IH]; intros off acc; simpl; [done|].
  rewrite (imap_ext _ (fun i y => (S off + i, y))). 2:{ intros. unfold compose. simpl. f_equal. lia. }
  rewrite IH. destruct (last_index k l) as [j|].
  - f_equal. lia.
  - rewrite dict_get_set. by destruct (bool_decide (x = k)).
Qed.

Lemma dict_index_get keys k :
  dict_get k (dict_index keys) = last_index k keys.
Proof.
  unfold dict_index.
  rewrite (imap_ext _ (fun i y => (0 + i, y)) keys) by done.
  rewrite dict_index_from. by destruct (last_index k keys).
Qed.

Lemma last_index_Some k l i :
  last_index k l = Some i ->
  l !! i = Some k /\ forall j, i < j -> l !! j ≠ Some k.
Proof.
  revert i. induction l as [|x l IH]; intros i; simpl; [done|].
  destruct (last_index k l) as [j|] eqn:E.
  - intros [= <-]. destruct (IH j eq_refl) as [H1 H2]. split; [done|].
    intros [|j'] Hj; [lia|]. simpl. apply H2. lia.
  - case_bool_decide; [|done]. intros [= <-]. subst. split; [done|].
    intros [|j'] Hj; [lia|]. simpl. intros Hin.
    clear IH Hj. revert j' Hin E. induction l as [|y l IHl]; intros j' Hin E; [done|].
    simpl in E. destruct (last_index k l) eqn:E'; [done|].
    case_bool_decide; [done|]. destruct j'; simpl in Hin; [congruence|].
    by eapply IHl.
Qed.

Lemma last_index_None k l : last_index k l = None <-> k ∉ l.
Proof.
  induction l as [|x l IH]; simpl.
  - split; [intros _; apply not_elem_of_nil|done].
  - rewrite not_elem_of_cons. destruct (last_index k l) as [j|].
    + split; [done|]. intros [_ H]. by apply IH in H.
    + case_bool_decide; subst.
      * split; [done|]. by intros [? _].
      * split; [|done]. intros _. split; [done|]. by apply IH.
Qed.

Lemma last_index_NoDup k l i :
  NoDup l -> l !! i = Some k -> last_index k l = Some i.
Proof.
  intros Hnd Hi. destruct (last_index k l) as [j|] eqn:E.
  - apply last_index_Some in E as [Hj _]. f_equal.
    by eapply NoDup_lookup.
  - apply last_index_None in E. by apply list_elem_of_lookup_2 in Hi.
Qed.

(** X1. The tables [index_colors], [index_sides] and [index_actions] are
    built by a dict comprehension over [enumerate]: a key that occurs in
    the list is mapped to the position of its last occurrence, a key that
    does not occur is missing (the lookup raises [KeyError]), and when the
    list has no repetition every position is recovered from its key. *)
Theorem index_table_lookup (keys : list string) (k : string) :
  (k ∈ keys ->
   exists i, dict_get k (dict_index keys) = Some i
     /\ keys !! i = Some k /\ forall j, i < j -> keys !! j ≠ Some k)
  /\ (k ∉ keys -> dict_get k (dict_index keys) = None)
  /\ (NoDup keys -> forall i, keys !! i = Some k -> dict_get k (dict_index keys) = Some i).
Proof.
  rewrite dict_index_get. split; [|split].
  - intros Hin. destruct (last_index k keys) as [i|] eqn:E.
    + exists i. split; [done|]. by apply last_index_Some.
    + by apply last_index_None in E.
  - by intros ?%last_index_None.
  - intros Hnd i Hi. by apply last_index_NoDup.
Qed.

Lemma actions_lookup cfg i j s d :
  sides cfg !! i = Some s -> directions cfg !! j = Some d ->
  RubiksCube.actions cfg !! (i * length (directions cfg) + j) = Some (String.append s d).
Proof.
  unfold RubiksCube.actions. generalize (sides cfg) as ss. intros ss. revert i.
  induction ss as [|s0 ss IH]; intros i Hs Hd; [done|]. simpl.
  destruct i as [|i]; simpl in *.
  - simplify_eq. rewrite lookup_app_l.
    + by rewrite list_lookup_fmap, Hd.
    + rewrite length_fmap. by eapply lookup_lt_Some.
  - rewrite lookup_app_r by (rewrite length_fmap; lia).
    rewrite length_fmap.
    replace (length (directions cfg) + i * length (directions cfg) + j
             - length (directions cfg)) with (i * length (directions cfg) + j) by lia.
    by apply IH.
Qed.

Lemma length_actions cfg :
  length (RubiksCube.actions cfg) = length (sides cfg) * length (directions cfg).
Proof.
  unfold RubiksCube.actions. induction (sides cfg) as [|s ss IH]; [done|].
  simpl. rewrite length_app, length_fmap, IH. done.
Qed.

(** X2. [actions] lists the moves face by face and, for each face,
    direction by direction: it has [len(sides) * len(directions)] entries
    and entry [i * len(directions) + j] is the symbol of face [i] followed
    by the symbol of direction [j]. *)
Theorem actions_table cfg :
  length (RubiksCube.actions cfg) = length (sides cfg) * length (directions cfg)
  /\ forall i j s d,
       sides cfg !! i = Some s -> directions cfg !! j = Some d ->
       RubiksCube.actions cfg !! (i * length (directions cfg) + j)
       = Some (String.append s d).
Proof. split; [apply length_actions|apply actions_lookup]. Qed.

(** ** Moves *)

(** X3. [str] of the move built from a code gives the code back when the
    code is known and raises [AttributeError] when it is not (the move
    then has no action); building a move from the [str] of a legal move
    gives the same move. *)
Theorem str_round_trip cfg code w :
  (m <- RubiksAction.__init__ cfg (Some code) ;; of_result (RubiksAction.__str__ m)) w
  = (match RubiksAction._load_action cfg code with
     | Some _ => Ok code
     | None => Raise AttributeError
     end, w)
  /\ forall act s,
       RubiksAction._load_action cfg code = Some act ->
       RubiksAction.__str__ (move act) = Ok s ->
       RubiksAction.__init__ cfg (Some s) w = (Ok (move act), w).
Proof.
  split.
  - unfold RubiksAction.__init__. rewrite bind_ret.
    unfold RubiksAction.__str__, of_result. cbn [RubiksAction.action].
    destruct (RubiksAction._load_action cfg code) as [act|] eqn:E; [|done].
    apply _load_action_Some in E as (_ & _ & ->). done.
  - intros act s Hact [= <-].
    destruct (_load_action_Some cfg code act Hact) as (_ & _ & <-).
    unfold RubiksAction.__init__, ret, move. by rewrite Hact.
Qed.

Lemma inverse_of_inverse cfg code act :
  config_ok cfg = true ->
  RubiksAction._load_action cfg code = Some act ->
  inverse_of (inverse_of act) = act /\ inverse_of act ≠ act.
Proof.
  intros Hcfg Hact.
  destruct (_load_action_Some cfg code act Hact) as (_ & Hd & _).
  apply (config_ok_direction cfg _ Hcfg) in Hd.
  destruct act as [s d]. unfold inverse_of. simpl in *.
  destruct Hd as [-> | ->]; simpl; split; congruence.
Qed.

(** X4. [get_inverse_action] raises [AttributeError] on a move without
    action; on a legal move it returns a different move, and taking the
    inverse twice gives the move back. *)
Theorem inverse_involution cfg w :
  RubiksAction.get_inverse_action cfg {| RubiksAction.action := None |} w
  = (Raise AttributeError, w)
  /\ forall code act,
       config_ok cfg = true ->
       RubiksAction._load_action cfg code = Some act ->
       (m <- RubiksAction.get_inverse_action cfg (move act) ;;
        RubiksAction.get_inverse_action cfg m) w
       = (Ok (move act), w)
       /\ RubiksAction.get_inverse_action cfg (move act) w ≠ (Ok (move act), w).
Proof.
  split; [done|]. intros code act Hcfg Hact.
  destruct (inverse_of_inverse cfg code act Hcfg Hact) as [Hinv Hne].
  pose proof (inverse_legal cfg Hcfg code act Hact) as Hleg.
  rewrite (bind_ok _ _ _ _ _ (get_inverse_action_ok cfg Hcfg code act Hact w)).
  rewrite (get_inverse_action_ok cfg Hcfg _ _ Hleg w). rewrite Hinv. split; [done|].
  rewrite (get_inverse_action_ok cfg Hcfg code act Hact w).
  intros E. apply Hne. unfold move in E. congruence.
Qed.

Lemma inverse_involution_witness :
  (m <- RubiksAction.get_inverse_action std_conf
          (move {| RubiksAction.side := "U"; RubiksAction.direction := "i" |}) ;;
   RubiksAction.get_inverse_action std_conf m) w0
  = (Ok (move {| RubiksAction.side := "U"; RubiksAction.direction := "i" |}), w0)
  /\ RubiksAction.get_inverse_action std_conf
       (move {| RubiksAction.side := "U"; RubiksAction.direction := "i" |}) w0
     ≠ (Ok (move {| RubiksAction.side := "U"; RubiksAction.direction := "i" |}), w0).
Proof.
  apply (proj2 (inverse_involution std_conf w0) "Ui");
    [apply std_conf_ok|reflexivity].
Defined.

Lemma choice_ok {A} (l : list A) w :
  l ≠ [] ->
  exists a, a ∈ l /\ choice l w = (Ok a, World (heap w) (rng w) (S (drawn w))).
Proof.
  intros Hl. unfold choice.
  destruct (l !! (rng w (drawn w) mod length l)) as [a|] eqn:E.
  - exists a. split; [by eapply list_elem_of_lookup_2|done].
  - apply lookup_ge_None in E. destruct l; [done|].
    pose proof (Nat.mod_upper_bound (rng w (drawn w)) (length (a :: l))).
    simpl in *. lia.
Qed.

Lemma choice_empty {A} w : choice (@nil A) w = (Raise IndexError, w).
Proof. done. Qed.

Lemma single_char s : String.length s = 1 -> exists a, s = char a.
Proof. destruct s as [|a [|]]; try done. by exists a. Qed.

Lemma config_ok_both cfg :
  config_ok cfg = true -> "d" ∈ directions cfg /\ "i" ∈ directions cfg.
Proof.
  unfold config_ok. intros H.
  apply andb_prop in H as [H _]. apply andb_prop in H as [H _].
  apply andb_prop in H as [_ H]. by apply bool_decide_eq_true in H.
Qed.

Lemma _random_action_ok cfg w :
  config_ok cfg = true -> symbols_ok cfg = true ->
  exists act code,
    RubiksAction._random_action cfg w
    = (Ok act, World (heap w) (rng w) (S (S (drawn w))))
    /\ RubiksAction._load_action cfg code = Some act.
Proof.
  intros Hcfg Hsym. apply andb_prop in Hsym as [Hne Hch].
  apply bool_decide_eq_true in Hne.
  destruct (choice_ok (sides cfg) w Hne) as (s & Hs & Hrun).
  assert (directions cfg ≠ []) as Hd.
  { destruct (config_ok_both cfg Hcfg) as [Hin _].
    intros E. rewrite E in Hin. by apply elem_of_nil in Hin. }
  set (w1 := World (heap w) (rng w) (S (drawn w))) in *.
  destruct (choice_ok (directions cfg) w1 Hd) as (d & Hdin & Hrun').
  rewrite forallb_forall in Hch.
  assert (exists a, s = char a) as [a ->].
  { apply single_char. apply list_elem_of_In, Hch in Hs.
    by apply bool_decide_eq_true in Hs. }
  assert (exists b, d = char b) as [b ->].
  { destruct (config_ok_direction cfg _ Hcfg Hdin) as [-> | ->]; by eexists. }
  exists {| RubiksAction.side := char a; RubiksAction.direction := char b |},
    (String a (String b EmptyString)).
  split.
  - unfold RubiksAction._random_action.
    rewrite (bind_ok _ _ _ _ _ Hrun), (bind_ok _ _ _ _ _ Hrun'). done.
  - unfold RubiksAction._load_action.
    by rewrite !bool_decide_eq_true_2.
Qed.

(** X5. [RubiksAction()] without a code draws a face and a direction:
    with no face configured it raises [IndexError]; when the faces are
    one-character symbols it yields a legal move, uses exactly two random
    numbers and touches no array. *)
Theorem random_action_legal cfg w :
  (sides cfg = [] -> RubiksAction.__init__ cfg None w = (Raise IndexError, w))
  /\ (config_ok cfg = true -> symbols_ok cfg = true ->
      exists act code,
        RubiksAction.__init__ cfg None w
        = (Ok (move act), World (heap w) (rng w) (S (S (drawn w))))
        /\ RubiksAction._load_action cfg code = Some act).
Proof.
  split.
  - intros E. unfold RubiksAction.__init__, RubiksAction._random_action.
    rewrite E. done.
  - intros Hcfg Hsym.
    destruct (_random_action_ok cfg w Hcfg Hsym) as (act & code & Hrun & Hact).
    exists act, code. split; [|done].
    unfold RubiksAction.__init__. by rewrite (bind_ok _ _ _ _ _ Hrun).
Qed.

(** ** Sequences of moves *)

Lemma _rotate_move cfg self w p a code act :
  config_ok cfg = true ->
  engine_at cfg self w p a ->
  RubiksAction._load_action cfg code = Some act ->
  RubiksCube._rotate cfg self act w
  = (Ok (bump self),
     wstore w p (Arr3 (length (colors cfg)) (RubiksCube.dim self) (RubiksCube.dim self)
                   (apply_move cfg act (RubiksCube.dim self) a))).
Proof.
  intros Hcfg (Hcube & Hp & Hwf & Hn) Hact.
  destruct (_load_action_Some cfg code act Hact) as (Hs & Hd & _).
  destruct (config_ok_entry cfg _ Hcfg Hs) as (t & Ht & He).
  pose proof (config_ok_direction cfg _ Hcfg Hd) as Hdir.
  rewrite (_rotate_ok cfg _ _ self act w p a _ _ _ _ _ _ Hn Hcube Hp Hwf He Hdir).
  unfold apply_move. by rewrite Ht.
Qed.

Lemma engine_at_move cfg self w p a code act :
  config_ok cfg = true ->
  engine_at cfg self w p a ->
  RubiksAction._load_action cfg code = Some act ->
  engine_at cfg (bump self)
    (wstore w p (Arr3 (length (colors cfg)) (RubiksCube.dim self) (RubiksCube.dim self)
                   (apply_move cfg act (RubiksCube.dim self) a)))
    p (apply_move cfg act (RubiksCube.dim self) a).
Proof.
  intros Hcfg (Hcube & Hp & Hwf & Hn) Hact.
  split; [done|]. split; [apply heap_wstore|]. split; [|done].
  by apply (wf_apply_move cfg Hcfg act _ a code).
Qed.

Lemma shuffle_from cfg n : forall k self w p a,
  config_ok cfg = true -> symbols_ok cfg = true ->
  engine_at cfg self w p a ->
  exists self' w' acts,
    foldM (fun self (_ : nat) =>
             random_action <- RubiksAction.__init__ cfg None ;;
             a <- lift AttributeError (RubiksAction.action random_action) ;;
             self <- RubiksCube._rotate cfg self a ;;
             ret {| RubiksCube.dim := RubiksCube.dim self;
                    RubiksCube.verbose := RubiksCube.verbose self;
                    RubiksCube.counter := 0;
                    RubiksCube.cube := RubiksCube.cube self |})
          self (seq k n) w
    = (Ok self', w')
    /\ Forall (legal cfg) acts /\ length acts = n
    /\ engine_at cfg self' w' p (moves_on cfg (RubiksCube.dim self) acts a)
    /\ cells_of (moves_on cfg (RubiksCube.dim self) acts a) ≡ₚ cells_of a
    /\ RubiksCube.dim self' = RubiksCube.dim self
    /\ RubiksCube.counter self' = match n with 0 => RubiksCube.counter self | S _ => 0 end
    /\ drawn w' = drawn w + 2 * n
    /\ rng w' = rng w.
Proof.
  induction n as [|n IH]; intros k self w p a Hcfg Hsym Heng.
  - exists self, w, []. simpl.
    split; [done|]. split; [done|]. split; [done|]. split; [done|].
    split; [done|]. split; [done|]. split; [done|]. split; [lia|done].
  - cbn [seq foldM].
    destruct (_random_action_ok cfg w Hcfg Hsym) as (act & code & Hrun & Hact).
    set (w1 := World (heap w) (rng w) (S (S (drawn w)))) in *.
    assert (engine_at cfg self w1 p a) as Heng1 by exact Heng.
    pose proof (_rotate_move cfg self w1 p a code act Hcfg Heng1 Hact) as Hrot.
    pose proof (engine_at_move cfg self w1 p a code act Hcfg Heng1 Hact) as Heng2.
    set (a1 := apply_move cfg act (RubiksCube.dim self) a) in *.
    set (w2 := wstore w1 p _) in *.
    assert (engine_at cfg (zeroed (bump self)) w2 p a1) as Heng3 by exact Heng2.
    destruct (IH (S k) _ _ _ _ Hcfg Hsym Heng3)
      as (self' & w' & acts & Hfold & Hleg & Hlen & Heng' & Hperm & Hdim & Hcnt & Hdr & Hrng).
    exists self', w', (act :: acts).
    split; [|split; [|split; [|split; [done|split; [|split; [done|split; [|split]]]]]]].
    + norm_bind. unfold RubiksAction.__init__ at 1. norm_bind.
      rewrite (bind_ok _ _ _ _ _ Hrun). norm_bind. cbn [RubiksAction.action lift].
      norm_bind. rewrite (bind_ok _ _ _ _ _ Hrot). norm_bind. exact Hfold.
    + constructor; [by exists code|done].
    + simpl. by rewrite Hlen.
    + etrans; [exact Hperm|]. subst a1.
      destruct Heng as (_ & _ & Hwf & Hn).
      by apply (apply_move_perm cfg Hcfg code act Hact).
    + destruct n; simpl in Hcnt; done.
    + rewrite Hdr. simpl. lia.
    + by rewrite Hrng.
Qed.

(** X6. [shuffle_cube(n)] on a well-formed engine succeeds: the engine
    stays on the same array, which then holds the cube after [n] legal
    moves, so it stays well-shaped and keeps its colours; [2 * n] random
    numbers are used, and the counter is 0 afterwards when [n > 0],
    whereas [shuffle_cube(0)] changes nothing, the counter included. *)
Theorem shuffle_cube_spec cfg self w p a n :
  config_ok cfg = true -> symbols_ok cfg = true ->
  engine_at cfg self w p a ->
  exists self' w' acts,
    RubiksCube.shuffle_cube cfg self n w = (Ok self', w')
    /\ Forall (legal cfg) acts /\ length acts = n
    /\ engine_at cfg self' w' p (moves_on cfg (RubiksCube.dim self) acts a)
    /\ cells_of (moves_on cfg (RubiksCube.dim self) acts a) ≡ₚ cells_of a
    /\ RubiksCube.dim self' = RubiksCube.dim self
    /\ RubiksCube.counter self' = match n with 0 => RubiksCube.counter self | S _ => 0 end
    /\ drawn w' = drawn w + 2 * n
    /\ (n = 0 -> self' = self /\ w' = w).
Proof.
  intros Hcfg Hsym Heng.
  destruct (shuffle_from cfg n 0 self w p a Hcfg Hsym Heng)
    as (self' & w' & acts & Hfold & Hleg & Hlen & Heng' & Hperm & Hdim & Hcnt & Hdr & _).
  exists self', w', acts. repeat (split; [done|]).
  intros ->. unfold RubiksCube.shuffle_cube in Hfold. simpl in Hfold.
  unfold ret in Hfold. by simplify_eq.
Qed.

Lemma dom_wstore w p x y :
  heap w !! p = Some y -> dom (heap (wstore w p x)) = dom (heap w).
Proof.
  intros Hp. simpl. rewrite dom_insert_L.
  apply (elem_of_dom_2 (D := gset loc)) in Hp.
  apply set_eq. intros z. rewrite elem_of_union, elem_of_singleton.
  split; [by intros [-> | ?]|by right].
Qed.

Lemma run_steps_ok cfg acts : forall self w p a,
  config_ok cfg = true ->
  engine_at cfg self w p a ->
  Forall (legal cfg) acts ->
  exists self' w',
    run_steps cfg self (move <$> acts) w = (Ok self', w')
    /\ engine_at cfg self' w' p (moves_on cfg (RubiksCube.dim self) acts a)
    /\ RubiksCube.counter self' = RubiksCube.counter self + length acts
    /\ RubiksCube.dim self' = RubiksCube.dim self
    /\ cells_of (moves_on cfg (RubiksCube.dim self) acts a) ≡ₚ cells_of a
    /\ w' = wstore w p (Arr3 (length (colors cfg)) (RubiksCube.dim self)
                          (RubiksCube.dim self)
                          (moves_on cfg (RubiksCube.dim self) acts a)).
Proof.
  induction acts as [|act acts IH]; intros self w p a Hcfg Heng Hleg.
  - exists self, w. simpl. split; [done|]. split; [done|]. split; [lia|].
    split; [done|]. split; [done|].
    destruct Heng as (_ & Hp & _). by rewrite (wstore_same w p _ Hp).
  - apply Forall_cons in Hleg as [[code Hact] Hleg].
    destruct (step_ok cfg Hcfg self w p a code act Heng Hact) as [Hstep Heng1].
    destruct (IH _ _ _ _ Hcfg Heng1 Hleg)
      as (self' & w' & Hrun & Heng' & Hcnt & Hdim & Hperm & Hw).
    exists self', w'. split; [|split; [done|split; [|split; [done|split]]]].
    + unfold run_steps in *. cbn [fmap list_fmap foldM]. norm_bind.
      rewrite (bind_ok _ _ _ _ _ Hstep). norm_bind. exact Hrun.
    + rewrite Hcnt. simpl. lia.
    + etrans; [exact Hperm|].
      destruct Heng as (_ & _ & Hwf & Hn).
      by apply (apply_move_perm cfg Hcfg code act Hact).
    + rewrite Hw. by rewrite wstore_wstore.
Qed.

(** X7. Any sequence of legal moves can be stepped through: every step
    succeeds, the engine stays on the same array, which then holds the
    moves applied in order, the counter has gone up by the number of
    moves, the colours are conserved and no array has been allocated. *)
Theorem run_steps_spec cfg acts self w p a :
  config_ok cfg = true ->
  engine_at cfg self w p a ->
  Forall (legal cfg) acts ->
  exists self' w',
    run_steps cfg self (move <$> acts) w = (Ok self', w')
    /\ engine_at cfg self' w' p (moves_on cfg (RubiksCube.dim self) acts a)
    /\ RubiksCube.counter self' = RubiksCube.counter self + length acts
    /\ RubiksCube.dim self' = RubiksCube.dim self
    /\ cells_of (moves_on cfg (RubiksCube.dim self) acts a) ≡ₚ cells_of a
    /\ dom (heap w') = dom (heap w).
Proof.
  intros Hcfg Heng Hleg.
  destruct (run_steps_ok cfg acts self w p a Hcfg Heng Hleg)
    as (self' & w' & Hrun & Heng' & Hcnt & Hdim & Hperm & ->).
  exists self', (wstore w p (Arr3 (length (colors cfg)) (RubiksCube.dim self)
                               (RubiksCube.dim self)
                               (moves_on cfg (RubiksCube.dim self) acts a))).
  repeat (split; [done|]).
  destruct Heng as (_ & Hp & _). by eapply dom_wstore.
Qed.

Lemma run_steps_spec_witness :
  exists self' w',
    run_steps std_conf engine0
      (move <$> [{| RubiksAction.side := "F"; RubiksAction.direction := "d" |};
                 {| RubiksAction.side := "U"; RubiksAction.direction := "i" |}]) w0
    = (Ok self', w')
    /\ engine_at std_conf self' w' 7
         (moves_on std_conf (RubiksCube.dim engine0)
            [{| RubiksAction.side := "F"; RubiksAction.direction := "d" |};
             {| RubiksAction.side := "U"; RubiksAction.direction := "i" |}] numbered)
    /\ RubiksCube.counter self' = RubiksCube.counter engine0 + 2
    /\ RubiksCube.dim self' = RubiksCube.dim engine0
    /\ cells_of (moves_on std_conf (RubiksCube.dim engine0)
                   [{| RubiksAction.side := "F"; RubiksAction.direction := "d" |};
                    {| RubiksAction.side := "U"; RubiksAction.direction := "i" |}] numbered)
       ≡ₚ cells_of numbered
    /\ dom (heap w') = dom (heap w0).
Proof.
  apply (run_steps_spec std_conf
           [{| RubiksAction.side := "F"; RubiksAction.direction := "d" |};
            {| RubiksAction.side := "U"; RubiksAction.direction := "i" |}]
           engine0 w0 7 numbered).
  - apply std_conf_ok.
  - apply engine0_ok.
  - repeat constructor; [by exists "Fd" | by exists "Ui"].
Defined.

(** X8. The state [step] returns is the engine's own array, not a
    snapshot: after a second step the reference returned by the first one
    shows the cube after both moves, and no array has been allocated; the
    property [state] hands out the same reference. *)
Theorem step_returns_alias cfg self w p a code1 act1 code2 act2 :
  config_ok cfg = true ->
  engine_at cfg self w p a ->
  RubiksAction._load_action cfg code1 = Some act1 ->
  RubiksAction._load_action cfg code2 = Some act2 ->
  exists self1 r1 d1 w1 self2 out2 w2,
    RubiksCube.step cfg self (move act1) w = (Ok (self1, (p, r1, d1)), w1)
    /\ RubiksCube.state self1 w1 = (Ok p, w1)
    /\ RubiksCube.step cfg self1 (move act2) w1 = (Ok (self2, out2), w2)
    /\ heap w2 !! p
       = Some (Arr3 (length (colors cfg)) (RubiksCube.dim self) (RubiksCube.dim self)
                 (apply_move cfg act2 (RubiksCube.dim self)
                    (apply_move cfg act1 (RubiksCube.dim self) a)))
    /\ dom (heap w2) = dom (heap w).
Proof.
  intros Hcfg Heng H1 H2.
  destruct (step_ok cfg Hcfg self w p a code1 act1 Heng H1) as [Hs1 Heng1].
  destruct (step_ok cfg Hcfg _ _ p _ code2 act2 Heng1 H2) as [Hs2 Heng2].
  eexists _, _, _, _, _, _, _. split; [exact Hs1|].
  split; [unfold RubiksCube.state; by rewrite (proj1 Heng1)|].
  split; [exact Hs2|]. split; [apply heap_wstore|].
  destruct Heng as (_ & Hp & _). destruct Heng1 as (_ & Hp1 & _).
  rewrite (dom_wstore _ _ _ _ Hp1). by rewrite (dom_wstore _ _ _ _ Hp).
Qed.

(** ** Reset *)

Lemma keeps_reset cfg q x self sh :
  keeps q x (RubiksCube.reset cfg self sh)
    (fun r => RubiksCube.cube (fst r) = Some (snd r) /\ snd r ≠ q).
Proof.
  unfold RubiksCube.reset.
  eapply keeps_bind; [apply keeps__construct_cube|]. intros p Hp. simpl in Hp.
  eapply keeps_bind.
  - destruct sh.
    + apply keeps_shuffle_cube. simpl. congruence.
    + apply (keeps_ret q x _ (fun s => RubiksCube.cube s = Some p)). done.
  - intros s Hs. simpl in Hs. eapply keeps_bind; [apply keeps_lift|].
    intros st Hst. simpl in Hst. apply keeps_ret. simpl. split; congruence.
Qed.

Lemma reset_result cfg self sh w self' st :
  fst (RubiksCube.reset cfg self sh w) = Ok (self', st) ->
  RubiksCube.cube self' = Some st.
Proof.
  unfold RubiksCube.reset, bind.
  destruct (RubiksCube._construct_cube cfg self w) as [[p|e] w1]; [|done].
  match goal with |- context [(if sh then ?m else ?m') w1] =>
    destruct ((if sh then m else m') w1) as [[s|e] w2] end; [|done].
  destruct (RubiksCube.cube s) as [q|] eqn:E; simpl; [|done].
  unfold ret. simpl. by intros [= <- <-].
Qed.

(** X9. [reset] never writes into an array that existed before the call,
    the engine's previous cube included: when it returns, the engine is on
    a reference that was not in use before, and that reference is the
    state returned. *)
Theorem reset_leaves_old_arrays cfg self sh w :
  (forall q x, heap w !! q = Some x ->
     heap (snd (RubiksCube.reset cfg self sh w)) !! q = Some x)
  /\ (forall self' st,
        fst (RubiksCube.reset cfg self sh w) = Ok (self', st) ->
        RubiksCube.cube self' = Some st /\ heap w !! st = None).
Proof.
  split.
  - intros q x Hq. by apply (keeps_reset cfg q x self sh).
  - intros self' st Hr. split; [by eapply reset_result|].
    destruct (heap w !! st) as [x|] eqn:E; [|done].
    destruct (keeps_reset cfg st x self sh w E) as [_ H].
    by destruct (H _ Hr) as [_ ?].
Qed.

(** X10. [reset] on an engine with a positive [dim] succeeds: the engine
    holds a new array of the right shape, which is the solved cube without
    shuffle and the solved cube after 100 legal moves with shuffle; the
    counter is 0 with shuffle and unchanged without; [dim] is kept. *)
Theorem reset_spec cfg self sh w :
  config_ok cfg = true -> symbols_ok cfg = true -> 0 < RubiksCube.dim self ->
  exists self' st w' acts,
    RubiksCube.reset cfg self sh w = (Ok (self', st), w')
    /\ Forall (legal cfg) acts
    /\ length acts = (if sh then 100 else 0)
    /\ engine_at cfg self' w' st
         (moves_on cfg (RubiksCube.dim self) acts
            (solved_cube (length (colors cfg)) (RubiksCube.dim self)))
    /\ heap w !! st = None
    /\ RubiksCube.dim self' = RubiksCube.dim self
    /\ RubiksCube.counter self' = (if sh then 0 else RubiksCube.counter self).
Proof.
  intros Hcfg Hsym Hn.
  pose proof (_construct_cube_ok cfg self w (config_ok_palette cfg Hcfg)) as Hc.
  set (p := fresh (dom (heap w))) in *.
  set (w1 := wstore w p _) in *.
  set (self1 := {| RubiksCube.dim := RubiksCube.dim self;
                   RubiksCube.verbose := RubiksCube.verbose self;
                   RubiksCube.counter := RubiksCube.counter self;
                   RubiksCube.cube := Some p |}).
  assert (heap w !! p = None) as Hfresh.
  { apply (not_elem_of_dom (D := gset loc)). apply is_fresh. }
  assert (engine_at cfg self1 w1 p
            (solved_cube (length (colors cfg)) (RubiksCube.dim self))) as Heng.
  { split; [done|]. split; [apply heap_wstore|]. split; [apply wf_solved_cube|done]. }
  unfold RubiksCube.reset. rewrite (bind_ok _ _ _ _ _ Hc). fold self1.
  destruct sh.
  - destruct (shuffle_from cfg 100 0 self1 w1 p _ Hcfg Hsym Heng)
      as (self' & w' & acts & Hfold & Hleg & Hlen & Heng' & _ & Hdim & Hcnt & _).
    exists self', p, w', acts.
    unfold RubiksCube.shuffle_cube. rewrite (bind_ok _ _ _ _ _ Hfold).
    rewrite (proj1 Heng'). cbn [lift]. rewrite bind_ret.
    repeat (split; [done|]). done.
  - exists self1, p, w1, [].
    rewrite bind_ret. cbn [RubiksCube.cube self1 lift]. rewrite bind_ret.
    repeat (split; [done|]). done.
Qed.

Lemma reset_spec_witness :
  exists self' st w' acts,
    RubiksCube.reset std_conf engine0 true w0 = (Ok (self', st), w')
    /\ Forall (legal std_conf) acts
    /\ length acts = 100
    /\ engine_at std_conf self' w' st
         (moves_on std_conf (RubiksCube.dim engine0) acts
            (solved_cube (length (colors std_conf)) (RubiksCube.dim engine0)))
    /\ heap w0 !! st = None
    /\ RubiksCube.dim self' = RubiksCube.dim engine0
    /\ RubiksCube.counter self' = 0.
Proof.
  apply (reset_spec std_conf engine0 true w0); [apply std_conf_ok|reflexivity|simpl; lia].
Defined.

(** ** What a move changes *)

Lemma entry_lookup (m : grid) r c row x :
  m !! r = Some row -> row !! c = Some x -> entry m r c = x.
Proof.
  intros Hr Hc. unfold entry.
  rewrite (nth_lookup_Some _ _ _ _ Hr). by rewrite (nth_lookup_Some _ _ _ _ Hc).
Qed.

Lemma entry_put_edge_off e n m v r c :
  wf_grid n m -> length v = n -> r < n -> c < n ->
  on_edge e n r c = false ->
  entry (put_edge e n m v) r c = entry m r c.
Proof.
  intros [Hlen Hrows] Hv Hr Hc Hoff.
  destruct (lookup_lt_is_Some_2 m r) as [row Hrow]; [lia|].
  assert (length row = n) as Hlr
    by (rewrite Forall_forall in Hrows; eapply Hrows, list_elem_of_lookup_2, Hrow).
  destruct (lookup_lt_is_Some_2 row c) as [x Hx]; [lia|].
  destruct (lookup_lt_is_Some_2 v r) as [y Hy]; [lia|].
  rewrite (entry_lookup m r c row x Hrow Hx).
  destruct e; simpl in *; apply bool_decide_eq_false in Hoff.
  - apply (entry_lookup _ r c (<[n - 1 := y]> row)).
    + unfold write_col. by rewrite lookup_zip_with, Hrow, Hy.
    + by rewrite list_lookup_insert_ne.
  - apply (entry_lookup _ r c (<[0 := y]> row)).
    + unfold write_col. by rewrite lookup_zip_with, Hrow, Hy.
    + by rewrite list_lookup_insert_ne.
  - apply (entry_lookup _ r c row); [|done].
    unfold write_row. by rewrite list_lookup_insert_ne.
  - apply (entry_lookup _ r c row); [|done].
    unfold write_row. by rewrite list_lookup_insert_ne.
Qed.

Lemma entry_quarter_centre n k m c :
  wf_grid n m -> (k = 1 \/ k = 3) -> n = 2 * c + 1 ->
  entry (quarter n k m) c c = entry m c c.
Proof.
  intros Hwf Hk ->. unfold quarter.
  destruct Hk as [-> | ->].
  - rewrite rot90_1_tab by done. rewrite entry_tab by lia. f_equal. lia.
  - rewrite rot90_3_tab by done. rewrite entry_tab by lia. f_equal. lia.
Qed.

Section TurnFrame.
Context (K n : nat) (Hn : 0 < n) (inv : list (edge * edge)).
Context (i : nat) (x0 x1 x2 x3 : nat * edge).
Context (Hi : i < K) (H0 : fst x0 < K) (H1 : fst x1 < K)
        (H2 : fst x2 < K) (H3 : fst x3 < K).
Context (Hnd : NoDup [i; fst x0; fst x1; fst x2; fst x3]).
Context (a : list grid) (Hwf : wf_cube K n a).
Context (backwards : bool).

Lemma turned_as_build :
  turned n inv i backwards x0 x1 x2 x3 a = build K
         (if backwards
          then cycled n inv x0 x3 x2 x1
                 (upd (fun j => a !!! j) i (quarter n 3 (a !!! i)))
          else cycled n inv x0 x1 x2 x3
                 (upd (fun j => a !!! j) i (quarter n 1 (a !!! i)))).
Proof using Hi H0 H1 H2 H3 Hnd Hwf.
  rewrite <- (turned_build K n inv i x0 x1 x2 x3 Hi H0 H1 H2 H3 Hnd).
  by rewrite (build_self K a (proj1 Hwf)).
Qed.

Lemma turned_other j :
  j < K -> j ∉ [i; fst x0; fst x1; fst x2; fst x3] -> turned n inv i backwards x0 x1 x2 x3 a !!! j = a !!! j.
Proof using Hi H0 H1 H2 H3 Hnd Hwf.
  intros Hj Hout. rewrite turned_as_build, build_lookup by done.
  rewrite !not_elem_of_cons in Hout. destruct Hout as (?&?&?&?&?&_).
  destruct backwards; unfold cycled, upd; repeat case_decide; done.
Qed.

Lemma turned_face :
  turned n inv i backwards x0 x1 x2 x3 a !!! i = quarter n (if backwards then 3 else 1) (a !!! i).
Proof using Hi H0 H1 H2 H3 Hnd Hwf.
  rewrite turned_as_build, build_lookup by done.
  destruct (NoDup5 _ _ _ _ _ Hnd) as [(?&?&?&?) _].
  destruct backwards; unfold cycled, upd; repeat case_decide; done.
Qed.

Lemma turned_neighbour x r c :
  x ∈ [x0; x1; x2; x3] -> r < n -> c < n -> on_edge (snd x) n r c = false ->
  entry (turned n inv i backwards x0 x1 x2 x3 a !!! fst x) r c = entry (a !!! fst x) r c.
Proof using All.
  intros Hx Hr Hc Hoff.
  assert (forall j, j < K -> wf_grid n (a !!! j)) as Hface.
  { intros j Hj. by destruct (wf_cube_lookup K n a j Hwf Hj) as (m & _ & -> & ?). }
  assert (fst x < K) as HxK.
  { rewrite !elem_of_cons in Hx. destruct Hx as [->|[->|[->|[->|Hx]]]]; try done.
    by apply elem_of_nil in Hx. }
  rewrite turned_as_build, build_lookup by done.
  destruct (NoDup5 _ _ _ _ _ Hnd) as [(?&?&?&?) Hnd4].
  destruct (NoDup4 _ _ _ _ Hnd4) as (?&?&?&?&?&?).
  rewrite !elem_of_cons in Hx.
  destruct backwards; unfold cycled, upd;
    destruct Hx as [->|[->|[->|[->|Hx]]]]; try (by apply elem_of_nil in Hx);
    repeat case_decide; try done; try lia;
    apply entry_put_edge_off; try done; auto;
    rewrite length_rv; apply length_get_edge; auto.
Qed.

End TurnFrame.

(** X11. A move leaves every face other than the turned one and its four
    neighbours as it was, only permutes the cells of the turned face among
    themselves, and changes a neighbour only on the edge the table
    names. *)
Theorem step_frame cfg self w p a code act :
  config_ok cfg = true ->
  engine_at cfg self w p a ->
  RubiksAction._load_action cfg code = Some act ->
  exists t self' out w' a',
    circuit_of cfg (RubiksAction.side act) = Some t
    /\ RubiksCube.step cfg self (move act) w = (Ok (self', out), w')
    /\ engine_at cfg self' w' p a'
    /\ (forall j, j < length (colors cfg) ->
          j ∉ [t_index t; fst (t_x0 t); fst (t_x1 t); fst (t_x2 t); fst (t_x3 t)] ->
          a' !!! j = a !!! j)
    /\ concat (a' !!! t_index t) ≡ₚ concat (a !!! t_index t)
    /\ (forall x r c,
          x ∈ [t_x0 t; t_x1 t; t_x2 t; t_x3 t] ->
          r < RubiksCube.dim self -> c < RubiksCube.dim self ->
          on_edge (snd x) (RubiksCube.dim self) r c = false ->
          entry (a' !!! fst x) r c = entry (a !!! fst x) r c).
Proof.
  intros Hcfg Heng Hact.
  destruct (step_ok cfg Hcfg self w p a code act Heng Hact) as [Hstep Heng'].
  destruct (_load_action_Some cfg code act Hact) as (Hs & Hd & _).
  destruct (config_ok_entry cfg _ Hcfg Hs) as (t & Ht & He).
  destruct Heng as (Hcube & Hp & Hwf & Hn).
  destruct He as [_ Hi _ (H0 & H1 & H2 & H3) Hnd].
  exists t. eexists _, _, _, _. split; [done|]. split; [exact Hstep|].
  split; [exact Heng'|]. unfold apply_move. rewrite Ht.
  split; [|split].
  - intros j Hj Hout. by apply (turned_other (length (colors cfg))).
  - rewrite (turned_face (length (colors cfg))) by done.
    destruct (wf_cube_lookup _ _ a _ Hwf Hi) as (m & _ & -> & Hm).
    apply quarter_perm; [done|]. destruct (bool_decide _); auto.
  - intros x r c Hx Hr Hc Hoff. by apply (turned_neighbour (length (colors cfg))).
Qed.

Lemma step_frame_witness :
  exists t self' out w' a',
    circuit_of std_conf "F" = Some t
    /\ RubiksCube.step std_conf engine0
         (move {| RubiksAction.side := "F"; RubiksAction.direction := "d" |}) w0
       = (Ok (self', out), w')
    /\ engine_at std_conf self' w' 7 a'
    /\ (forall j, j < length (colors std_conf) ->
          j ∉ [t_index t; fst (t_x0 t); fst (t_x1 t); fst (t_x2 t); fst (t_x3 t)] ->
          a' !!! j = numbered !!! j)
    /\ concat (a' !!! t_index t) ≡ₚ concat (numbered !!! t_index t)
    /\ (forall x r c,
          x ∈ [t_x0 t; t_x1 t; t_x2 t; t_x3 t] ->
          r < RubiksCube.dim engine0 -> c < RubiksCube.dim engine0 ->
          on_edge (snd x) (RubiksCube.dim engine0) r c = false ->
          entry (a' !!! fst x) r c = entry (numbered !!! fst x) r c).
Proof.
  apply (step_frame std_conf engine0 w0 7 numbered "Fd"
           {| RubiksAction.side := "F"; RubiksAction.direction := "d" |});
    [apply std_conf_ok|apply engine0_ok|reflexivity].
Defined.

(** X12. On a cube of odd [dim] >= 3 no move changes the centre cell of
    any face. *)
Theorem step_keeps_centres cfg self w p a code act c :
  config_ok cfg = true ->
  engine_at cfg self w p a ->
  RubiksAction._load_action cfg code = Some act ->
  RubiksCube.dim self = 2 * c + 1 -> 1 <= c ->
  exists self' out w' a',
    RubiksCube.step cfg self (move act) w = (Ok (self', out), w')
    /\ engine_at cfg self' w' p a'
    /\ forall j, j < length (colors cfg) -> entry (a' !!! j) c c = entry (a !!! j) c c.
Proof.
  intros Hcfg Heng Hact Hdim Hc.
  destruct (step_ok cfg Hcfg self w p a code act Heng Hact) as [Hstep Heng'].
  destruct (_load_action_Some cfg code act Hact) as (Hs & Hd & _).
  destruct (config_ok_entry cfg _ Hcfg Hs) as (t & Ht & He).
  destruct Heng as (Hcube & Hp & Hwf & Hn).
  destruct He as [_ Hi _ (H0 & H1 & H2 & H3) Hnd].
  eexists _, _, _, _. split; [exact Hstep|]. split; [exact Heng'|].
  unfold apply_move. rewrite Ht. intros j Hj.
  destruct (decide (j = t_index t)) as [-> | Hji].
  { rewrite (turned_face (length (colors cfg))) by done.
    destruct (wf_cube_lookup _ _ a _ Hwf Hi) as (m & _ & -> & Hm).
    apply entry_quarter_centre; [done| |done]. destruct (bool_decide _); auto. }
  destruct (decide (j ∈ [fst (t_x0 t); fst (t_x1 t); fst (t_x2 t); fst (t_x3 t)]))
    as [Hin | Hout].
  - assert (exists x, x ∈ [t_x0 t; t_x1 t; t_x2 t; t_x3 t] /\ j = fst x) as (x & Hx & ->).
    { rewrite !elem_of_cons in Hin.
      destruct Hin as [->|[->|[->|[->|Hin]]]]; [..|by apply elem_of_nil in Hin];
        eexists; (split; [|reflexivity]); rewrite !elem_of_cons; auto. }
    apply (turned_neighbour (length (colors cfg))); try done; try lia.
    destruct (snd x); simpl; apply bool_decide_eq_false; lia.
  - rewrite (turned_other (length (colors cfg))); try done.
    rewrite not_elem_of_cons. done.
Qed.

Lemma step_keeps_centres_witness :
  exists self' out w' a',
    RubiksCube.step std_conf engine0
      (move {| RubiksAction.side := "R"; RubiksAction.direction := "i" |}) w0
    = (Ok (self', out), w')
    /\ engine_at std_conf self' w' 7 a'
    /\ forall j, j < length (colors std_conf) ->
         entry (a' !!! j) 1 1 = entry (numbered !!! j) 1 1.
Proof.
  apply (step_keeps_centres std_conf engine0 w0 7 numbered "Ri"
           {| RubiksAction.side := "R"; RubiksAction.direction := "i" |} 1);
    [apply std_conf_ok|apply engine0_ok|reflexivity|reflexivity|lia].
Defined.

(** ** Rejected actions and the cube of [dim] 0 *)

Lemma index_sides_None cfg s :
  s ∉ sides cfg -> dict_get s (RubiksCube.index_sides cfg) = None.
Proof.
  intros Hs. unfold RubiksCube.index_sides. rewrite dict_index_get.
  by apply last_index_None.
Qed.

Lemma rotate_prefix cfg K n self act w p a i x0 x1 x2 x3 inv :
  RubiksCube.cube self = Some p ->
  heap w !! p = Some (Arr3 K n n a) -> wf_cube K n a ->
  table_entry cfg K (RubiksAction.side act) i x0 x1 x2 x3 inv ->
  exists m cn,
    a !! i = Some m /\ wf_grid n m
    /\ connexions cfg !! RubiksAction.side act = Some cn
    /\ c_inversions cn = inv
    /\ RubiksCube._rotate cfg self act w
       = (let mats := [View p (fst x0); View p (fst x1); View p (fst x2);
                       View p (fst x3); View p (fst x0)] in
          let edges := [snd x0; snd x1; snd x2; snd x3; snd x0] in
          let mats := if bool_decide (RubiksAction.direction act = "i")
                      then reverse mats else mats in
          let edges := if bool_decide (RubiksAction.direction act = "i")
                       then reverse edges else edges in
          rotated <- lift TypeError
                       (RubiksCube._rotate_helper (Matrix n n m)
                          (RubiksAction.direction act)) ;;
          _ <- setitem p i rotated ;;
          _ <- foldM
                 (fun previous_array idx =>
                    a <- lift IndexError (mats !! idx) ;;
                    b <- lift IndexError (mats !! (idx + 1)) ;;
                    ea <- lift IndexError (edges !! idx) ;;
                    eb <- lift IndexError (edges !! (idx + 1)) ;;
                    RubiksCube._edge_translation cfg (RubiksAction.side act)
                      a b ea eb true previous_array)
                 None (seq 0 (length mats - 1)) ;;
          ret (bump self)) w.
Proof.
  intros Hcube Hp Hwf [Hi HiK (s0 & s1 & s2 & s3 & Hcn & Hs0 & Hs1 & Hs2 & Hs3)
                           (H0 & H1 & H2 & H3) Hnd].
  destruct (wf_cube_lookup K n a i Hwf HiK) as (m & Hm & Htm & Hwm).
  eexists m, _. split; [done|]. split; [done|]. split; [exact Hcn|]. split; [done|].
  unfold RubiksCube._rotate. rewrite Hcube, Hi, Hcn.
  cbn [lift c_sides c_edges mapM]. norm_bind.
  rewrite (bind_ok _ _ _ _ _ (getitem_ok w p K n n a Hp i HiK)). norm_bind.
  simpl c_sides. simpl c_edges. cbn [mapM]. norm_bind.
  rewrite Hs0, Hs1, Hs2, Hs3. cbn [lift]. norm_bind.
  rewrite (bind_ok _ _ _ _ _ (getitem_ok w p K n n a Hp _ H0)). norm_bind.
  rewrite (bind_ok _ _ _ _ _ (getitem_ok w p K n n a Hp _ H1)). norm_bind.
  rewrite (bind_ok _ _ _ _ _ (getitem_ok w p K n n a Hp _ H2)). norm_bind.
  rewrite (bind_ok _ _ _ _ _ (getitem_ok w p K n n a Hp _ H3)). norm_bind.
  rewrite (bind_ok _ _ _ _ _ (getitem_ok w p K n n a Hp _ H0)). norm_bind.
  rewrite (bind_ok _ _ _ _ _ (view_value_ok w p K n n a Hp i m Hm)).
  unfold bump. rewrite Hcube. reflexivity.
Qed.

(** X13. [step] with an action that did not come out of the constructor:
    on an engine without cube it raises [AttributeError]; when the face is
    not configured it raises [KeyError]; when the face is configured but
    the direction is neither ['d'] nor ['i'] it raises [TypeError].  In
    all three cases nothing has been written. *)
Theorem step_rejects cfg self w act :
  (RubiksCube.cube self = None ->
   RubiksCube.step cfg self (move act) w = (Raise AttributeError, w))
  /\ (forall p, RubiksCube.cube self = Some p ->
        RubiksAction.side act ∉ sides cfg ->
        RubiksCube.step cfg self (move act) w = (Raise KeyError, w))
  /\ (forall p a, config_ok cfg = true -> engine_at cfg self w p a ->
        RubiksAction.side act ∈ sides cfg ->
        RubiksAction.direction act ≠ "d" -> RubiksAction.direction act ≠ "i" ->
        RubiksCube.step cfg self (move act) w = (Raise TypeError, w)).
Proof.
  split; [|split].
  - intros Hc. unfold RubiksCube.step, move. cbn [RubiksAction.action lift].
    rewrite bind_ret. unfold RubiksCube._rotate. rewrite Hc. done.
  - intros p Hc Hs. unfold RubiksCube.step, move. cbn [RubiksAction.action lift].
    rewrite bind_ret. unfold RubiksCube._rotate.
    rewrite Hc, (index_sides_None cfg _ Hs). done.
  - intros p a Hcfg (Hcube & Hp & Hwf & Hn) Hs Hd Hi.
    destruct (config_ok_entry cfg _ Hcfg Hs) as (t & Ht & He).
    destruct (rotate_prefix cfg _ _ self act w p a _ _ _ _ _ _ Hcube Hp Hwf He)
      as (m & cn & _ & _ & _ & _ & Hrun).
    unfold RubiksCube.step, move. cbn [RubiksAction.action lift]. rewrite bind_ret.
    unfold bind at 1. rewrite Hrun. cbv zeta.
    unfold RubiksCube._rotate_helper.
    rewrite !bool_decide_eq_false_2 by done. done.
Qed.

Lemma wf_grid_0 m : wf_grid 0 m -> m = [].
Proof. intros [H _]. by destruct m. Qed.

Lemma step_dim_0 cfg self w p a code act :
  config_ok cfg = true ->
  RubiksCube.cube self = Some p ->
  heap w !! p = Some (Arr3 (length (colors cfg)) 0 0 a) ->
  wf_cube (length (colors cfg)) 0 a ->
  RubiksAction._load_action cfg code = Some act ->
  RubiksCube.step cfg self (move act) w = (Raise IndexError, w).
Proof.
  intros Hcfg Hcube Hp Hwf Hact.
  destruct (_load_action_Some cfg code act Hact) as (Hs & Hd & _).
  destruct (config_ok_entry cfg _ Hcfg Hs) as (t & Ht & He).
  pose proof (config_ok_direction cfg _ Hcfg Hd) as Hdir.
  destruct (rotate_prefix cfg _ _ self act w p a _ _ _ _ _ _ Hcube Hp Hwf He)
    as (m & cn & Hm & Hwm & Hcn & _ & Hrun).
  apply wf_grid_0 in Hwm as ->.
  destruct He as [_ HiK _ (H0 & H1 & H2 & H3) _].
  assert (forall j, j < length (colors cfg) -> a !! j = Some []) as Hface.
  { intros j Hj. destruct (wf_cube_lookup _ _ a j Hwf Hj) as (m & Hj' & _ & Hm').
    by apply wf_grid_0 in Hm' as ->. }
  assert (forall g, cells g = [] -> nrows g = 0 -> ncols g = 0 ->
            setitem p (t_index t) g w = (Ok tt, w)) as Hset.
  { intros g Hg Hr Hc.
    rewrite (setitem_ok w p _ 0 0 a Hp (t_index t) g HiK Hr Hc).
    rewrite Hg, (list_insert_id _ _ _ Hm). by rewrite (wstore_same w p _ Hp). }
  assert (forall f e, f < length (colors cfg) ->
            view_getitem (View p f) (RubiksCube._edge_to_slice e) w
            = (Raise IndexError, w)) as Hget.
  { intros f e Hf. unfold view_getitem. cbn [base face].
    rewrite (bind_ok _ _ _ _ _ (load_ok w p _ Hp)). rewrite (Hface f Hf).
    cbn [lift]. rewrite bind_ret. by destruct e. }
  unfold RubiksCube.step, move. cbn [RubiksAction.action lift]. rewrite bind_ret.
  unfold bind at 1. rewrite Hrun. cbv zeta.
  unfold RubiksCube._rotate_helper.
  destruct Hdir as [-> | ->].
  - rewrite bool_decide_eq_true_2 by done. rewrite bool_decide_eq_false_2 by done.
    cbn [lift]. rewrite bind_ret.
    rewrite (bind_ok _ _ _ _ _ (Hset (rot90 (Matrix 0 0 []) 1) eq_refl eq_refl eq_refl)).
    cbn [length Nat.sub seq foldM lookup list_lookup Nat.add lift]. norm_bind.
    unfold RubiksCube._edge_translation at 1. norm_bind.
    rewrite (bind_raise _ _ _ _ _ (Hget _ _ H0)). done.
  - rewrite bool_decide_eq_false_2 by done. rewrite !bool_decide_eq_true_2 by done.
    cbn [lift]. rewrite bind_ret.
    rewrite (bind_ok _ _ _ _ _ (Hset (rot90 (Matrix 0 0 []) 3) eq_refl eq_refl eq_refl)).
    cbn [length Nat.sub seq foldM lookup list_lookup Nat.add lift reverse rev_append].
    norm_bind.
    unfold RubiksCube._edge_translation at 1. norm_bind.
    rewrite (bind_raise _ _ _ _ _ (Hget _ _ H0)). done.
Qed.

(** X14. A cube of [dim] 0 can be constructed and counts as solved, but
    no move can be made on it: [step] with any legal move raises
    [IndexError] and leaves the store as it was. *)
Theorem dim_zero_cube cfg w :
  config_ok cfg = true ->
  exists self w',
    RubiksCube.__init__ cfg 0 None false false w = (Ok self, w')
    /\ RubiksCube.is_resolved cfg self w' = (Ok true, w')
    /\ forall code act,
         RubiksAction._load_action cfg code = Some act ->
         RubiksCube.step cfg self (move act) w' = (Raise IndexError, w').
Proof.
  intros Hcfg. set (p := fresh (dom (heap w))).
  set (self := {| RubiksCube.dim := 0; RubiksCube.verbose := false;
                  RubiksCube.counter := 0; RubiksCube.cube := Some p |}).
  set (w' := wstore w p (Arr3 (length (colors cfg)) 0 0
                           (solved_cube (length (colors cfg)) 0))).
  exists self, w'. split; [apply (__init___fresh cfg 0 w Hcfg)|].
  assert (heap w' !! p = Some (Arr3 (length (colors cfg)) 0 0
                                 (solved_cube (length (colors cfg)) 0))) as Hp
    by apply heap_wstore.
  split.
  - rewrite (is_resolved_ok cfg self w' p _ 0 _ (config_ok_palette cfg Hcfg) eq_refl Hp
               (proj1 (wf_solved_cube _ _))).
    by rewrite solvedb_solved_cube.
  - intros code act Hact.
    by apply (step_dim_0 cfg self w' p _ code act Hcfg eq_refl Hp (wf_solved_cube _ _)).
Qed.

Lemma dim_zero_cube_witness :
  exists self w',
    RubiksCube.__init__ std_conf 0 None false false w0 = (Ok self, w')
    /\ RubiksCube.is_resolved std_conf self w' = (Ok true, w')
    /\ forall code act,
         RubiksAction._load_action std_conf code = Some act ->
         RubiksCube.step std_conf self (move act) w' = (Raise IndexError, w').
Proof. apply (dim_zero_cube std_conf w0). apply std_conf_ok. Defined.

(** ** Inference on cubes of [dim] 3 *)

Lemma __init___copy cfg dim verbose q x w :
  heap w !! q = Some x -> shape x = [length (colors cfg); dim; dim] ->
  RubiksCube.__init__ cfg dim (Some q) verbose false w
  = (Ok {| RubiksCube.dim := dim; RubiksCube.verbose := verbose;
           RubiksCube.counter := 0; RubiksCube.cube := Some (fresh (dom (heap w))) |},
     wstore w (fresh (dom (heap w))) x).
Proof.
  intros Hq Hsh. unfold RubiksCube.__init__. norm_bind.
  rewrite (bind_ok _ _ _ _ _ (isinstance_ok w q _ Hq)). cbv iota. norm_bind.
  rewrite (bind_ok _ _ _ _ _ (load_ok w q _ Hq)).
  rewrite bool_decide_eq_true_2 by done. norm_bind. reflexivity.
Qed.

Lemma fresh_heap w q x : heap w !! q = Some x -> q ≠ fresh (dom (heap w)).
Proof.
  intros Hq E. apply (elem_of_dom_2 (D := gset loc)) in Hq.
  rewrite E in Hq. by apply is_fresh in Hq.
Qed.

Lemma probe_actions_ok cfg p s2 a1 x2 acts : forall w,
  config_ok cfg = true ->
  wf_cube (length (colors cfg)) 3 a1 ->
  heap w !! p = Some (Arr3 (length (colors cfg)) 3 3 a1) ->
  heap w !! s2 = Some x2 ->
  Forall (fun code => is_Some (RubiksAction._load_action cfg code)) acts ->
  exists w',
    RubiksCube.probe_actions cfg
      {| RubiksCube.dim := 3; RubiksCube.verbose := false;
         RubiksCube.counter := 0; RubiksCube.cube := Some p |} s2 acts w
    = (Ok (find_move cfg a1 x2 acts), w').
Proof.
  induction acts as [|code acts IH]; intros w Hcfg Hwf Hp H2 Hall.
  - by exists w.
  - apply Forall_cons in Hall as [[act Hact] Hall].
    cbn [RubiksCube.probe_actions RubiksCube.cube lift find_move]. norm_bind.
    rewrite Hact.
    rewrite (bind_ok _ _ _ _ _ (__init___copy cfg 3 false p _ w Hp eq_refl)).
    set (p' := fresh (dom (heap w))).
    set (w1 := wstore w p' _).
    unfold RubiksAction.__init__ at 1. norm_bind. rewrite Hact.
    assert (engine_at cfg
              {| RubiksCube.dim := 3; RubiksCube.verbose := false;
                 RubiksCube.counter := 0; RubiksCube.cube := Some p' |} w1 p' a1)
      as Heng.
    { split; [done|]. split; [apply heap_wstore|]. split; [done|simpl; lia]. }
    destruct (step_ok cfg Hcfg _ w1 p' a1 code act Heng Hact) as [Hstep _].
    fold (move act). rewrite (bind_ok _ _ _ _ _ Hstep). cbn [fst snd RubiksCube.dim].
    set (a' := apply_move cfg act 3 a1). set (w2 := wstore w1 p' _).
    assert (p ≠ p') as Hpp by (by eapply fresh_heap).
    assert (s2 ≠ p') as Hsp by (by eapply fresh_heap).
    rewrite (bind_ok _ _ _ _ _ (load_ok w2 p' _ (heap_wstore _ _ _))).
    assert (heap w2 !! s2 = Some x2) as H2'
      by (subst w2 w1; by rewrite !heap_wstore_ne).
    assert (heap w2 !! p = Some (Arr3 (length (colors cfg)) 3 3 a1)) as Hp'
      by (subst w2 w1; by rewrite !heap_wstore_ne).
    rewrite (bind_ok _ _ _ _ _ (load_ok w2 s2 _ H2')).
    destruct (array_equal _ x2); [by eexists|].
    by apply IH.
Qed.

Lemma legal_in_actions cfg code act :
  RubiksAction._load_action cfg code = Some act -> code ∈ RubiksCube.actions cfg.
Proof.
  intros Hact. destruct (_load_action_Some cfg code act Hact) as (Hs & Hd & ->).
  unfold RubiksCube.actions. apply list_elem_of_In, in_flat_map.
  exists (RubiksAction.side act). split; [by apply list_elem_of_In|].
  apply list_elem_of_In, list_elem_of_fmap. by eexists.
Qed.

Lemma actions_loadable cfg :
  config_ok cfg = true ->
  forallb (fun s => bool_decide (String.length s = 1)) (sides cfg) = true ->
  Forall (fun code => is_Some (RubiksAction._load_action cfg code))
    (RubiksCube.actions cfg).
Proof.
  intros Hcfg Hch. rewrite forallb_forall in Hch.
  apply Forall_forall. intros code Hin.
  unfold RubiksCube.actions in Hin.
  apply list_elem_of_In, in_flat_map in Hin as (s & Hs & Hin).
  apply list_elem_of_In, list_elem_of_fmap in Hin as (d & -> & Hd).
  destruct (single_char s) as [a ->].
  { specialize (Hch s Hs). by apply bool_decide_eq_true in Hch. }
  apply list_elem_of_In in Hs.
  assert (exists b, d = char b) as [b ->].
  { destruct (config_ok_direction cfg _ Hcfg Hd) as [-> | ->]; by eexists. }
  simpl. unfold RubiksAction._load_action.
  rewrite !bool_decide_eq_true_2 by done. by eexists.
Qed.

Lemma find_move_Some cfg a1 x2 codes m :
  find_move cfg a1 x2 codes = Some m ->
  exists code act,
    code ∈ codes /\ RubiksAction._load_action cfg code = Some act /\ m = move act
    /\ x2 = Arr3 (length (colors cfg)) 3 3 (apply_move cfg act 3 a1).
Proof.
  induction codes as [|code codes IH]; cbn [find_move]; [done|].
  destruct (RubiksAction._load_action cfg code) as [act|] eqn:E; [|done].
  destruct (array_equal (Arr3 (length (colors cfg)) 3 3 (apply_move cfg act 3 a1)) x2)
    eqn:Heq.
  - intros Hm. injection Hm as Hm. subst m. exists code, act. split; [left|]. split; [done|]. split; [done|].
    destruct x2; simpl in Heq; try done.
    apply andb_prop in Heq as [H1 H2].
    apply bool_decide_eq_true in H1, H2. by simplify_eq.
  - intros H. destruct (IH H) as (c & a & Hin & ?). exists c, a. split; [by right|done].
Qed.

Lemma find_move_None cfg a1 x2 codes :
  Forall (fun code => is_Some (RubiksAction._load_action cfg code)) codes ->
  find_move cfg a1 x2 codes = None ->
  forall code act,
    code ∈ codes -> RubiksAction._load_action cfg code = Some act ->
    x2 ≠ Arr3 (length (colors cfg)) 3 3 (apply_move cfg act 3 a1).
Proof.
  induction codes as [|code codes IH]; intros Hall Hfind c act Hin Hact.
  - by apply elem_of_nil in Hin.
  - apply Forall_cons in Hall as [[act0 Hact0] Hall]. cbn [find_move] in Hfind.
    rewrite Hact0 in Hfind.
    destruct (array_equal (Arr3 (length (colors cfg)) 3 3 (apply_move cfg act0 3 a1)) x2)
      eqn:Heq; [done|].
    apply elem_of_cons in Hin as [-> | Hin]; [|by eapply IH].
    rewrite Hact0 in Hact. injection Hact as <-. intros ->.
    simpl in Heq. by rewrite !bool_decide_eq_true_2 in Heq.
Qed.

(** X15. On cubes of [dim] 3, with faces named by one character,
    [get_action_from_two_states] returns: a move it answers is a legal
    move that leads from the first state to the second, and it answers
    [None] only if no legal move does. *)
Theorem inference_dim_3 cfg w s1 s2 a1 x2 :
  config_ok cfg = true ->
  forallb (fun s => bool_decide (String.length s = 1)) (sides cfg) = true ->
  heap w !! s1 = Some (Arr3 (length (colors cfg)) 3 3 a1) ->
  wf_cube (length (colors cfg)) 3 a1 ->
  heap w !! s2 = Some x2 -> length (shape x2) = 3 ->
  exists r w',
    RubiksCube.get_action_from_two_states cfg s1 s2 w = (Ok r, w')
    /\ (forall m, r = Some m ->
          exists code act,
            RubiksAction._load_action cfg code = Some act /\ m = move act
            /\ x2 = Arr3 (length (colors cfg)) 3 3 (apply_move cfg act 3 a1))
    /\ (r = None ->
          forall code act,
            RubiksAction._load_action cfg code = Some act ->
            x2 ≠ Arr3 (length (colors cfg)) 3 3 (apply_move cfg act 3 a1)).
Proof.
  intros Hcfg Hch H1 Hwf H2 Hsh.
  pose proof (actions_loadable cfg Hcfg Hch) as Hall.
  unfold RubiksCube.get_action_from_two_states.
  rewrite (bind_ok _ _ _ _ _ (isinstance_ok w s1 _ H1)).
  rewrite (bind_ok _ _ _ _ _ (isinstance_ok w s2 _ H2)). cbn [negb andb].
  rewrite (bind_ok _ _ _ _ _ (load_ok w s1 _ H1)).
  rewrite (bind_ok _ _ _ _ _ (load_ok w s2 _ H2)).
  rewrite bool_decide_eq_true_2 by (split; [done|exact Hsh]). cbn [negb].
  simpl List.last.
  rewrite (bind_ok _ _ _ _ _ (__init___copy cfg 3 false s1 _ w H1 eq_refl)).
  set (p := fresh (dom (heap w))). set (w1 := wstore w p _).
  assert (s2 ≠ p) as Hsp by (by eapply fresh_heap).
  destruct (probe_actions_ok cfg p s2 a1 x2 (RubiksCube.actions cfg) w1 Hcfg Hwf
              (heap_wstore _ _ _)) as [w' Hrun]; [|done|].
  { subst w1. by rewrite heap_wstore_ne. }
  exists (find_move cfg a1 x2 (RubiksCube.actions cfg)), w'. split; [done|]. split.
  - intros m Hm. destruct (find_move_Some _ _ _ _ _ Hm) as (code & act & _ & ? & ? & ?).
    by exists code, act.
  - intros Hnone code act Hact.
    eapply find_move_None; [exact Hall|exact Hnone| |exact Hact].
    by eapply legal_in_actions.
Qed.

Lemma inference_dim_3_witness :
  exists r w',
    RubiksCube.get_action_from_two_states std_conf 0 1 w_pair = (Ok r, w')
    /\ (forall m, r = Some m ->
          exists code act,
            RubiksAction._load_action std_conf code = Some act /\ m = move act
            /\ Arr3 6 3 3 numbered
               = Arr3 (length (colors std_conf)) 3 3
                   (apply_move std_conf act 3 (solved_cube 6 3)))
    /\ (r = None ->
          forall code act,
            RubiksAction._load_action std_conf code = Some act ->
            Arr3 6 3 3 numbered
            ≠ Arr3 (length (colors std_conf)) 3 3
                (apply_move std_conf act 3 (solved_cube 6 3))).
Proof.
  apply (inference_dim_3 std_conf w_pair 0 1 (solved_cube 6 3) (Arr3 6 3 3 numbered));
    [apply std_conf_ok|reflexivity|reflexivity|apply wf_solved_cube
    |reflexivity|reflexivity].
Defined.

(** ** One-hot encoding *)

Lemma argmax_from_indicator t m : forall i best besti,
  (best = 0 \/ best = 1)%Z ->
  argmax_from best besti i
    ((fun k => if bool_decide (Z.of_nat k = t) then 1%Z else 0%Z) <$> seq i m)
  = if bool_decide (best = 0%Z /\ (Z.of_nat i <= t < Z.of_nat (i + m))%Z)
    then Z.to_nat t else besti.
Proof.
  induction m as [|m IH]; intros i best besti Hb; simpl.
  - rewrite bool_decide_eq_false_2; [done|lia].
  - destruct (decide (Z.of_nat i = t)) as [Hit | Hit].
    + rewrite (bool_decide_eq_true_2 (Z.of_nat i = t)) by done.
      destruct Hb as [-> | ->].
      * rewrite (bool_decide_eq_true_2 (0 < 1)%Z) by lia. rewrite IH by auto.
        rewrite bool_decide_eq_false_2 by lia.
        rewrite bool_decide_eq_true_2 by lia. lia.
      * rewrite (bool_decide_eq_false_2 (1 < 1)%Z) by lia. rewrite IH by auto.
        rewrite !bool_decide_eq_false_2 by lia. done.
    + rewrite (bool_decide_eq_false_2 (Z.of_nat i = t)) by done.
      rewrite (bool_decide_eq_false_2 (best < 0)%Z) by lia. rewrite IH by auto.
      rewrite (bool_decide_ext
                 (best = 0%Z /\ (Z.of_nat (S i) <= t < Z.of_nat (S i + m))%Z)
                 (best = 0%Z /\ (Z.of_nat i <= t < Z.of_nat (i + S m))%Z)) by lia.
      done.
Qed.

Lemma argmax_one_hot K z :
  argmax (one_hot K z) = if bool_decide (0 <= z < Z.of_nat K)%Z then Z.to_nat z else 0.
Proof.
  unfold one_hot. destruct K as [|K]; simpl.
  - rewrite bool_decide_eq_false_2; [done|lia].
  - destruct (decide (0%Z = z)) as [H0 | H0].
    + rewrite (bool_decide_eq_true_2 (0%Z = z)) by done.
      subst z. rewrite argmax_from_indicator by auto.
      rewrite bool_decide_eq_false_2 by lia. rewrite bool_decide_eq_true_2 by lia. done.
    + rewrite (bool_decide_eq_false_2 (0%Z = z)) by done.
      rewrite argmax_from_indicator by auto.
      case_bool_decide; case_bool_decide; try lia; done.
Qed.

Lemma decode_encode K (a : list grid) :
  in_range K a ->
  fmap (M := list) (fmap (M := list) (fmap (M := list) (fun v => Z.of_nat (argmax v))))
    (fmap (M := list) (fmap (M := list) (fmap (M := list) (one_hot K))) a)
  = a.
Proof.
  intros Ha.
  induction Ha as [|g a Hg _ IHa]; [done|]. rewrite !fmap_cons. f_equal; [|done].
  clear IHa. induction Hg as [|row g Hrow _ IHg]; [done|].
  rewrite !fmap_cons. f_equal; [|done].
  clear IHg. induction Hrow as [|z row Hz _ IHrow]; [done|].
  rewrite !fmap_cons. f_equal; [|done].
  rewrite argmax_one_hot. rewrite bool_decide_eq_true_2 by done. lia.
Qed.

Lemma decode_encode_any K (a : list grid) :
  fmap (M := list) (fmap (M := list) (fmap (M := list) (fun v => Z.of_nat (argmax v))))
    (fmap (M := list) (fmap (M := list) (fmap (M := list) (one_hot K))) a)
  = fmap (M := list) (fmap (M := list) (fmap (M := list)
      (fun z => if bool_decide (0 <= z < Z.of_nat K)%Z then z else 0%Z))) a.
Proof.
  induction a as [|g a IHa]; [done|]. rewrite !fmap_cons. f_equal; [|done].
  clear IHa. induction g as [|row g IHg]; [done|].
  rewrite !fmap_cons. f_equal; [|done].
  clear IHg. induction row as [|z row IHrow]; [done|].
  rewrite !fmap_cons. f_equal; [|done].
  rewrite argmax_one_hot. case_bool_decide; lia.
Qed.

(** X16. [to_one_hot_cube] of a raw cube has one more axis, of length
    [len(colors)]; [from_one_hot_cube] of it is the cube with every cell
    that is not a colour index replaced by 0, hence the cube itself when
    all its cells are colour indices. *)
Theorem one_hot_round_trip cfg k r c a :
  0 < length (colors cfg) ->
  shape (RubiksCube.to_one_hot_cube cfg (Arr3 k r c a)) = [k; r; c; length (colors cfg)]
  /\ RubiksCube.from_one_hot_cube (RubiksCube.to_one_hot_cube cfg (Arr3 k r c a))
     = Ok (Arr3 k r c
             (fmap (M := list) (fmap (M := list) (fmap (M := list)
                (fun z => if bool_decide (0 <= z < Z.of_nat (length (colors cfg)))%Z
                          then z else 0%Z))) a))
  /\ (in_range (length (colors cfg)) a ->
      RubiksCube.from_one_hot_cube (RubiksCube.to_one_hot_cube cfg (Arr3 k r c a))
      = Ok (Arr3 k r c a)).
Proof.
  intros HK. split; [done|].
  unfold RubiksCube.to_one_hot_cube, RubiksCube.from_one_hot_cube.
  rewrite bool_decide_eq_false_2 by lia. split.
  - do 2 f_equal. apply decode_encode_any.
  - intros Hr. do 2 f_equal. by apply decode_encode.
Qed.

Lemma one_hot_round_trip_witness :
  shape (RubiksCube.to_one_hot_cube std_conf (Arr3 6 3 3 (solved_cube 6 3)))
  = [6; 3; 3; length (colors std_conf)]
  /\ RubiksCube.from_one_hot_cube
       (RubiksCube.to_one_hot_cube std_conf (Arr3 6 3 3 (solved_cube 6 3)))
     = Ok (Arr3 6 3 3
             (fmap (M := list) (fmap (M := list) (fmap (M := list)
                (fun z => if bool_decide (0 <= z < Z.of_nat (length (colors std_conf)))%Z
                          then z else 0%Z))) (solved_cube 6 3)))
  /\ (in_range (length (colors std_conf)) (solved_cube 6 3) ->
      RubiksCube.from_one_hot_cube
        (RubiksCube.to_one_hot_cube std_conf (Arr3 6 3 3 (solved_cube 6 3)))
      = Ok (Arr3 6 3 3 (solved_cube 6 3))).
Proof. apply (one_hot_round_trip std_conf 6 3 3 (solved_cube 6 3)). simpl. lia. Defined.

(** X17. An engine constructed from the [state_one_hot] of another engine
    whose cells are colour indices holds a copy of that engine's cube
    under a reference of its own; the other engine's array is not
    touched. *)
Theorem init_from_state_one_hot cfg other w p a :
  0 < length (colors cfg) ->
  engine_at cfg other w p a ->
  in_range (length (colors cfg)) a ->
  exists q w1 self w2 p',
    RubiksCube.state_one_hot cfg other w = (Ok q, w1)
    /\ RubiksCube.__init__ cfg (RubiksCube.dim other) (Some q) false false w1
       = (Ok self, w2)
    /\ engine_at cfg self w2 p' a
    /\ p' ≠ p /\ q ≠ p
    /\ heap w2 !! p = heap w !! p.
Proof.
  intros HK (Hcube & Hp & Hwf & Hn) Hr.
  set (K := length (colors cfg)) in *. set (n := RubiksCube.dim other) in *.
  set (q := fresh (dom (heap w))).
  set (hot := Arr4 K n n K
                (fmap (M := list) (fmap (M := list) (fmap (M := list) (one_hot K))) a)).
  set (w1 := wstore w q hot).
  assert (RubiksCube.state_one_hot cfg other w = (Ok q, w1)) as Hs.
  { unfold RubiksCube.state_one_hot. rewrite Hcube. cbn [lift]. rewrite bind_ret.
    rewrite (bind_ok _ _ _ _ _ (load_ok w p _ Hp)). reflexivity. }
  assert (heap w1 !! q = Some hot) as Hq by apply heap_wstore.
  assert (p ≠ q) as Hpq by (by eapply fresh_heap).
  set (p' := fresh (dom (heap w1))).
  assert (p ≠ p') as Hpp.
  { eapply (fresh_heap w1). subst w1. rewrite heap_wstore_ne by done. exact Hp. }
  exists q, w1,
    {| RubiksCube.dim := n; RubiksCube.verbose := false;
       RubiksCube.counter := 0; RubiksCube.cube := Some p' |},
    (wstore w1 p' (Arr3 K n n a)), p'.
  split; [done|]. split.
  - unfold RubiksCube.__init__. norm_bind.
    rewrite (bind_ok _ _ _ _ _ (isinstance_ok w1 q _ Hq)). cbv iota. norm_bind.
    rewrite (bind_ok _ _ _ _ _ (load_ok w1 q _ Hq)).
    rewrite bool_decide_eq_false_2 by done.
    rewrite bool_decide_eq_true_2 by done.
    assert (RubiksCube.from_one_hot_cube hot = Ok (Arr3 K n n a)) as ->.
    { subst hot. unfold RubiksCube.from_one_hot_cube.
      rewrite bool_decide_eq_false_2 by lia. do 2 f_equal. by apply decode_encode. }
    norm_bind. change (of_result (Ok (Arr3 K n n a))) with (ret (Arr3 K n n a)).
    norm_bind. reflexivity.
  - split.
    + split; [done|]. split; [apply heap_wstore|]. done.
    + split; [done|]. split; [done|].
      rewrite heap_wstore_ne by done. subst w1. by rewrite heap_wstore_ne.
Qed.

Lemma argmax_from_lt v : forall best besti i,
  besti < i -> argmax_from best besti i v < i + length v.
Proof.
  induction v as [|x v IH]; intros best besti i Hi; simpl; [lia|].
  case_bool_decide.
  - specialize (IH x i (S i)). lia.
  - specialize (IH best besti (S i)). lia.
Qed.

Lemma argmax_lt v : v ≠ [] -> argmax v < length v.
Proof.
  destruct v as [|x v]; [done|]. intros _. simpl.
  pose proof (argmax_from_lt v x 0 1). lia.
Qed.

(** X18. [from_one_hot_cube] raises [ValueError] when the last axis is
    empty; otherwise every cell of its result is an index into that axis,
    whatever numbers the input holds. *)
Theorem decode_in_range k r c h a :
  (h = 0 -> RubiksCube.from_one_hot_cube (Arr4 k r c h a) = Raise ValueError)
  /\ (0 < h ->
      Forall (Forall (Forall (fun v => length v = h))) a ->
      exists b, RubiksCube.from_one_hot_cube (Arr4 k r c h a) = Ok (Arr3 k r c b)
        /\ in_range h b).
Proof.
  split.
  - intros ->. done.
  - intros Hh Ha. eexists. split.
    + unfold RubiksCube.from_one_hot_cube. rewrite bool_decide_eq_false_2 by lia. done.
    + unfold in_range.
      induction Ha as [|g a Hg _ IHa]; [done|]. rewrite fmap_cons.
      constructor; [|done]. clear IHa.
      induction Hg as [|row g Hrow _ IHg]; [done|]. rewrite fmap_cons.
      constructor; [|done]. clear IHg.
      induction Hrow as [|v row Hv _ IHrow]; [done|]. rewrite fmap_cons.
      constructor; [|done].
      assert (v ≠ []) as Hne by (intros ->; simpl in Hv; lia).
      pose proof (argmax_lt v Hne). lia.
Qed.

Lemma init_from_state_one_hot_witness :
  exists q w1 self w2 p',
    RubiksCube.state_one_hot std_conf engine0 w_solved = (Ok q, w1)
    /\ RubiksCube.__init__ std_conf (RubiksCube.dim engine0) (Some q) false false w1
       = (Ok self, w2)
    /\ engine_at std_conf self w2 p' (solved_cube 6 3)
    /\ p' ≠ 7 /\ q ≠ 7
    /\ heap w2 !! 7 = heap w_solved !! 7.
Proof.
  apply (init_from_state_one_hot std_conf engine0 w_solved 7 (solved_cube 6 3)).
  - simpl. lia.
  - split; [reflexivity|]. split; [reflexivity|].
    split; [apply wf_solved_cube|simpl; lia].
  - unfold in_range. simpl. repeat (constructor; try lia).
Defined.

(** X19. With reversal flags that are symmetric and even around each
    cycle, three steps with a move leave the store as one step with its
    inverse does and return the same state, reward and done flag; only the
    counters differ, 3 against 1. *)
Theorem three_turns_are_the_inverse cfg self w p a code act :
  config_ok cfg = true -> table_sym cfg = true -> table_even cfg = true ->
  engine_at cfg self w p a ->
  RubiksAction._load_action cfg code = Some act ->
  exists self3 selfi out w',
    (r1 <- RubiksCube.step cfg self (move act) ;;
     r2 <- RubiksCube.step cfg (fst r1) (move act) ;;
     RubiksCube.step cfg (fst r2) (move act)) w
    = (Ok (self3, out), w')
    /\ (m <- RubiksAction.get_inverse_action cfg (move act) ;;
        RubiksCube.step cfg self m) w
       = (Ok (selfi, out), w')
    /\ RubiksCube.counter self3 = RubiksCube.counter self + 3
    /\ RubiksCube.counter selfi = RubiksCube.counter self + 1.
Proof.
  intros Hcfg Hsym Heven Heng Hact.
  pose proof (inverse_legal cfg Hcfg code act Hact) as Hleg.
  destruct (step_ok cfg Hcfg self w p a code act Heng Hact) as [Hs1 Heng1].
  destruct (step_ok cfg Hcfg _ _ p _ code act Heng1 Hact) as [Hs2 Heng2].
  destruct (step_ok cfg Hcfg _ _ p _ code act Heng2 Hact) as [Hs3 Heng3].
  destruct (step_ok cfg Hcfg self w p a _ _ Heng Hleg) as [Hsi _].
  set (n := RubiksCube.dim self) in *.
  assert (apply_move cfg (inverse_of act) n a
          = apply_move cfg act n (apply_move cfg act n (apply_move cfg act n a))) as E.
  { destruct Heng as (_ & _ & Hwf & Hn). destruct Heng3 as (_ & _ & Hwf3 & _).
    simpl in Hwf3. fold n in Hwf3.
    rewrite <- (apply_move_inverse cfg Hcfg code act Hact n Hn _ Hwf3 Hsym).
    by rewrite (apply_move_four cfg Hcfg code act Hact n Hn a Hwf Heven). }
  eexists _, _, _, _. split; [|split; [|split]].
  - rewrite (bind_ok _ _ _ _ _ Hs1). cbn [fst].
    rewrite (bind_ok _ _ _ _ _ Hs2). cbn [fst].
    rewrite Hs3. simpl RubiksCube.dim. fold n. rewrite !wstore_wstore. reflexivity.
  - rewrite (bind_ok _ _ _ _ _ (get_inverse_action_ok cfg Hcfg code act Hact w)).
    rewrite Hsi. fold n. rewrite E. reflexivity.
  - simpl. lia.
  - simpl. lia.
Qed.

Lemma three_turns_are_the_inverse_witness :
  exists self3 selfi out w',
    (r1 <- RubiksCube.step std_conf engine0
             (move {| RubiksAction.side := "L"; RubiksAction.direction := "d" |}) ;;
     r2 <- RubiksCube.step std_conf (fst r1)
             (move {| RubiksAction.side := "L"; RubiksAction.direction := "d" |}) ;;
     RubiksCube.step std_conf (fst r2)
       (move {| RubiksAction.side := "L"; RubiksAction.direction := "d" |})) w0
    = (Ok (self3, out), w')
    /\ (m <- RubiksAction.get_inverse_action std_conf
               (move {| RubiksAction.side := "L"; RubiksAction.direction := "d" |}) ;;
        RubiksCube.step std_conf engine0 m) w0
       = (Ok (selfi, out), w')
    /\ RubiksCube.counter self3 = RubiksCube.counter engine0 + 3
    /\ RubiksCube.counter selfi = RubiksCube.counter engine0 + 1.
Proof.
  apply (three_turns_are_the_inverse std_conf engine0 w0 7 numbered "Ld"
           {| RubiksAction.side := "L"; RubiksAction.direction := "d" |});
    [apply std_conf_ok|apply std_conf_sym|apply std_conf_even|apply engine0_ok
    |reflexivity].
Defined.

Lemma stretch_id {A} n (l : list A) : length l = n -> RubiksCube.stretch n l = l.
Proof. intros <-. by destruct l as [|? [|]]. Qed.

Lemma bdim_same n : RubiksCube.bdim n n = n.
Proof. unfold RubiksCube.bdim. by case_bool_decide. Qed.

Lemma compatible_same n : RubiksCube.compatible n n = true.
Proof. unfold RubiksCube.compatible. by rewrite bool_decide_eq_true_2. Qed.

Lemma forallb_zip_with {A B} (W : A -> Prop) (f : A -> A -> B) (P : B -> bool) :
  (forall u v, W u -> W v -> (P (f u v) = true <-> u = v)) ->
  forall l l', Forall W l -> Forall W l' -> length l = length l' ->
    (forallb P (zip_with f l l') = true <-> l = l').
Proof.
  intros Hf l. induction l as [|u l IH]; intros [|v l'] Hl Hl' Hlen; try done.
  apply Forall_cons in Hl as [Hu Hl]. apply Forall_cons in Hl' as [Hv Hl'].
  simpl in *. rewrite andb_true_iff, (Hf u v Hu Hv), (IH l' Hl Hl') by lia.
  split; [by intros [-> ->]|by intros [= -> ->]].
Qed.

Lemma np_eq_all K n a a' :
  wf_cube K n a -> wf_cube K n a' ->
  exists b, RubiksCube.np_eq (Arr3 K n n a) (Arr3 K n n a')
            = Ok (RubiksCube.PyBoolArray K n n b)
    /\ (forallb (forallb (forallb id)) b = true <-> a = a').
Proof.
  intros [Hlen Hall] [Hlen' Hall'].
  unfold RubiksCube.np_eq. rewrite !compatible_same, !bdim_same. cbn [andb].
  eexists. split; [reflexivity|].
  unfold RubiksCube.bzip at 1. rewrite !stretch_id by done.
  apply (forallb_zip_with (wf_grid n)); [|done|done|congruence].
  intros g g' [Hg Hrows] [Hg' Hrows'].
  unfold RubiksCube.bzip at 1. rewrite !stretch_id by done.
  apply (forallb_zip_with (fun row => length row = n)); [|done|done|congruence].
  intros u v Hu Hv.
  unfold RubiksCube.bzip. rewrite !stretch_id by done.
  apply (forallb_zip_with (fun _ => True)).
  - intros x y _ _. unfold id. apply bool_decide_eq_true.
  - by apply Forall_true.
  - by apply Forall_true.
  - congruence.
Qed.

(** X20. For two engines of the same [dim], [==] evaluates to an array
    whose entries are all true exactly when the two cubes have the same
    cells, and the comparison changes nothing. *)
Theorem eq_array_all_true cfg self other w p q a a' :
  engine_at cfg self w p a -> engine_at cfg other w q a' ->
  RubiksCube.dim self = RubiksCube.dim other ->
  exists v,
    RubiksCube.__eq__ self (RubiksCube.ObjCube other) w = (Ok v, w)
    /\ (np_all v = true <-> a = a').
Proof.
  intros (Hc & Hp & Hwf & _) (Hc' & Hq & Hwf' & _) Hdim.
  rewrite <- Hdim in *.
  destruct (np_eq_all _ _ a a' Hwf Hwf') as (b & Heq & Hall).
  exists (RubiksCube.PyBoolArray (length (colors cfg)) (RubiksCube.dim self)
            (RubiksCube.dim self) b).
  split; [|done].
  unfold RubiksCube.__eq__. rewrite Hc, Hc'. cbn [lift]. norm_bind.
  rewrite (bind_ok _ _ _ _ _ (load_ok w p _ Hp)).
  rewrite (bind_ok _ _ _ _ _ (load_ok w q _ Hq)).
  unfold of_result. by rewrite Heq.
Qed.

Lemma eq_array_all_true_witness :
  exists v,
    RubiksCube.__eq__ engine0 (RubiksCube.ObjCube engine0) w0 = (Ok v, w0)
    /\ (np_all v = true <-> numbered = numbered).
Proof.
  apply (eq_array_all_true std_conf engine0 engine0 w0 7 7 numbered numbered);
    [apply engine0_ok|apply engine0_ok|reflexivity].
Defined.

(** X21. Construction with [shuffle=True]: without an initial array the
    engine holds a new array with the solved cube after 100 legal moves,
    its counter is 0 and 200 random numbers have been used; with an array of
    neither expected shape the construction raises [AttributeError] in the
    first shuffle move, after two random draws. *)
Theorem init_with_shuffle cfg dim verbose w :
  config_ok cfg = true -> symbols_ok cfg = true ->
  (0 < dim ->
   exists self w' p acts,
     RubiksCube.__init__ cfg dim None verbose true w = (Ok self, w')
     /\ Forall (legal cfg) acts /\ length acts = 100
     /\ engine_at cfg self w' p
          (moves_on cfg dim acts (solved_cube (length (colors cfg)) dim))
     /\ heap w !! p = None
     /\ RubiksCube.dim self = dim /\ RubiksCube.counter self = 0
     /\ drawn w' = drawn w + 200)
  /\ (forall q x,
        heap w !! q = Some x ->
        shape x ≠ [length (colors cfg); dim; dim] ->
        shape x ≠ [length (colors cfg); dim; dim; length (colors cfg)] ->
        RubiksCube.__init__ cfg dim (Some q) verbose true w
        = (Raise AttributeError, World (heap w) (rng w) (S (S (drawn w))))).
Proof.
  intros Hcfg Hsym. split.
  - intros Hn.
    set (self0 := {| RubiksCube.dim := dim; RubiksCube.verbose := verbose;
                     RubiksCube.counter := 0; RubiksCube.cube := None |}).
    pose proof (_construct_cube_ok cfg self0 w (config_ok_palette cfg Hcfg)) as Hc.
    set (p := fresh (dom (heap w))) in *. set (w1 := wstore w p _) in *.
    set (self1 := {| RubiksCube.dim := dim; RubiksCube.verbose := verbose;
                     RubiksCube.counter := 0; RubiksCube.cube := Some p |}).
    assert (engine_at cfg self1 w1 p (solved_cube (length (colors cfg)) dim)) as Heng.
    { split; [done|]. split; [apply heap_wstore|].
      split; [apply wf_solved_cube|done]. }
    destruct (shuffle_from cfg 100 0 self1 w1 p _ Hcfg Hsym Heng)
      as (self' & w' & acts & Hfold & Hleg & Hlen & Heng' & _ & Hdim & Hcnt & Hdr & _).
    exists self', w', p, acts.
    split; [|split; [done|split; [done|split; [done|split; [|split; [done|split; [done|]]]]]]].
    + unfold RubiksCube.__init__. norm_bind. fold self0.
      rewrite (bind_ok _ _ _ _ _ Hc). norm_bind. exact Hfold.
    + apply (not_elem_of_dom (D := gset loc)). apply is_fresh.
    + rewrite Hdr. simpl. lia.
  - intros q x Hq Hs1 Hs2.
    unfold RubiksCube.__init__. norm_bind.
    rewrite (bind_ok _ _ _ _ _ (isinstance_ok w q _ Hq)). cbv iota. norm_bind.
    rewrite (bind_ok _ _ _ _ _ (load_ok w q _ Hq)).
    rewrite !bool_decide_eq_false_2 by done. norm_bind.
    unfold RubiksCube.shuffle_cube. cbn [seq foldM]. norm_bind.
    destruct (_random_action_ok cfg w Hcfg Hsym) as (act & code & Hrun & Hact).
    unfold RubiksAction.__init__ at 1. norm_bind.
    rewrite (bind_ok _ _ _ _ _ Hrun). norm_bind. cbn [RubiksAction.action lift].
    norm_bind. unfold RubiksCube._rotate at 1. cbn [RubiksCube.cube lift].
    norm_bind. reflexivity.
Qed.

Lemma init_with_shuffle_witness :
  (0 < 3 ->
   exists self w' p acts,
     RubiksCube.__init__ std_conf 3 None false true w0 = (Ok self, w')
     /\ Forall (legal std_conf) acts /\ length acts = 100
     /\ engine_at std_conf self w' p
          (moves_on std_conf 3 acts (solved_cube (length (colors std_conf)) 3))
     /\ heap w0 !! p = None
     /\ RubiksCube.dim self = 3 /\ RubiksCube.counter self = 0
     /\ drawn w' = drawn w0 + 200)
  /\ (forall q x,
        heap w0 !! q = Some x ->
        shape x ≠ [length (colors std_conf); 3; 3] ->
        shape x ≠ [length (colors std_conf); 3; 3; length (colors std_conf)] ->
        RubiksCube.__init__ std_conf 3 (Some q) false true w0
        = (Raise AttributeError, World (heap w0) (rng w0) (S (S (drawn w0))))).
Proof.
  apply (init_with_shuffle std_conf 3 false w0); [apply std_conf_ok|reflexivity].
Defined.

Lemma random_action_legal_witness :
  exists act code,
    RubiksAction.__init__ std_conf None w0
    = (Ok (move act), World (heap w0) (rng w0) (S (S (drawn w0))))
    /\ RubiksAction._load_action std_conf code = Some act.
Proof.
  apply (proj2 (random_action_legal std_conf w0)); [apply std_conf_ok|reflexivity].
Defined.

Lemma shuffle_cube_spec_witness :
  exists self' w' acts,
    RubiksCube.shuffle_cube std_conf engine0 5 w0 = (Ok self', w')
    /\ Forall (legal std_conf) acts /\ length acts = 5
    /\ engine_at std_conf self' w' 7 (moves_on std_conf (RubiksCube.dim engine0) acts numbered)
    /\ cells_of (moves_on std_conf (RubiksCube.dim engine0) acts numbered)
       ≡ₚ cells_of numbered
    /\ RubiksCube.dim self' = RubiksCube.dim engine0
    /\ RubiksCube.counter self' = 0
    /\ drawn w' = drawn w0 + 2 * 5
    /\ (5 = 0 -> self' = engine0 /\ w' = w0).
Proof.
  apply (shuffle_cube_spec std_conf engine0 w0 7 numbered 5);
    [apply std_conf_ok|reflexivity|apply engine0_ok].
Defined.

Lemma step_returns_alias_witness :
  exists self1 r1 d1 w1 self2 out2 w2,
    RubiksCube.step std_conf engine0
      (move {| RubiksAction.side := "F"; RubiksAction.direction := "d" |}) w0
    = (Ok (self1, (7, r1, d1)), w1)
    /\ RubiksCube.state self1 w1 = (Ok 7, w1)
    /\ RubiksCube.step std_conf self1
         (move {| RubiksAction.side := "B"; RubiksAction.direction := "i" |}) w1
       = (Ok (self2, out2), w2)
    /\ heap w2 !! 7
       = Some (Arr3 (length (colors std_conf)) (RubiksCube.dim engine0)
                 (RubiksCube.dim engine0)
                 (apply_move std_conf
                    {| RubiksAction.side := "B"; RubiksAction.direction := "i" |}
                    (RubiksCube.dim engine0)
                    (apply_move std_conf
                       {| RubiksAction.side := "F"; RubiksAction.direction := "d" |}
                       (RubiksCube.dim engine0) numbered)))
    /\ dom (heap w2) = dom (heap w0).
Proof.
  apply (step_returns_alias std_conf engine0 w0 7 numbered "Fd" _ "Bi" _);
    [apply std_conf_ok|apply engine0_ok|reflexivity|reflexivity].
Defined.

Lemma step_rejects_witness :
  RubiksCube.step std_conf engine0
    (move {| RubiksAction.side := "Z"; RubiksAction.direction := "d" |}) w0
  = (Raise KeyError, w0)
  /\ RubiksCube.step std_conf engine0
       (move {| RubiksAction.side := "F"; RubiksAction.direction := "x" |}) w0
     = (Raise TypeError, w0).
Proof.
  split.
  - apply (proj1 (proj2 (step_rejects std_conf engine0 w0
                           {| RubiksAction.side := "Z"; RubiksAction.direction := "d" |}))
             7); [reflexivity|].
    simpl. rewrite !not_elem_of_cons. repeat split; try done. apply not_elem_of_nil.
  - apply (proj2 (proj2 (step_rejects std_conf engine0 w0
                           {| RubiksAction.side := "F"; RubiksAction.direction := "x" |}))
             7 numbered);
      [apply std_conf_ok|apply engine0_ok|simpl; apply elem_of_cons; by left|done|done].
Defined.

(** X22. [_rotate_helper] on a square matrix: direction ['i'] undoes
    direction ['d'] and the other way round, and any other direction gives
    [None]. *)
Theorem rotate_helper_inverse n m :
  wf_grid n m ->
  (exists g, RubiksCube._rotate_helper (Matrix n n m) "d" = Some g
     /\ RubiksCube._rotate_helper g "i" = Some (Matrix n n m))
  /\ (exists g, RubiksCube._rotate_helper (Matrix n n m) "i" = Some g
        /\ RubiksCube._rotate_helper g "d" = Some (Matrix n n m))
  /\ (forall x, x ≠ "d" -> x ≠ "i" -> RubiksCube._rotate_helper (Matrix n n m) x = None).
Proof.
  intros Hwf. split; [|split].
  - eexists. split; [reflexivity|].
    unfold RubiksCube._rotate_helper. simpl bool_decide. cbv iota.
    f_equal. etrans; [|by rewrite <- (rot90_3_1 n m Hwf) at 1]. reflexivity.
  - eexists. split; [reflexivity|].
    unfold RubiksCube._rotate_helper. simpl bool_decide. cbv iota.
    f_equal. etrans; [|by rewrite <- (rot90_1_3 n m Hwf) at 1]. reflexivity.
  - intros x Hd Hi. unfold RubiksCube._rotate_helper.
    by rewrite !bool_decide_eq_false_2.
Qed.

Lemma rotate_helper_inverse_witness :
  (exists g, RubiksCube._rotate_helper (Matrix 2 2 [[1; 2]; [3; 4]]%Z) "d" = Some g
     /\ RubiksCube._rotate_helper g "i" = Some (Matrix 2 2 [[1; 2]; [3; 4]]%Z))
  /\ (exists g, RubiksCube._rotate_helper (Matrix 2 2 [[1; 2]; [3; 4]]%Z) "i" = Some g
        /\ RubiksCube._rotate_helper g "d" = Some (Matrix 2 2 [[1; 2]; [3; 4]]%Z))
  /\ (forall x, x ≠ "d" -> x ≠ "i" ->
        RubiksCube._rotate_helper (Matrix 2 2 [[1; 2]; [3; 4]]%Z) x = None).
Proof.
  apply (rotate_helper_inverse 2 [[1; 2]; [3; 4]]%Z).
  split; [reflexivity|]. repeat constructor.
Defined.

Lemma sides_single cfg s :
  forallb (fun s => bool_decide (String.length s = 1)) (sides cfg) = true ->
  s ∈ sides cfg -> exists a, s = char a.
Proof.
  intros Hch Hs. rewrite forallb_forall in Hch.
  apply list_elem_of_In, Hch in Hs. apply bool_decide_eq_true in Hs.
  by apply single_char.
Qed.

Lemma actions_lookup_inv cfg k x :
  RubiksCube.actions cfg !! k = Some x ->
  exists i j s d,
    k = i * length (directions cfg) + j /\ j < length (directions cfg)
    /\ sides cfg !! i = Some s /\ directions cfg !! j = Some d
    /\ x = String.append s d.
Proof.
  intros Hk. pose proof (lookup_lt_Some _ _ _ Hk) as Hlt.
  rewrite length_actions in Hlt.
  set (D := length (directions cfg)) in *.
  assert (0 < D) as HD by (destruct D; lia).
  assert (k / D < length (sides cfg)) as Hi.
  { apply Nat.Div0.div_lt_upper_bound. lia. }
  assert (k mod D < D) as Hj by (apply Nat.mod_upper_bound; lia).
  destruct (lookup_lt_is_Some_2 (sides cfg) (k / D) Hi) as [s Hs].
  destruct (lookup_lt_is_Some_2 (directions cfg) (k mod D) Hj) as [d Hd].
  exists (k / D), (k mod D), s, d.
  assert (k = k / D * D + k mod D) as Hkk.
  { rewrite (Nat.div_mod_eq k D) at 1. lia. }
  split; [done|]. split; [done|]. split; [done|]. split; [done|].
  pose proof (actions_lookup cfg _ _ s d Hs Hd) as Ha. fold D in Ha.
  rewrite <- Hkk in Ha. congruence.
Qed.

(** X23. When faces and directions are listed without repetition and the
    faces are one-character symbols, [index_actions] maps the code of face
    [i] and direction [j] to [i * len(directions) + j], its position in
    [actions]. *)
Theorem action_index cfg i j s d :
  NoDup (sides cfg) -> NoDup (directions cfg) ->
  forallb (fun s => bool_decide (String.length s = 1)) (sides cfg) = true ->
  sides cfg !! i = Some s -> directions cfg !! j = Some d ->
  dict_get (String.append s d) (RubiksCube.index_actions cfg)
  = Some (i * length (directions cfg) + j).
Proof.
  intros Hns Hnd Hch Hs Hd.
  pose proof (actions_lookup cfg i j s d Hs Hd) as Hk.
  unfold RubiksCube.index_actions. rewrite dict_index_get.
  destruct (last_index (String.append s d) (RubiksCube.actions cfg)) as [k|] eqn:E.
  - apply last_index_Some in E as [E _].
    destruct (actions_lookup_inv cfg k _ E) as (i' & j' & s' & d' & -> & Hj' & Hs' & Hd' & Heq).
    destruct (sides_single cfg s Hch) as [a ->]; [by eapply list_elem_of_lookup_2|].
    destruct (sides_single cfg s' Hch) as [a' ->]; [by eapply list_elem_of_lookup_2|].
    cbv [char String.append] in Heq. injection Heq as Ha Hdd. subst a' d'.
    rewrite (NoDup_lookup _ _ _ _ Hns Hs Hs').
    by rewrite (NoDup_lookup _ _ _ _ Hnd Hd Hd').
  - apply last_index_None in E. by apply list_elem_of_lookup_2 in Hk.
Qed.

Lemma action_index_witness :
  dict_get (String.append "L" "i") (RubiksCube.index_actions std_conf)
  = Some (4 * length (directions std_conf) + 1).
Proof.
  apply (action_index std_conf 4 1 "L" "i");
    [apply (bool_decide_eq_true_1 (NoDup _)); vm_compute; reflexivity
    |apply (bool_decide_eq_true_1 (NoDup _)); vm_compute; reflexivity
    |reflexivity|reflexivity|reflexivity].
Defined.

(** X24. [get_action_from_two_states] raises [AssertionError], changing
    nothing, when one of its arguments is not an array or one of the two
    arrays is not of rank 3. *)
Theorem inference_rejects cfg s1 s2 w :
  (heap w !! s1 = None \/ heap w !! s2 = None ->
   RubiksCube.get_action_from_two_states cfg s1 s2 w = (Raise AssertionError, w))
  /\ (forall x1 x2,
        heap w !! s1 = Some x1 -> heap w !! s2 = Some x2 ->
        length (shape x1) ≠ 3 \/ length (shape x2) ≠ 3 ->
        RubiksCube.get_action_from_two_states cfg s1 s2 w = (Raise AssertionError, w)).
Proof.
  split.
  - intros Hnone. unfold RubiksCube.get_action_from_two_states.
    unfold isinstance_ndarray at 1 2, bind at 1 2.
    destruct Hnone as [-> | ->].
    + rewrite (bool_decide_eq_false_2 (is_Some None)) by (by intros [? ?]). done.
    + rewrite (bool_decide_eq_false_2 (is_Some None)) by (by intros [? ?]).
      by rewrite andb_false_r.
  - intros x1 x2 H1 H2 Hsh. unfold RubiksCube.get_action_from_two_states.
    rewrite (bind_ok _ _ _ _ _ (isinstance_ok w s1 _ H1)).
    rewrite (bind_ok _ _ _ _ _ (isinstance_ok w s2 _ H2)). cbn [negb andb].
    rewrite (bind_ok _ _ _ _ _ (load_ok w s1 _ H1)).
    rewrite (bind_ok _ _ _ _ _ (load_ok w s2 _ H2)).
    rewrite bool_decide_eq_false_2 by tauto. done.
Qed.

Lemma turned_strip K n inv i x0 x1 x2 x3 a backwards xa xb :
  0 < n -> i < K -> fst x0 < K -> fst x1 < K -> fst x2 < K -> fst x3 < K ->
  NoDup [i; fst x0; fst x1; fst x2; fst x3] ->
  wf_cube K n a ->
  (xa, xb) ∈ hops backwards x0 x1 x2 x3 ->
  get_edge (snd xb) n (turned n inv i backwards x0 x1 x2 x3 a !!! fst xb)
  = rv (inverted inv (snd xa) (snd xb)) (get_edge (snd xa) n (a !!! fst xa)).
Proof.
  intros Hn Hi H0 H1 H2 H3 Hnd Hwf Hin.
  assert (forall j, j < K -> wf_grid n (a !!! j)) as Hface.
  { intros j Hj. by destruct (wf_cube_lookup K n a j Hwf Hj) as (m & _ & -> & ?). }
  rewrite (turned_as_build K n inv i x0 x1 x2 x3 Hi H0 H1 H2 H3 Hnd a Hwf).
  destruct (NoDup5 _ _ _ _ _ Hnd) as [(?&?&?&?) Hnd4].
  destruct (NoDup4 _ _ _ _ Hnd4) as (?&?&?&?&?&?).
  unfold hops in Hin.
  destruct backwards; rewrite !elem_of_cons in Hin;
    destruct Hin as [Hin|[Hin|[Hin|[Hin|Hin]]]];
    try (by apply elem_of_nil in Hin);
    injection Hin as -> ->;
    rewrite build_lookup by done;
    unfold cycled, upd; repeat case_decide; try done; try lia;
    rewrite get_put_edge; auto; rewrite length_rv; apply length_get_edge; auto.
Qed.

Lemma entry_quarter n k m r c :
  wf_grid n m -> r < n -> c < n ->
  (k = 1 -> entry (quarter n k m) r c = entry m c (n - 1 - r))
  /\ (k = 3 -> entry (quarter n k m) r c = entry m (n - 1 - c) r).
Proof.
  intros Hwf Hr Hc. unfold quarter. split; intros ->.
  - rewrite rot90_1_tab by done. by rewrite entry_tab.
  - rewrite rot90_3_tab by done. by rewrite entry_tab.
Qed.

(** X25. What a move writes: the turned face becomes its quarter turn
    (cell [(r, c)] comes from [(c, dim-1-r)] for ['d'] and from
    [(dim-1-c, r)] for ['i']), and along the cycle of neighbours, walked
    forwards for ['d'] and backwards for ['i'], the edge of each neighbour
    receives the strip its predecessor had before the move, reversed when
    the table flags the pair. *)
Theorem step_moves_strips cfg self w p a code act :
  config_ok cfg = true ->
  engine_at cfg self w p a ->
  RubiksAction._load_action cfg code = Some act ->
  exists t self' out w' a',
    circuit_of cfg (RubiksAction.side act) = Some t
    /\ RubiksCube.step cfg self (move act) w = (Ok (self', out), w')
    /\ engine_at cfg self' w' p a'
    /\ (forall r c, r < RubiksCube.dim self -> c < RubiksCube.dim self ->
          entry (a' !!! t_index t) r c
          = if bool_decide (RubiksAction.direction act = "i")
            then entry (a !!! t_index t) (RubiksCube.dim self - 1 - c) r
            else entry (a !!! t_index t) c (RubiksCube.dim self - 1 - r))
    /\ (forall xa xb,
          (xa, xb) ∈ hops (bool_decide (RubiksAction.direction act = "i"))
                      (t_x0 t) (t_x1 t) (t_x2 t) (t_x3 t) ->
          get_edge (snd xb) (RubiksCube.dim self) (a' !!! fst xb)
          = rv (inverted (t_inv t) (snd xa) (snd xb))
               (get_edge (snd xa) (RubiksCube.dim self) (a !!! fst xa))).
Proof.
  intros Hcfg Heng Hact.
  destruct (step_ok cfg Hcfg self w p a code act Heng Hact) as [Hstep Heng'].
  destruct (_load_action_Some cfg code act Hact) as (Hs & Hd & _).
  destruct (config_ok_entry cfg _ Hcfg Hs) as (t & Ht & He).
  destruct Heng as (Hcube & Hp & Hwf & Hn).
  destruct He as [_ Hi _ (H0 & H1 & H2 & H3) Hnd].
  exists t. eexists _, _, _, _. split; [done|]. split; [exact Hstep|].
  split; [exact Heng'|]. unfold apply_move. rewrite Ht. split.
  - intros r c Hr Hc.
    rewrite (turned_face (length (colors cfg))) by done.
    destruct (wf_cube_lookup _ _ a _ Hwf Hi) as (m & _ & -> & Hm).
    destruct (entry_quarter (RubiksCube.dim self) 1 m r c Hm Hr Hc) as [E1 _].
    destruct (entry_quarter (RubiksCube.dim self) 3 m r c Hm Hr Hc) as [_ E3].
    destruct (bool_decide _); auto.
  - intros xa xb Hin. by apply (turned_strip (length (colors cfg))).
Qed.

Lemma step_moves_strips_witness :
  exists t self' out w' a',
    circuit_of std_conf "U" = Some t
    /\ RubiksCube.step std_conf engine0
         (move {| RubiksAction.side := "U"; RubiksAction.direction := "i" |}) w0
       = (Ok (self', out), w')
    /\ engine_at std_conf self' w' 7 a'
    /\ (forall r c, r < RubiksCube.dim engine0 -> c < RubiksCube.dim engine0 ->
          entry (a' !!! t_index t) r c
          = if bool_decide ("i" = "i")
            then entry (numbered !!! t_index t) (RubiksCube.dim engine0 - 1 - c) r
            else entry (numbered !!! t_index t) c (RubiksCube.dim engine0 - 1 - r))
    /\ (forall xa xb,
          (xa, xb) ∈ hops (bool_decide ("i" = "i"))
                      (t_x0 t) (t_x1 t) (t_x2 t) (t_x3 t) ->
          get_edge (snd xb) (RubiksCube.dim engine0) (a' !!! fst xb)
          = rv (inverted (t_inv t) (snd xa) (snd xb))
               (get_edge (snd xa) (RubiksCube.dim engine0) (numbered !!! fst xa))).
Proof.
  apply (step_moves_strips std_conf engine0 w0 7 numbered "Ui"
           {| RubiksAction.side := "U"; RubiksAction.direction := "i" |});
    [apply std_conf_ok|apply engine0_ok|reflexivity].
Defined.

Lemma moves_on_app cfg n acts1 acts2 a :
  moves_on cfg n (acts1 ++ acts2) a = moves_on cfg n acts2 (moves_on cfg n acts1 a).
Proof. unfold moves_on. by rewrite fold_left_app. Qed.

Lemma wf_moves_on cfg n acts : forall a,
  config_ok cfg = true -> 0 < n ->
  Forall (legal cfg) acts ->
  wf_cube (length (colors cfg)) n a ->
  wf_cube (length (colors cfg)) n (moves_on cfg n acts a).
Proof.
  induction acts as [|act acts IH]; intros a Hcfg Hn Hleg Hwf; [done|].
  apply Forall_cons in Hleg as [[code Hact] Hleg]. simpl.
  apply IH; try done. by apply (wf_apply_move cfg Hcfg act n a code).
Qed.

Lemma moves_on_undo cfg n acts : forall a,
  config_ok cfg = true -> table_sym cfg = true -> 0 < n ->
  Forall (legal cfg) acts ->
  wf_cube (length (colors cfg)) n a ->
  moves_on cfg n (reverse (inverse_of <$> acts)) (moves_on cfg n acts a) = a.
Proof.
  induction acts as [|act acts IH]; intros a Hcfg Hsym Hn Hleg Hwf; [done|].
  apply Forall_cons in Hleg as [[code Hact] Hleg].
  rewrite fmap_cons, reverse_cons, moves_on_app. simpl.
  rewrite IH; try done.
  - by apply (apply_move_inverse cfg Hcfg code act Hact n Hn a Hwf).
  - by apply (wf_apply_move cfg Hcfg act n a code).
Qed.

Lemma legal_inverses cfg acts :
  config_ok cfg = true ->
  Forall (legal cfg) acts -> Forall (legal cfg) (reverse (inverse_of <$> acts)).
Proof.
  intros Hcfg Hleg. apply Forall_reverse, Forall_fmap.
  eapply Forall_impl; [exact Hleg|]. intros act [code Hact]. simpl.
  eexists. by apply (inverse_legal cfg Hcfg code act).
Qed.

(** X26. With symmetric reversal flags, stepping through a sequence of
    legal moves and then through their inverses in the opposite order
    restores the store exactly; the counter has then gone up by twice the
    length of the sequence. *)
Theorem undo_sequence cfg acts self w p a :
  config_ok cfg = true -> table_sym cfg = true ->
  engine_at cfg self w p a ->
  Forall (legal cfg) acts ->
  exists self' w' self'',
    run_steps cfg self (move <$> acts) w = (Ok self', w')
    /\ run_steps cfg self' (move <$> reverse (inverse_of <$> acts)) w' = (Ok self'', w)
    /\ engine_at cfg self'' w p a
    /\ RubiksCube.counter self'' = RubiksCube.counter self + 2 * length acts.
Proof.
  intros Hcfg Hsym Heng Hleg.
  destruct (run_steps_ok cfg acts self w p a Hcfg Heng Hleg)
    as (self' & w' & Hrun & Heng' & Hcnt & Hdim & _ & Hw).
  destruct (run_steps_ok cfg _ self' w' p _ Hcfg Heng' (legal_inverses cfg acts Hcfg Hleg))
    as (self'' & w'' & Hrun' & Heng'' & Hcnt' & Hdim' & _ & Hw').
  destruct Heng as (Hcube & Hp & Hwf & Hn).
  rewrite Hdim in *.
  rewrite (moves_on_undo cfg _ acts a Hcfg Hsym Hn Hleg Hwf) in *.
  assert (w'' = w) as ->.
  { rewrite Hw', Hw, wstore_wstore. by apply wstore_same. }
  exists self', w', self''. split; [done|]. split; [done|]. split; [done|].
  rewrite Hcnt', Hcnt, length_reverse, length_fmap. lia.
Qed.

Lemma undo_sequence_witness :
  exists self' w' self'',
    run_steps std_conf engine0
      (move <$> [{| RubiksAction.side := "F"; RubiksAction.direction := "d" |};
                 {| RubiksAction.side := "R"; RubiksAction.direction := "i" |}]) w0
    = (Ok self', w')
    /\ run_steps std_conf self'
         (move <$> reverse
            (inverse_of <$> [{| RubiksAction.side := "F"; RubiksAction.direction := "d" |};
                             {| RubiksAction.side := "R"; RubiksAction.direction := "i" |}]))
         w'
       = (Ok self'', w0)
    /\ engine_at std_conf self'' w0 7 numbered
    /\ RubiksCube.counter self'' = RubiksCube.counter engine0 + 2 * 2.
Proof.
  apply (undo_sequence std_conf
           [{| RubiksAction.side := "F"; RubiksAction.direction := "d" |};
            {| RubiksAction.side := "R"; RubiksAction.direction := "i" |}]
           engine0 w0 7 numbered).
  - apply std_conf_ok.
  - apply std_conf_sym.
  - apply engine0_ok.
  - repeat constructor; [by exists "Fd" | by exists "Ri"].
Defined.
